(** * A shallow embedding of the papunika map mirror ([src/main.ts])

    The mirror downloads the HTML shell, the style sheets and scripts, the
    zone and marker documents and the tile pyramids of one web site into a
    local directory.  This development embeds the functions of [main.ts]
    in Rocq and states the properties of the fetch / cache / retry engine
    as theorems about the embedding.  Of the two revisions of [main.ts]
    the source holds, the embedding follows the later one, which has
    [BadStatusCodeError] and [fetchSuccess].

    Conventions of the embedding.
    - JavaScript strings and byte arrays are both [string]: sequences of
      8-bit characters.  [TextDecoder.decode] and [TextEncoder.encode] are
      the identity on them, which is exact for ASCII resources.
    - Asynchronous code is sequenced: a computation is a function from a
      world (file system, upstream, event trace) to a result and a new
      world.  The tasks joined by [Promise.all] run one after the other in
      array order.
    - The [while (true)] retry loops take a bound on the number of attempts;
      [Spin] is the result of a loop that is still retrying at the bound.
    - What the platform supplies and the repository does not (URL parsing,
      [JSON.parse], the cheerio document) is a [Host] record. *)

From Stdlib Require Import String Ascii List ZArith Lia Bool Arith.
Import ListNotations.
Local Open Scope string_scope.
Local Open Scope list_scope.

Set Implicit Arguments.
Set Warnings "-register-all".

(** ** JavaScript string operations *)

Module Js.

Definition startsWith (s p : string) : bool := String.prefix p s.

Fixpoint drop (n : nat) (s : string) : string :=
  match n, s with
  | O, _ => s
  | S _, EmptyString => EmptyString
  | S k, String _ t => drop k t
  end.

Fixpoint take (n : nat) (s : string) : string :=
  match n, s with
  | O, _ => EmptyString
  | S _, EmptyString => EmptyString
  | S k, String c t => String c (take k t)
  end.

(** [s.substring(n)] and [s.slice(a, b)] for [0 <= a], [0 <= b]. *)
Definition substring_from (n : nat) (s : string) : string := drop n s.
Definition slice (a b : nat) (s : string) : string := take (b - a) (drop a s).

Definition endsWith (s p : string) : bool :=
  (String.length p <=? String.length s)%nat
  && String.eqb (drop (String.length s - String.length p) s) p.

Fixpoint includes (s p : string) : bool :=
  String.prefix p s
  || match s with
     | EmptyString => false
     | String _ t => includes t p
     end.

(** [xs.includes(x)] on an array of strings. *)
Definition arr_includes (xs : list string) (x : string) : bool :=
  existsb (String.eqb x) xs.

(** [xs.find(p)] *)
Definition arr_find (p : string -> bool) (xs : list string) : option string :=
  List.find p xs.

(** Truthiness of a string: the empty string is falsy. *)
Definition truthy (s : string) : bool := negb (String.eqb s "").

(** [GetSubstitution] for a string pattern (no captures): in the
    replacement text [$$] is a dollar, [$&] the matched text, [$`] the
    text before the match and [$'] the text after it; any other dollar
    stands for itself. *)
Fixpoint getSubstitution (matched before after repl : string) : string :=
  match repl with
  | EmptyString => EmptyString
  | String "$" (String "$" r) => String "$" (getSubstitution matched before after r)
  | String "$" (String "&" r) => matched ++ getSubstitution matched before after r
  | String "$" (String "`" r) => before ++ getSubstitution matched before after r
  | String "$" (String "'" r) => after ++ getSubstitution matched before after r
  | String c r => String c (getSubstitution matched before after r)
  end.

(** The scan of [replaceAll] and [replace] with a string pattern.
    [skip] counts the characters of the current match still to pass,
    [before] is the text already scanned and [once] stops after the first
    match. *)
Fixpoint replace_scan (once : bool) (pat repl : string) (skip : nat)
         (before rest : string) : string :=
  match rest with
  | EmptyString =>
      if (skip =? 0)%nat && String.eqb pat ""
      then getSubstitution "" before "" repl else EmptyString
  | String c t =>
      match skip with
      | S k => replace_scan once pat repl k (before ++ String c "") t
      | O =>
          if String.prefix pat rest then
            let r := getSubstitution pat before (drop (String.length pat) rest) repl in
            if once then r ++ drop (String.length pat) rest
            else match String.length pat with
                 | O => r ++ String c (replace_scan once pat repl 0 (before ++ String c "") t)
                 | S k => r ++ replace_scan once pat repl k (before ++ String c "") t
                 end
          else String c (replace_scan once pat repl 0 (before ++ String c "") t)
      end
  end.

(** [s.replaceAll(pat, repl)] with a string pattern. *)
Definition replaceAll (s pat repl : string) : string :=
  replace_scan false pat repl 0 "" s.

(** [s.replace(pat, repl)] with a string pattern: the first occurrence. *)
Definition replace (s pat repl : string) : string :=
  match s with
  | EmptyString => if String.eqb pat "" then getSubstitution "" "" "" repl else ""
  | _ => replace_scan true pat repl 0 "" s
  end.

(** Decimal text of a natural number, as template literals print it. *)
Fixpoint nat_digits (fuel n : nat) (acc : string) : string :=
  let d := ascii_of_nat (48 + n mod 10) in
  match fuel with
  | O => String d acc
  | S f => if (n <? 10)%nat then String d acc
           else nat_digits f (n / 10) (String d acc)
  end.
Definition nat_toString (n : nat) : string := nat_digits n n "".

Definition Z_toString (z : Z) : string :=
  match z with
  | Z0 => "0"
  | Zpos _ => nat_toString (Z.to_nat z)
  | Zneg _ => "-" ++ nat_toString (Z.to_nat (- z))
  end.

End Js.

(** ** The posix [path] module of the Deno standard library

    [basename], [extname], [dirname], [normalize] and [join] follow the
    loops of [std/path/posix.ts]: indices are integers, [-1] is the "not
    seen yet" value, and a loop that leaves with [break] returns at once. *)

Module Path.

Local Open Scope Z_scope.

Definition charAt (s : string) (i : nat) : ascii :=
  match String.get i s with Some c => c | None => "000"%char end.

Definition isSlash (c : ascii) : bool := Ascii.eqb c "/".
Definition isDot (c : ascii) : bool := Ascii.eqb c ".".

Definition zslice (s : string) (a b : Z) : string :=
  Js.slice (Z.to_nat a) (Z.to_nat b) s.

Definition zlen (s : string) : Z := Z.of_nat (String.length s).

(** [s.charCodeAt(i) === c]; out of range the code is [NaN]. *)
Definition zcharIs (c : ascii) (s : string) (i : Z) : bool :=
  if i <? 0 then false
  else match String.get (Z.to_nat i) s with
       | Some d => Ascii.eqb c d
       | None => false
       end.

Record BaseState := mkBase
  { b_start : Z; b_end : Z; b_matchedSlash : bool;
    b_extIdx : Z; b_firstNonSlashEnd : Z }.

(** The loop of [basename] when an extension is given. *)
Fixpoint basename_ext_loop (path ext : string) (n : nat) (st : BaseState) : BaseState :=
  match n with
  | O => st
  | S i =>
      let code := charAt path i in
      if isSlash code then
        if negb (b_matchedSlash st)
        then mkBase (Z.of_nat i + 1) (b_end st) (b_matchedSlash st)
                    (b_extIdx st) (b_firstNonSlashEnd st)
        else basename_ext_loop path ext i st
      else
        let st1 :=
          if b_firstNonSlashEnd st =? -1
          then mkBase (b_start st) (b_end st) false (b_extIdx st) (Z.of_nat i + 1)
          else st in
        let st2 :=
          if 0 <=? b_extIdx st1 then
            if Ascii.eqb code (charAt ext (Z.to_nat (b_extIdx st1))) then
              let e := b_extIdx st1 - 1 in
              if e =? -1
              then mkBase (b_start st1) (Z.of_nat i) (b_matchedSlash st1) e
                          (b_firstNonSlashEnd st1)
              else mkBase (b_start st1) (b_end st1) (b_matchedSlash st1) e
                          (b_firstNonSlashEnd st1)
            else mkBase (b_start st1) (b_firstNonSlashEnd st1) (b_matchedSlash st1)
                        (-1) (b_firstNonSlashEnd st1)
          else st1 in
        basename_ext_loop path ext i st2
  end.

(** The loop of [basename] without an extension: the state is
    [(start, end, matchedSlash)]. *)
Fixpoint basename_loop (path : string) (n : nat) (st : Z * Z * bool) : Z * Z * bool :=
  match n with
  | O => st
  | S i =>
      let '(start, e, matched) := st in
      if isSlash (charAt path i) then
        if negb matched then (Z.of_nat i + 1, e, matched)
        else basename_loop path i st
      else if e =? -1 then basename_loop path i (start, Z.of_nat i + 1, false)
      else basename_loop path i st
  end.

Definition basename (path ext : string) : string :=
  if (0 <? zlen ext) && (zlen ext <=? zlen path) then
    if (zlen ext =? zlen path) && String.eqb ext path then ""%string
    else
      let st := basename_ext_loop path ext (String.length path)
                  (mkBase 0 (-1) true (zlen ext - 1) (-1)) in
      let e := if b_start st =? b_end st then b_firstNonSlashEnd st
               else if b_end st =? -1 then zlen path
               else b_end st in
      zslice path (b_start st) e
  else
    let '(start, e, _) := basename_loop path (String.length path) (0, -1, true) in
    if e =? -1 then ""%string else zslice path start e.

Record ExtState := mkExt
  { e_startDot : Z; e_startPart : Z; e_end : Z;
    e_matchedSlash : bool; e_preDotState : Z }.

Fixpoint extname_loop (path : string) (n : nat) (st : ExtState) : ExtState :=
  match n with
  | O => st
  | S i =>
      let code := charAt path i in
      if isSlash code then
        if negb (e_matchedSlash st)
        then mkExt (e_startDot st) (Z.of_nat i + 1) (e_end st)
                   (e_matchedSlash st) (e_preDotState st)
        else extname_loop path i st
      else
        let st1 :=
          if e_end st =? -1
          then mkExt (e_startDot st) (e_startPart st) (Z.of_nat i + 1) false
                     (e_preDotState st)
          else st in
        let st2 :=
          if isDot code then
            if e_startDot st1 =? -1
            then mkExt (Z.of_nat i) (e_startPart st1) (e_end st1)
                       (e_matchedSlash st1) (e_preDotState st1)
            else if negb (e_preDotState st1 =? 1)
            then mkExt (e_startDot st1) (e_startPart st1) (e_end st1)
                       (e_matchedSlash st1) 1
            else st1
          else if negb (e_startDot st1 =? -1)
          then mkExt (e_startDot st1) (e_startPart st1) (e_end st1)
                     (e_matchedSlash st1) (-1)
          else st1 in
        extname_loop path i st2
  end.

Definition extname (path : string) : string :=
  let st := extname_loop path (String.length path) (mkExt (-1) 0 (-1) true 0) in
  if (e_startDot st =? -1)
     || (e_end st =? -1)
     || (e_preDotState st =? 0)
     || ((e_preDotState st =? 1)
         && (e_startDot st =? e_end st - 1)
         && (e_startDot st =? e_startPart st + 1))
  then ""%string
  else zslice path (e_startDot st) (e_end st).

(** The loop of [dirname] runs from the last index down to index 1; the
    state is [(end, matchedSlash)]. *)
Fixpoint dirname_loop (path : string) (n : nat) (st : Z * bool) : Z * bool :=
  match n with
  | O => st
  | S O => st
  | S i =>
      let '(e, matched) := st in
      if isSlash (charAt path i) then
        if negb matched then (Z.of_nat i, matched)
        else dirname_loop path i st
      else dirname_loop path i (e, false)
  end.

Definition dirname (path : string) : string :=
  if zlen path =? 0 then "."%string
  else
    let hasRoot := isSlash (charAt path 0) in
    let '(e, _) := dirname_loop path (String.length path) (-1, true) in
    if e =? -1 then (if hasRoot then "/" else ".")%string
    else if hasRoot && (e =? 1) then "//"%string
    else zslice path 0 e.

Fixpoint lastIndexOf_from (c : ascii) (s : string) (i : Z) (found : Z) : Z :=
  match s with
  | EmptyString => found
  | String d t => lastIndexOf_from c t (i + 1) (if Ascii.eqb c d then i else found)
  end.
Definition lastIndexOfSlash (s : string) : Z := lastIndexOf_from "/" s 0 (-1).

Record NormState := mkNorm
  { n_res : string; n_lastSegmentLength : Z; n_lastSlash : Z; n_dots : Z }.

(** One turn of the loop of [normalizeString] at index [i] with the
    character [code] ([/] stands in at the end of the path). *)
Definition normalize_step (path : string) (allowAboveRoot : bool)
           (i : Z) (code : ascii) (st : NormState) : NormState :=
  let res := n_res st in
  if isSlash code then
    if (n_lastSlash st =? i - 1) || (n_dots st =? 1) then
      mkNorm res (n_lastSegmentLength st) i 0
    else if n_dots st =? 2 then
      let pop :=
        (zlen res <? 2)
        || negb (n_lastSegmentLength st =? 2)
        || negb (zcharIs "." res (zlen res - 1))
        || negb (zcharIs "." res (zlen res - 2)) in
      if pop && (2 <? zlen res) then
        let k := lastIndexOfSlash res in
        if k =? -1 then mkNorm "" 0 i 0
        else
          let res' := zslice res 0 k in
          mkNorm res' (zlen res' - 1 - lastIndexOfSlash res') i 0
      else if pop && ((zlen res =? 2) || (zlen res =? 1)) then
        mkNorm "" 0 i 0
      else if allowAboveRoot then
        mkNorm (if 0 <? zlen res then (res ++ "/..")%string else ".."%string) 2 i 0
      else mkNorm res (n_lastSegmentLength st) i 0
    else
      let seg := zslice path (n_lastSlash st + 1) i in
      mkNorm (if 0 <? zlen res then (res ++ "/" ++ seg)%string else seg)
             (i - n_lastSlash st - 1) i 0
  else if isDot code && negb (n_dots st =? -1) then
    mkNorm res (n_lastSegmentLength st) (n_lastSlash st) (n_dots st + 1)
  else
    mkNorm res (n_lastSegmentLength st) (n_lastSlash st) (-1).

(** [rest] is the part of the path from index [i] on, [prev] the
    character before it. *)
Fixpoint normalize_loop (path : string) (allowAboveRoot : bool)
         (rest : string) (i : Z) (prev : option ascii) (st : NormState) : NormState :=
  match rest with
  | String c t =>
      normalize_loop path allowAboveRoot t (i + 1) (Some c)
        (normalize_step path allowAboveRoot i c st)
  | EmptyString =>
      match prev with
      | Some c => if isSlash c then st
                  else normalize_step path allowAboveRoot i "/" st
      | None => normalize_step path allowAboveRoot i "/" st
      end
  end.

Definition normalizeString (path : string) (allowAboveRoot : bool) : string :=
  n_res (normalize_loop path allowAboveRoot path 0 None (mkNorm "" 0 (-1) 0)).

Definition normalize (path : string) : string :=
  if zlen path =? 0 then "."%string
  else
    let isAbsolute := isSlash (charAt path 0) in
    let trailingSeparator := zcharIs "/" path (zlen path - 1) in
    let p := normalizeString path (negb isAbsolute) in
    let p := if (zlen p =? 0) && negb isAbsolute then "."%string else p in
    let p := if (0 <? zlen p) && trailingSeparator then (p ++ "/")%string else p in
    if isAbsolute then ("/" ++ p)%string else p.

(** [joined] is [None] while no non-empty segment has been seen. *)
Fixpoint join_loop (paths : list string) (joined : option string) : option string :=
  match paths with
  | [] => joined
  | p :: ps =>
      if 0 <? zlen p then
        match joined with
        | Some j => if Js.truthy j then join_loop ps (Some (j ++ "/" ++ p)%string)
                    else join_loop ps (Some p)
        | None => join_loop ps (Some p)
        end
      else join_loop ps joined
  end.

Definition join (paths : list string) : string :=
  match paths with
  | [] => "."%string
  | _ => match join_loop paths None with
         | Some j => if Js.truthy j then normalize j else "."%string
         | None => "."%string
         end
  end.

End Path.

(** ** Worlds, results and computations *)

(** What a [throw] carries.  [BadStatusCodeError] is the class of
    [main.ts]; [DenoError name] is an error of the Deno file API with that
    [name] ([NotFound], [PermissionDenied], ...); [TypeError] covers a
    failed [fetch], an invalid URL and a property read on [undefined]. *)
Inductive Exn : Type :=
| BadStatusCodeError (status : Z)
| DenoError (name : string)
| TypeError (msg : string)
| SyntaxError (msg : string)
| Error (msg : string).

(** [err.name] *)
Definition exn_name (e : Exn) : string :=
  match e with
  | BadStatusCodeError _ => "Error"
  | DenoError n => n
  | TypeError _ => "TypeError"
  | SyntaxError _ => "SyntaxError"
  | Error _ => "Error"
  end.

(** The message built by the constructor of [BadStatusCodeError]. *)
Definition badStatusMessage (status : Z) : string :=
  "bad status code: " ++ Js.Z_toString status
  ++ (if (status =? 403)%Z
      then " (rate limited? or ip banned? ... try again in a few minutes)"
      else "").

Definition exn_message (e : Exn) : string :=
  match e with
  | BadStatusCodeError s => badStatusMessage s
  | DenoError n => n
  | TypeError m => m
  | SyntaxError m => m
  | Error m => m
  end.

(** The text the console prints for a caught error. *)
Definition show (e : Exn) : string := exn_name e ++ ": " ++ exn_message e.

Record Response : Type := mkResponse
  { status : Z;
    contentType : option string;   (* [res.headers.get('content-type')] *)
    body : string }.

(** [res.ok] *)
Definition ok (r : Response) : bool := ((200 <=? status r) && (status r <=? 299))%Z.

Inductive FetchOutcome : Type :=
| Responds (r : Response)
| NetworkFails.

Inductive Level : Type := LLog | LWarn | LError.

Inductive Event : Type :=
| EvFetch (url : string)
| EvSleep (ms : Z)
| EvConsole (level : Level) (args : list string)
| EvReadDir (dir : string)
| EvReadFile (path : string)
| EvMkdir (path : string)
| EvWriteFile (path contents : string).

(** The output tree: every directory with the names it lists, in the
    order [Deno.readDir] yields them, and every file with its content. *)
Record FileSystem : Type := mkFs
  { fs_dirs : list (string * list string);
    fs_files : list (string * string) }.

(** A scheduled failure of a file-system call: the call throws
    [DenoError f_name]; [Deno.readDir] throws it after [f_after] entries. *)
Record Fault : Type := mkFault { f_after : nat; f_name : string }.

Record World : Type := mkWorld
  { fs : FileSystem;
    upstream : nat -> string -> FetchOutcome;   (* answer to the n-th request *)
    faults : nat -> option Fault;               (* fate of the n-th file-system call *)
    requests : nat;
    fsops : nat;
    trace : list Event }.                       (* newest event first *)

Inductive Result (A : Type) : Type :=
| Ok (a : A)
| Throw (e : Exn)
| Spin.
Arguments Throw {A} e.
Arguments Spin {A}.

Definition M (A : Type) : Type := World -> Result A * World.

Definition ret {A} (a : A) : M A := fun w => (Ok a, w).

Definition bind {A B} (m : M A) (k : A -> M B) : M B :=
  fun w =>
    match m w with
    | (Ok a, w') => k a w'
    | (Throw e, w') => (Throw e, w')
    | (Spin, w') => (Spin, w')
    end.

Definition throw {A} (e : Exn) : M A := fun w => (Throw e, w).
Definition spin {A} : M A := fun w => (Spin, w).

(** [try { m } catch (err) { handler err }] *)
Definition try_catch {A} (m : M A) (handler : Exn -> M A) : M A :=
  fun w =>
    match m w with
    | (Throw e, w') => handler e w'
    | r => r
    end.

Declare Scope js_scope.
Delimit Scope js_scope with js.
Notation "x <- m ;; k" := (bind m (fun x => k))
  (at level 100, m at next level, right associativity) : js_scope.
Notation "m ;;; k" := (bind m (fun _ => k))
  (at level 100, right associativity) : js_scope.
Local Open Scope js_scope.

Definition emit (e : Event) : M unit :=
  fun w => (Ok tt, mkWorld (fs w) (upstream w) (faults w) (requests w) (fsops w)
                           (e :: trace w)).

Definition console (l : Level) (args : list string) : M unit := emit (EvConsole l args).

(** [await sleep(ms)] *)
Definition sleep (ms : Z) : M unit := emit (EvSleep ms).

(** [await fetch(url)]: the request is recorded and answered by the
    upstream; a transport failure rejects with a [TypeError]. *)
Definition fetch (url : string) : M Response :=
  fun w =>
    let w' := mkWorld (fs w) (upstream w) (faults w) (S (requests w)) (fsops w)
                      (EvFetch url :: trace w) in
    match upstream w (requests w) url with
    | Responds r => (Ok r, w')
    | NetworkFails => (Throw (TypeError "error sending request"), w')
    end.

(** *** The Deno file API *)

Fixpoint assoc {V} (k : string) (l : list (string * V)) : option V :=
  match l with
  | [] => None
  | (k', v) :: t => if String.eqb k k' then Some v else assoc k t
  end.

Fixpoint assoc_set {V} (k : string) (v : V) (l : list (string * V)) : list (string * V) :=
  match l with
  | [] => [(k, v)]
  | (k', v') :: t => if String.eqb k k' then (k, v) :: t else (k', v') :: assoc_set k v t
  end.

(** A file-system call: count it, record it, and fail if so scheduled. *)
Definition fs_call {A} (ev : Event) (op : FileSystem -> Result A * FileSystem) : M A :=
  fun w =>
    let tr := ev :: trace w in
    match faults w (fsops w) with
    | Some f =>
        (Throw (DenoError (f_name f)),
         mkWorld (fs w) (upstream w) (faults w) (requests w) (S (fsops w)) tr)
    | None =>
        let '(r, fs') := op (fs w) in
        (r, mkWorld fs' (upstream w) (faults w) (requests w) (S (fsops w)) tr)
    end.

(** What [Deno.readDir] yields: entries, then possibly an error. *)
Definition DirStream : Type := (list string * option Exn)%type.

Definition readDir (dir : string) : M DirStream :=
  fun w =>
    let w' := mkWorld (fs w) (upstream w) (faults w) (requests w) (S (fsops w))
                      (EvReadDir dir :: trace w) in
    match assoc dir (fs_dirs (fs w)), faults w (fsops w) with
    | None, _ => (Ok ([], Some (DenoError "NotFound")), w')
    | Some entries, Some f =>
        (Ok (firstn (f_after f) entries, Some (DenoError (f_name f))), w')
    | Some entries, None => (Ok (entries, None), w')
    end.

Definition readFile (path : string) : M string :=
  fs_call (EvReadFile path)
    (fun fs0 => match assoc path (fs_files fs0) with
                | Some c => (Ok c, fs0)
                | None => (Throw (DenoError "NotFound"), fs0)
                end).

Definition add_entry (name : string) (entries : list string) : list string :=
  if Js.arr_includes entries name then entries else entries ++ [name].

(** Create [dir] and the ancestors it lacks, and list each in its parent. *)
Fixpoint mkdir_p (fuel : nat) (dir : string) (ds : list (string * list string))
  : list (string * list string) :=
  match assoc dir ds with
  | Some _ => ds
  | None =>
      let parent := Path.dirname dir in
      let ds1 :=
        match fuel with
        | O => ds
        | S f => if String.eqb parent dir then ds else mkdir_p f parent ds
        end in
      let ds2 :=
        match assoc parent ds1 with
        | Some es => if String.eqb parent dir then ds1
                     else assoc_set parent (add_entry (Path.basename dir "") es) ds1
        | None => ds1
        end in
      assoc_set dir [] ds2
  end.

(** [await Deno.mkdir(path, { recursive: true })] *)
Definition mkdir (path : string) : M unit :=
  fs_call (EvMkdir path)
    (fun fs0 =>
       match assoc path (fs_files fs0) with
       | Some _ => (Throw (DenoError "AlreadyExists"), fs0)
       | None => (Ok tt, mkFs (mkdir_p (String.length path) path (fs_dirs fs0))
                              (fs_files fs0))
       end).

(** [await Deno.writeFile(path, contents)] *)
Definition writeFile (path contents : string) : M unit :=
  fs_call (EvWriteFile path contents)
    (fun fs0 =>
       let parent := Path.dirname path in
       match assoc parent (fs_dirs fs0), assoc path (fs_dirs fs0) with
       | None, _ => (Throw (DenoError "NotFound"), fs0)
       | Some _, Some _ => (Throw (DenoError "IsADirectory"), fs0)
       | Some es, None =>
           (Ok tt, mkFs (assoc_set parent (add_entry (Path.basename path "") es)
                                   (fs_dirs fs0))
                        (assoc_set path contents (fs_files fs0)))
       end).

(** ** The cache index: [findExistingCachedFile] *)

(** [!x] for an optional string argument: [undefined] and [''] are falsy. *)
Definition falsy (x : option string) : bool :=
  match x with
  | None => true
  | Some s => negb (Js.truthy s)
  end.

Definition str_of (x : option string) : string :=
  match x with Some s => s | None => "" end.

(** The test of the loop body on one directory entry. *)
Definition cacheNameMatches (name ext file : string) : bool :=
  String.eqb file (name ++ ext)
  || (Js.startsWith file name
      && Js.endsWith file ext
      && (String.length file =? String.length name + String.length ext + 33)%nat).

(** The [for await] loop over the entries: the first entry that passes the
    test is returned; an error of the enumeration is thrown where it
    occurs; falling off the loop returns [undefined]. *)
Fixpoint scanDir (name ext : string) (entries : list string) (failure : option Exn)
  : M (option string) :=
  match entries with
  | file :: rest =>
      if cacheNameMatches name ext file then ret (Some file)
      else scanDir name ext rest failure
  | [] =>
      match failure with
      | Some e => throw e
      | None => ret None
      end
  end.

(** The two [if] statements that complete the arguments: a missing name is
    the base name of [dir], a missing extension is the extension of the
    name.  The result is the directory, the name and the extension the
    loop works with. *)
Definition resolveLookup (dir : string) (name ext : option string)
  : string * string * string :=
  let '(dir, name) :=
    if falsy name then (Path.dirname dir, Path.basename dir "")
    else (dir, str_of name) in
  if falsy ext then
    let ext := Path.extname name in (dir, Path.basename name ext, ext)
  else (dir, name, str_of ext).

(** The [catch] block. *)
Definition lookupFailed (err : Exn) : M (option string) :=
  (if negb (String.eqb (exn_name err) "NotFound")
      && negb (String.eqb (exn_name err) "PermissionDenied")
   then console LWarn [show err]
   else ret tt) ;;;
  ret None.

Definition findExistingCachedFile (dir : string) (name ext : option string)
  : M (option string) :=
  let '(dir, name, ext) := resolveLookup dir name ext in
  try_catch
    (stream <- readDir dir ;;
     scanDir name ext (fst stream) (snd stream))
    lookupFailed.

(** ** The digest and the encodings of the standard library *)

(** [createHash('md5').update(contents).toString('hex')]: the MD5 digest
    of RFC 1321 on 32-bit words, printed as 32 lower-case hex digits. *)
Module Md5.

Local Open Scope Z_scope.

Definition wrap (x : Z) : Z := x mod 0x100000000.
Definition rotl (x : Z) (c : Z) : Z :=
  Z.lor (wrap (Z.shiftl x c)) (Z.shiftr x (32 - c)).
Definition not32 (x : Z) : Z := Z.lxor x 0xffffffff.

Definition K : list Z :=
  [ 0xd76aa478; 0xe8c7b756; 0x242070db; 0xc1bdceee;
    0xf57c0faf; 0x4787c62a; 0xa8304613; 0xfd469501;
    0x698098d8; 0x8b44f7af; 0xffff5bb1; 0x895cd7be;
    0x6b901122; 0xfd987193; 0xa679438e; 0x49b40821;
    0xf61e2562; 0xc040b340; 0x265e5a51; 0xe9b6c7aa;
    0xd62f105d; 0x02441453; 0xd8a1e681; 0xe7d3fbc8;
    0x21e1cde6; 0xc33707d6; 0xf4d50d87; 0x455a14ed;
    0xa9e3e905; 0xfcefa3f8; 0x676f02d9; 0x8d2a4c8a;
    0xfffa3942; 0x8771f681; 0x6d9d6122; 0xfde5380c;
    0xa4beea44; 0x4bdecfa9; 0xf6bb4b60; 0xbebfbc70;
    0x289b7ec6; 0xeaa127fa; 0xd4ef3085; 0x04881d05;
    0xd9d4d039; 0xe6db99e5; 0x1fa27cf8; 0xc4ac5665;
    0xf4292244; 0x432aff97; 0xab9423a7; 0xfc93a039;
    0x655b59c3; 0x8f0ccc92; 0xffeff47d; 0x85845dd1;
    0x6fa87e4f; 0xfe2ce6e0; 0xa3014314; 0x4e0811a1;
    0xf7537e82; 0xbd3af235; 0x2ad7d2bb; 0xeb86d391 ].

Definition shifts : list Z :=
  [ 7; 12; 17; 22; 7; 12; 17; 22; 7; 12; 17; 22; 7; 12; 17; 22;
    5; 9; 14; 20; 5; 9; 14; 20; 5; 9; 14; 20; 5; 9; 14; 20;
    4; 11; 16; 23; 4; 11; 16; 23; 4; 11; 16; 23; 4; 11; 16; 23;
    6; 10; 15; 21; 6; 10; 15; 21; 6; 10; 15; 21; 6; 10; 15; 21 ].

Definition bytes_of (s : string) : list Z :=
  map (fun c => Z.of_nat (nat_of_ascii c)) (list_ascii_of_string s).

(** Padding: a one bit, zeros up to 56 modulo 64, then the bit length as
    a 64-bit little-endian number. *)
Definition le_bytes (n : nat) (x : Z) : list Z :=
  map (fun i => Z.shiftr x (8 * Z.of_nat i) mod 256) (seq 0 n).

Definition pad (msg : list Z) : list Z :=
  let len := Z.of_nat (List.length msg) in
  let zeros := Z.to_nat ((55 - len) mod 64) in
  msg ++ [0x80] ++ repeat 0 zeros ++ le_bytes 8 ((len * 8) mod 0x10000000000000000).

Definition word_le (b0 b1 b2 b3 : Z) : Z :=
  b0 + 256 * b1 + 65536 * b2 + 16777216 * b3.

Fixpoint words (bs : list Z) : list Z :=
  match bs with
  | b0 :: b1 :: b2 :: b3 :: t => word_le b0 b1 b2 b3 :: words t
  | _ => []
  end.

Definition State : Type := (Z * Z * Z * Z)%type.

Definition round (m : list Z) (st : State) (i : nat) : State :=
  let '(a, b, c, d) := st in
  let zi := Z.of_nat i in
  let '(f, g) :=
    if zi <? 16 then (Z.lor (Z.land b c) (Z.land (not32 b) d), zi)
    else if zi <? 32 then (Z.lor (Z.land d b) (Z.land (not32 d) c), (5 * zi + 1) mod 16)
    else if zi <? 48 then (Z.lxor (Z.lxor b c) d, (3 * zi + 5) mod 16)
    else (Z.lxor c (Z.lor b (not32 d)), (7 * zi) mod 16) in
  let f' := wrap (f + a + nth i K 0 + nth (Z.to_nat g) m 0) in
  (d, wrap (b + rotl f' (nth i shifts 0)), b, c).

Definition block (st : State) (m : list Z) : State :=
  let '(a0, b0, c0, d0) := st in
  let '(a, b, c, d) := fold_left (round m) (seq 0 64) st in
  (wrap (a0 + a), wrap (b0 + b), wrap (c0 + c), wrap (d0 + d)).

Fixpoint blocks (fuel : nat) (st : State) (ws : list Z) : State :=
  match fuel, ws with
  | S f, _ :: _ => blocks f (block st (firstn 16 ws)) (skipn 16 ws)
  | _, _ => st
  end.

Definition init : State := (0x67452301, 0xefcdab89, 0x98badcfe, 0x10325476).

Definition digest (s : string) : State :=
  let ws := words (pad (bytes_of s)) in
  blocks (List.length ws) init ws.

Definition hexDigit (n : Z) : ascii :=
  nth (Z.to_nat n) (list_ascii_of_string "0123456789abcdef") "0"%char.

Fixpoint hexBytes (bs : list Z) : string :=
  match bs with
  | [] => EmptyString
  | b :: t => String (hexDigit (b / 16)) (String (hexDigit (b mod 16)) (hexBytes t))
  end.

Definition hex (s : string) : string :=
  let '(a, b, c, d) := digest s in
  hexBytes (le_bytes 4 a ++ le_bytes 4 b ++ le_bytes 4 c ++ le_bytes 4 d).

End Md5.

(** [b64.encode]: base64 with the standard alphabet and [=] padding. *)
Module B64.

Definition alphabet : list ascii :=
  list_ascii_of_string
    "ABCDEFGHIJKLMNOPQRSTUVWXYZabcdefghijklmnopqrstuvwxyz0123456789+/".

Definition digit (n : nat) : ascii := nth n alphabet "="%char.

Fixpoint encode_bytes (bs : list nat) : string :=
  match bs with
  | [] => EmptyString
  | [a] =>
      String (digit (a / 4))
        (String (digit ((a mod 4) * 16)) "==")
  | [a; b] =>
      String (digit (a / 4))
        (String (digit ((a mod 4) * 16 + b / 16))
           (String (digit ((b mod 16) * 4)) "="))
  | a :: b :: c :: t =>
      String (digit (a / 4))
        (String (digit ((a mod 4) * 16 + b / 16))
           (String (digit ((b mod 16) * 4 + c / 64))
              (String (digit (c mod 64)) (encode_bytes t))))
  end.

Definition encode (s : string) : string :=
  encode_bytes (map nat_of_ascii (list_ascii_of_string s)).

End B64.

(** ** What the platform supplies *)

(** A parsed URL: [new URL(...)] gives its [href] and [pathname]. *)
Record Url : Type := mkUrl { href : string; pathname : string }.

(** A JSON value as [JSON.parse] returns it.  A number carries the text
    JavaScript prints for it (["1"] for [1] and for [1.0]); an object has
    each key once. *)
Inductive json : Type :=
| JNull
| JBool (b : bool)
| JNum (repr : string)
| JStr (s : string)
| JArr (items : list json)
| JObj (fields : list (string * json)).

Record Host : Type := mkHost
  { (* [new URL(url)] and [new URL(url, base)]; [None] is "Invalid URL" *)
    URL : string -> option string -> option Url;
    (* [JSON.parse(text)]; [None] is a [SyntaxError] *)
    JSON_parse : string -> option json;
    (* the cheerio document: [cheerio.load], [$(selector).toArray()],
       [node.type], [node.attribs[name]], its assignment, [$(node).remove()]
       and [$.html()] *)
    Doc : Type;
    Node : Type;
    cheerio_load : string -> Doc;
    select : Doc -> string -> list Node;
    node_type : Doc -> Node -> string;
    attrib : Doc -> Node -> string -> option string;
    set_attrib : Doc -> Node -> string -> string -> Doc;
    remove : Doc -> Node -> Doc;
    html : Doc -> string }.

(** ** The run configuration *)

(** The constants [main.ts] computes when it starts. *)
Record Config : Type := mkConfig
  { outdir : string;
    canReuseCache : bool;
    shouldDownloadTiles : bool;
    shouldDownloadAssets : bool;
    shouldDownloadZones : bool;
    shouldDownloadZoneIcons : bool;
    refresh : bool }.

(** [args] is [Deno.args]; [readGranted] tells whether read access to the
    output directory is granted, by the query or by the request after it. *)
Definition configure (args : list string) (readGranted : bool) : Config :=
  {| outdir :=
       match Js.arr_find (fun flag => Js.startsWith flag "--outdir=") args with
       | Some flag => if Js.truthy (Js.substring_from 9 flag)
                      then Js.substring_from 9 flag else "mirror"
       | None => "mirror"
       end;
     canReuseCache := readGranted;
     shouldDownloadTiles := negb (Js.arr_includes args "--no-tiles");
     shouldDownloadAssets := negb (Js.arr_includes args "--no-assets");
     shouldDownloadZones := negb (Js.arr_includes args "--no-zones");
     shouldDownloadZoneIcons := negb (Js.arr_includes args "--no-zone-icons");
     refresh := Js.arr_includes args "--refresh" |}.

Definition origin : string := "https://papunika.com".
Definition rootUrl : string := origin ++ "/map".
Definition world : string := rootUrl ++ "/data/zones/us/overworld.json".
Definition assets : list string :=
  [ "island"; "islandPvP"; "affinity"; "astory"; "food"; "ingredient";
    "mokoko"; "spassage"; "viewpoint"; "hstory"; "minuet"; "resonance";
    "monster"; "boss"; "boss"; "notice"; "merchant"; "ogate"; "ghost";
    "emarine"; "smerchant"; "cdotr"; "cdotb"; "cdotg" ].

(** ** Regular expressions of [main.ts] *)

Module Re.

(** [\w] *)
Definition isWord (c : ascii) : bool :=
  let n := nat_of_ascii c in
  (((48 <=? n) && (n <=? 57)) || ((65 <=? n) && (n <=? 90))
   || ((97 <=? n) && (n <=? 122)) || (n =? 95))%nat.

(** The characters [.] does not match. *)
Definition isLineTerminator (c : ascii) : bool :=
  let n := nat_of_ascii c in ((n =? 10) || (n =? 13))%nat.

(** A double or a single quote. *)
Definition isQuote (c : ascii) : bool :=
  Ascii.eqb c (ascii_of_nat 34) || Ascii.eqb c "'".

(** [\w+\.] at the start of [s]: the text after it.  [seen] tells
    whether a word character was passed. *)
Fixpoint wordsDot (seen : bool) (s : string) : option string :=
  match s with
  | EmptyString => None
  | String c t =>
      if isWord c then wordsDot true t
      else if seen && Ascii.eqb c "." then Some t
      else None
  end.

(** [/-\w+\.\w+\.\w+\./] at the start of [s]: the text after the match. *)
Definition hashSuffixAt (s : string) : option string :=
  match s with
  | String "-" t =>
      match wordsDot false t with
      | Some t1 =>
          match wordsDot false t1 with
          | Some t2 => wordsDot false t2
          | None => None
          end
      | None => None
      end
  | _ => None
  end.

(** [s.replace(/-\w+\.\w+\.\w+\./, '.')] *)
Fixpoint replaceHashSuffix (s : string) : string :=
  match hashSuffixAt s with
  | Some rest => String "." rest
  | None =>
      match s with
      | EmptyString => EmptyString
      | String c t => String c (replaceHashSuffix t)
      end
  end.

Fixpoint noLineTerminator (s : string) : bool :=
  match s with
  | EmptyString => true
  | String c t => negb (isLineTerminator c) && noLineTerminator t
  end.

(** [s.replace(/@.*$/, '')] *)
Fixpoint stripAt (s : string) : string :=
  match s with
  | EmptyString => EmptyString
  | String c t =>
      if Ascii.eqb c "@" && noLineTerminator t then EmptyString
      else String c (stripAt t)
  end.

(** The lazy [.+?] of the url pattern after [k] characters, followed by
    the optional closing quote and the closing parenthesis: the length
    of the capture and of the closing text. *)
Fixpoint lazyBody (k : nat) (s : string) : option (nat * nat) :=
  match s with
  | EmptyString => None
  | String c t =>
      if Ascii.eqb c ")" then Some (k, 1%nat)
      else if isQuote c && String.prefix ")" t then Some (k, 2%nat)
      else if isLineTerminator c then None
      else lazyBody (S k) t
  end.

(** The pattern from its capture group [((?!data:).+?)] on, at the start
    of [s]: the capture and the length of the match. *)
Definition urlBodyAt (s : string) : option (string * nat) :=
  if String.prefix "data:" s then None
  else match s with
       | EmptyString => None
       | String c t =>
           if isLineTerminator c then None
           else match lazyBody 1 t with
                | Some (k, closing) => Some (Js.take k s, (k + closing)%nat)
                | None => None
                end
       end.

(** The pattern of [embedCssUrls] at the start of [s]: [url(], an
    optional quote, the capture [((?!data:).+?)], an optional quote and
    [)].  The result is the capture and the length of the match.  The
    optional opening quote is taken first and given back when the rest
    does not match. *)
Definition urlAt (s : string) : option (string * nat) :=
  if String.prefix "url(" s then
    let r := Js.drop 4 s in
    let unquoted :=
      match urlBodyAt r with
      | Some (cap, n) => Some (cap, (4 + n)%nat)
      | None => None
      end in
    match r with
    | String c t =>
        if isQuote c then
          match urlBodyAt t with
          | Some (cap, n) => Some (cap, (5 + n)%nat)
          | None => unquoted
          end
        else unquoted
    | EmptyString => unquoted
    end
  else None.

(** [Array.from(s.matchAll(/.../g), (m) => m[1])]: the captures of the
    successive matches, which do not overlap. *)
Fixpoint urlCaptures (skip : nat) (s : string) : list string :=
  match s with
  | EmptyString => []
  | String _ t =>
      match skip with
      | S k => urlCaptures k t
      | O =>
          match urlAt s with
          | Some (cap, n) => cap :: urlCaptures (n - 1) t
          | None => urlCaptures 0 t
          end
      end
  end.

End Re.

(** [Array.from(new Set(xs))]: each string once, at its first place. *)
Fixpoint dedup (seen xs : list string) : list string :=
  match xs with
  | [] => []
  | x :: t => if Js.arr_includes seen x then dedup seen t
              else x :: dedup (x :: seen) t
  end.

(** ** The functions of [main.ts] *)

Local Open Scope string_scope.

Definition dquote : string := String (ascii_of_nat 34) "".

(** [Math.pow(2, i) * 250], which is exact as long as it is below
    [2 ^ 53]. *)
Definition backoff (i : nat) : Z := (2 ^ Z.of_nat i * 250)%Z.

(** [existing && ...] on the result of the cache index. *)
Definition found (existing : option string) : bool := negb (falsy existing).

Definition fetchSuccess (url : string) : M Response :=
  res <- fetch url ;;
  if negb (ok res) then throw (BadStatusCodeError (status res))
  else ret res.

(** The end of the [catch] block of each retry loop: compute the delay,
    log it, sleep, and [continue] with the next turn. *)
Definition retryAfter {A} (i : nat) (again : M A) : M A :=
  let time := backoff i in
  console LLog ["retrying in " ++ Js.Z_toString time ++ "ms"] ;;;
  sleep time ;;;
  again.

(** What [sanitizedBasename] makes of the path name of the URL. *)
Definition sanitize (pathname : string) : string :=
  Re.stripAt (Re.replaceHashSuffix (Js.replace (Path.basename pathname "") ".min." ".")).

Section Mirror.

Variable host : Host.
Variable cfg : Config.

(** [new URL(url).pathname], which throws on an invalid URL. *)
Definition urlPathname (url : string) : M string :=
  match URL host url None with
  | Some u => ret (pathname u)
  | None => throw (TypeError "Invalid URL")
  end.

Definition sanitizedBasename (url : string) : M string :=
  p <- urlPathname url ;;
  ret (sanitize p).

(** The body of the loop of [embedCssUrls] for one reference; [s] is the
    style sheet text so far. *)
Definition embedOne (url : string) (s : string) (resourceUrl : string) : M string :=
  if Js.startsWith resourceUrl "#" then ret s
  else
    normalizedUrl <-
      (if negb (Js.startsWith resourceUrl "http") then
         match URL host resourceUrl (Some url) with
         | Some u => ret (href u)
         | None => throw (TypeError "Invalid URL")
         end
       else ret resourceUrl) ;;
    res <- fetchSuccess normalizedUrl ;;
    (match contentType res with
     | Some m => if Js.truthy m then ret tt
                 else console LLog ["warning: no content-type header for " ++ normalizedUrl]
     | None => console LLog ["warning: no content-type header for " ++ normalizedUrl]
     end) ;;;
    let mimeType := match contentType res with Some m => m | None => "null" end in
    ret (Js.replaceAll s ("url(" ++ resourceUrl ++ ")")
           ("url(data:" ++ mimeType ++ ";base64," ++ B64.encode (body res) ++ ")")).

Fixpoint embedEach (url : string) (s : string) (resourceUrls : list string) : M string :=
  match resourceUrls with
  | [] => ret s
  | r :: rest => s' <- embedOne url s r ;; embedEach url s' rest
  end.

Definition embedCssUrls (url contents : string) : M string :=
  let s := contents in
  let resourceUrls := dedup [] (Re.urlCaptures 0 s) in
  embedEach url s resourceUrls.

Definition replaceJsPapunikaUrls (url contents : string) : M string :=
  ret (Js.replaceAll contents (dquote ++ origin ++ "/") ("worldPath+" ++ dquote)).

(** The [try] block of [cacheResourceFile]. *)
Definition cacheAttempt (url prefix : string)
           (mutate : option (string -> string -> M string))
           (filename extname writedir : string) : M string :=
  res <- fetchSuccess url ;;
  contents <- (match mutate with
               | Some f => f url (body res)
               | None => ret (body res)
               end) ;;
  console LLog ["caching resource"; url] ;;;
  let filenameWithHash := filename ++ "-" ++ Md5.hex contents ++ extname in
  let writepath := Path.join [writedir; filenameWithHash] in
  mkdir (Path.dirname writepath) ;;;
  writeFile writepath contents ;;;
  ret (Path.join [prefix; filenameWithHash]).

(** The [while (true)] loop of [cacheResourceFile]; [attempts] bounds
    the number of turns and [i] is the retry counter. *)
Fixpoint cacheLoop (attempts i : nat) (url prefix : string)
         (mutate : option (string -> string -> M string))
         (filename extname writedir : string) (existing : option string) : M string :=
  match attempts with
  | O => spin
  | S n =>
      try_catch
        (cacheAttempt url prefix mutate filename extname writedir)
        (fun err =>
           console LError ["failed to cache " ++ url ++ ":"; show err] ;;;
           if found existing then
             let reusepath := Path.join [prefix; str_of existing] in
             console LLog ["reusing cached resource"; reusepath] ;;;
             ret reusepath
           else
             retryAfter i
               (cacheLoop n (S i) url prefix mutate filename extname writedir existing))
  end.

Definition cacheResourceFile (attempts : nat) (url prefix : string)
           (mutate : option (string -> string -> M string)) : M string :=
  sanitized <- sanitizedBasename url ;;
  let extname := Path.extname sanitized in
  let filename := Path.basename sanitized extname in
  let writedir := Path.join [outdir cfg; prefix] in
  existing <- (if canReuseCache cfg
               then findExistingCachedFile writedir (Some filename) (Some extname)
               else ret None) ;;
  if found existing && negb (refresh cfg) then
    let reusepath := Path.join [prefix; str_of existing] in
    console LLog ["reusing cached resource"; reusepath] ;;;
    ret reusepath
  else
    cacheLoop attempts 0 url prefix mutate filename extname writedir existing.

Fixpoint fetchRootPage_loop (attempts i : nat) : M string :=
  match attempts with
  | O => spin
  | S n =>
      try_catch
        (res <- fetchSuccess rootUrl ;; ret (body res))
        (fun err =>
           console LError ["failed to fetch root page:"; show err] ;;;
           retryAfter i (fetchRootPage_loop n (S i)))
  end.

Definition fetchRootPage (attempts : nat) : M string :=
  fetchRootPage_loop attempts 0.

(** [JSON.parse(new TextDecoder().decode(buf))]; the result is
    [Some] parsed value, [None] standing for [undefined]. *)
Definition parseJson (text : string) : M (option json) :=
  match JSON_parse host text with
  | Some v => ret (Some v)
  | None => throw (SyntaxError "Unexpected token in JSON")
  end.

(** The value [tryPublicFetchOrCached] returns from a file on disk. *)
Definition readCached (filepath : string) (parse : bool) : M (option json) :=
  if parse then (text <- readFile filepath ;; parseJson text)
  else ret None.

(** The [try] block of [tryPublicFetchOrCached]. *)
Definition publicAttempt (url filepath : string) (parse : bool) : M (option json) :=
  res <- fetchSuccess url ;;
  let buf := body res in
  console LWarn ["fetched and cached url:"; url] ;;;
  mkdir (Path.dirname filepath) ;;;
  writeFile filepath buf ;;;
  if parse then parseJson buf else ret None.

Definition isNotFoundStatus (err : Exn) : bool :=
  match err with
  | BadStatusCodeError s => (s =? 404)%Z
  | _ => false
  end.

Fixpoint publicLoop (attempts i : nat) (url filepath : string) (parse : bool)
         (existing : option string) : M (option json) :=
  match attempts with
  | O => spin
  | S n =>
      try_catch
        (publicAttempt url filepath parse)
        (fun err =>
           if isNotFoundStatus err then
             console LWarn ["url not found:"; url] ;;;
             ret None
           else
             console LError ["failed to cache " ++ url ++ ":"; show err] ;;;
             if found existing then
               console LLog ["reusing cached file"; str_of existing] ;;;
               readCached filepath parse
             else
               retryAfter i (publicLoop n (S i) url filepath parse existing))
  end.

Definition publicFilepath (url : string) : string :=
  Path.join [outdir cfg;
             Js.substring_from
               (String.length (if Js.startsWith url rootUrl then rootUrl else origin))
               url].

Definition tryPublicFetchOrCached (attempts : nat) (url : string) (parse : bool)
  : M (option json) :=
  if negb (Js.startsWith url origin) then throw (Error ("bad url: " ++ url))
  else
    let filepath := publicFilepath url in
    existing <- (if canReuseCache cfg
                 then findExistingCachedFile filepath None None
                 else ret None) ;;
    if found existing && negb (refresh cfg) then
      console LLog ["reusing cached file"; filepath] ;;;
      readCached filepath parse
    else
      publicLoop attempts 0 url filepath parse existing.

(** [Array.from({ length: n }, (_, k) => ...)]: the indices [0 .. n-1]. *)
Definition indices (n : nat) : list nat := seq 0 n.

(** The coordinates [downloadTiles] walks: for every [zoom] below
    [maxZoom], every [x] and [y] below [2 ^ zoom], flattened.  The callers
    pass 6 and 4; the arrays of [Array.from] exist up to a length of
    [2 ^ 32 - 1]. *)
Definition tileCoords (maxZoom : nat) : list (nat * nat * nat) :=
  flat_map (fun zoom =>
    flat_map (fun x =>
      map (fun y => (zoom, x, y)) (indices (2 ^ zoom)))
      (indices (2 ^ zoom)))
    (indices maxZoom).

(** The URLs [downloadTiles] passes to [tryPublicFetchOrCached], in the
    order of the calls. *)
Definition tileUrls (url : nat -> nat -> nat -> string) (maxZoom : nat) : list string :=
  map (fun '(zoom, x, y) => url zoom x y) (tileCoords maxZoom).

(** [await Promise.all(tasks)]: the tasks of the array run in array
    order; the first that throws ends the wait. *)
Fixpoint awaitAll {A} (tasks : list (M A)) : M (list A) :=
  match tasks with
  | [] => ret []
  | t :: rest => a <- t ;; r <- awaitAll rest ;; ret (a :: r)
  end.

Definition downloadTiles (attempts : nat) (url : nat -> nat -> nat -> string)
           (maxZoom : nat) : list (M (option json)) :=
  map (fun u => tryPublicFetchOrCached attempts u false) (tileUrls url maxZoom).

End Mirror.

(** ** JavaScript values read from the zone documents *)

(** A value is [None] for [undefined] and a JSON value otherwise. *)
Definition value : Type := option json.

Fixpoint json_toString (v : json) : string :=
  match v with
  | JNull => "null"
  | JBool true => "true"
  | JBool false => "false"
  | JNum r => r
  | JStr s => s
  | JArr items =>
      (fix join (l : list json) : string :=
         match l with
         | [] => ""
         | x :: t =>
             (match x with JNull => "" | _ => json_toString x end)
             ++ (match t with [] => "" | _ => "," ++ join t end)
         end) items
  | JObj _ => "[object Object]"
  end.

(** The text of a value in a template literal or a concatenation. *)
Definition toString (v : value) : string :=
  match v with
  | None => "undefined"
  | Some j => json_toString j
  end.

Definition truthy (v : value) : bool :=
  match v with
  | None => false
  | Some JNull => false
  | Some (JBool b) => b
  | Some (JNum r) => negb (String.eqb r "0")
  | Some (JStr s) => Js.truthy s
  | Some (JArr _) => true
  | Some (JObj _) => true
  end.

(** [v === n] for a number literal with text [n]. *)
Definition isNumber (n : string) (v : value) : bool :=
  match v with
  | Some (JNum r) => String.eqb r n
  | _ => false
  end.

(** [const { ... } = v]: the properties of [v] by name.  Destructuring
    [undefined] or [null] throws. *)
Definition destructure (v : value) : M (string -> value) :=
  match v with
  | None => throw (TypeError "Cannot destructure 'undefined'")
  | Some JNull => throw (TypeError "Cannot destructure 'null'")
  | Some (JObj fields) => ret (fun k => assoc k fields)
  | Some _ => ret (fun _ => None)
  end.

(** The receiver of [.map] and [.flatMap] must be an array. *)
Definition asArray (v : value) : M (list json) :=
  match v with
  | Some (JArr items) => ret items
  | None => throw (TypeError "Cannot read properties of undefined")
  | Some JNull => throw (TypeError "Cannot read properties of null")
  | Some _ => throw (TypeError "is not a function")
  end.

(** ** The program *)

(** The permissions the process holds: network, write access to the
    output directory, read access as queried and as granted on request. *)
Record Permissions : Type := mkPermissions
  { net : bool; write : bool; readQuery : bool; readRequest : bool }.

Section Program.

Variable host : Host.
Variable cfg : Config.
Variable attempts : nat.

Definition fetchPublic (url : string) (parse : bool) : M value :=
  tryPublicFetchOrCached host cfg attempts url parse.

Fixpoint forEach {A} (f : A -> M unit) (xs : list A) : M unit :=
  match xs with
  | [] => ret tt
  | x :: t => f x ;;; forEach f t
  end.

(** The loop over the style sheet links of the document head. *)
Fixpoint rewriteLinks (links : list (Node host)) (doc : Doc host) : M (Doc host) :=
  match links with
  | [] => ret doc
  | link :: rest =>
      if String.eqb (node_type host doc link) "tag" then
        match attrib host doc link "href" with
        | None => throw (TypeError "Cannot read properties of undefined")
        | Some h =>
            if negb (Js.includes h "fonts.googleapis.com") then
              p <- cacheResourceFile host cfg attempts h "static/css"
                     (Some (embedCssUrls host)) ;;
              rewriteLinks rest (set_attrib host doc link "href" p)
            else rewriteLinks rest doc
        end
      else rewriteLinks rest doc
  end.

(** The loop over the scripts of the document head. *)
Fixpoint rewriteScripts (scripts : list (Node host)) (doc : Doc host) : M (Doc host) :=
  match scripts with
  | [] => ret doc
  | script :: rest =>
      if String.eqb (node_type host doc script) "script"
         && found (attrib host doc script "src") then
        let src := str_of (attrib host doc script "src") in
        if Js.startsWith src "/cdn-cgi/" then
          rewriteScripts rest (remove host doc script)
        else
          p <- cacheResourceFile host cfg attempts src "static/js"
                 (if Js.includes src "map.js"
                  then Some replaceJsPapunikaUrls else None) ;;
          rewriteScripts rest (set_attrib host doc script "src" p)
      else rewriteScripts rest doc
  end.

Definition overworldTileUrl (zoom x y : nat) : string :=
  "https://papunika.com/map/public/tiles/overworld/"
  ++ Js.nat_toString zoom ++ "_" ++ Js.nat_toString x ++ "_" ++ Js.nat_toString y
  ++ ".jpg".

Definition zoneTileUrl (id : string) (zoom x y : nat) : string :=
  rootUrl ++ "/public/tiles/zones/" ++ id ++ "/"
  ++ Js.nat_toString zoom ++ "_" ++ Js.nat_toString x ++ "_" ++ Js.nat_toString y
  ++ ".png".

(** [if (shouldDownloadTiles) { await Promise.all(downloadTiles(..., 6)) }] *)
Definition overworldTiles : list (M value) :=
  if shouldDownloadTiles cfg
  then downloadTiles host cfg attempts overworldTileUrl 6
  else [].

(** [...(shouldDownloadTiles ? downloadTiles(..., 4) : [])] for one zone *)
Definition zoneTiles (id : string) : list (M value) :=
  if shouldDownloadTiles cfg
  then downloadTiles host cfg attempts (zoneTileUrl id) 4
  else [].

Definition assetsPhase : M unit :=
  if shouldDownloadAssets cfg then
    forEach (fun asset =>
               fetchPublic (rootUrl ++ "/assets/" ++ asset ++ ".png") false ;;; ret tt)
            assets
  else ret tt.

(** The callback of [zones.map]: the document of one zone. *)
Definition zoneDocument (zone : json) : M value :=
  props <- destructure (Some zone) ;;
  fetchPublic (rootUrl ++ "/data/zones/us/" ++ toString (props "id") ++ ".json") true.

(** The innermost callback: the media of one marker datum. *)
Definition markerMedia (datum : json) : M unit :=
  props <- destructure (Some datum) ;;
  let popupMedia := props "popupMedia" in
  let rapportId := props "rapportId" in
  (if truthy popupMedia then
     match popupMedia with
     | Some (JStr s) =>
         if negb (Js.startsWith s "http")
         then fetchPublic (rootUrl ++ s) false ;;; ret tt
         else ret tt
     | _ => throw (TypeError "popupMedia.startsWith is not a function")
     end
   else ret tt) ;;;
  (if truthy rapportId then
     fetchPublic (origin ++ "/assets/Rapport/rapport_npc_" ++ toString rapportId ++ ".png")
                 false ;;; ret tt
   else ret tt).

Definition markerGroup (marker : json) : M unit :=
  props <- destructure (Some marker) ;;
  data <- asArray (props "data") ;;
  forEach markerMedia data.

Definition documentMedia (doc : value) : M unit :=
  props <- destructure doc ;;
  markers <- asArray (props "markers") ;;
  forEach markerGroup markers.

(** The callback of [zones.flatMap]: icon, island image and tiles of one
    zone. *)
Definition zoneAssets (zone : json) : M unit :=
  props <- destructure (Some zone) ;;
  let id := toString (props "id") in
  let markerType := props "markerType" in
  (if shouldDownloadZoneIcons cfg && isNumber "1" markerType
   then fetchPublic (rootUrl ++ "/assets/zones/" ++ id ++ ".png") false ;;; ret tt
   else ret tt) ;;;
  (if isNumber "2" markerType || isNumber "3" markerType
   then fetchPublic (origin ++ "/assets/Island/island_" ++ id ++ ".png") false ;;; ret tt
   else ret tt) ;;;
  awaitAll (zoneTiles id) ;;;
  ret tt.

(** The body of [if (shouldDownloadZones) { ... }]. *)
Definition zonesBody (zones : value) : M unit :=
  first <- fetchPublic (rootUrl ++ "/data/zones/us/00000.json") true ;;
  zs <- asArray zones ;;
  others <- awaitAll (map zoneDocument zs) ;;
  forEach documentMedia (first :: others) ;;;
  forEach zoneAssets zs.

Definition zonesPhase (zones : value) : M unit :=
  if shouldDownloadZones cfg then zonesBody zones else ret tt.

(** The module body after the configuration is known. *)
Definition mirror : M unit :=
  page <- fetchRootPage attempts ;;
  let doc := cheerio_load host page in
  doc1 <- rewriteLinks
            (select host doc ("head link[rel=" ++ dquote ++ "stylesheet" ++ dquote ++ "]"))
            doc ;;
  doc2 <- rewriteScripts (select host doc1 "head script") doc1 ;;
  writeFile (Path.join [outdir cfg; "index.html"]) (html host doc2) ;;;
  awaitAll overworldTiles ;;;
  assetsPhase ;;;
  w <- fetchPublic world true ;;
  props <- destructure w ;;
  zonesPhase (props "zones").

End Program.

(** The whole module: the permission checks, the configuration, the run. *)
Definition main (host : Host) (perms : Permissions) (args : list string)
           (attempts : nat) : M unit :=
  if negb (net perms) then throw (Error "--allow-net is required")
  else if negb (write perms) then throw (Error "--allow-write is required")
  else
    (if readQuery perms then ret tt
     else console LLog ["allow read to reuse cached files"]) ;;;
    mirror host (configure args (readQuery perms || readRequest perms)) attempts.

(** ** A host and worlds for the examples *)

Module Demo.

(** Plain absolute URLs [scheme://authority/path]: the path name runs
    from the first slash after the authority to the query or fragment. *)
Fixpoint upTo (stop : ascii -> bool) (s : string) : string :=
  match s with
  | EmptyString => EmptyString
  | String c t => if stop c then EmptyString else String c (upTo stop t)
  end.

Fixpoint from (stop : ascii -> bool) (s : string) : string :=
  match s with
  | EmptyString => EmptyString
  | String c t => if stop c then s else from stop t
  end.

Definition isSlash (c : ascii) : bool := Ascii.eqb c "/".
Definition isQueryOrFragment (c : ascii) : bool := Ascii.eqb c "?" || Ascii.eqb c "#".

Definition absolute (s : string) : option Url :=
  match String.index 0 "://" s with
  | Some i =>
      let afterScheme := Js.drop (i + 3) s in
      let p := upTo isQueryOrFragment (from isSlash afterScheme) in
      Some (mkUrl s (if Js.truthy p then p else "/"))
  | None => None
  end.

(** The part of an absolute URL before its path, and its directory. *)
Definition originOf (s : string) : string :=
  match String.index 0 "://" s with
  | Some i => Js.take (i + 3) s ++ upTo isSlash (Js.drop (i + 3) s)
  | None => s
  end.

Definition directoryOf (s : string) : string :=
  Js.take (Z.to_nat (Path.lastIndexOfSlash s) + 1) s.

Definition parseUrl (url : string) (base : option string) : option Url :=
  match absolute url, base with
  | Some u, _ => Some u
  | None, Some b =>
      match absolute b with
      | Some _ =>
          if Js.startsWith url "/" then absolute (originOf b ++ url)
          else absolute (directoryOf b ++ url)
      | None => None
      end
  | None, None => None
  end.

Definition parseJson (text : string) : option json :=
  if String.eqb text "{}" then Some (JObj [])
  else if String.eqb text "[]" then Some (JArr [])
  else if String.eqb text "null" then Some JNull
  else None.

(** Documents whose head holds no style sheet and no script. *)
Definition host : Host :=
  {| URL := parseUrl;
     JSON_parse := parseJson;
     Doc := string;
     Node := unit;
     cheerio_load := fun text => text;
     select := fun _ _ => [];
     node_type := fun _ _ => "tag";
     attrib := fun _ _ _ => None;
     set_attrib := fun d _ _ _ => d;
     remove := fun d _ => d;
     html := fun d => d |}.

Definition page : string := "<html><head></head><body>map</body></html>".

(** An upstream that never changes. *)
Definition site (_ : nat) (url : string) : FetchOutcome :=
  if String.eqb url rootUrl then Responds (mkResponse 200 (Some "text/html") page)
  else if String.eqb url world then Responds (mkResponse 200 (Some "application/json") "{}")
  else if String.eqb url "https://papunika.com/map/foo.png"
  then Responds (mkResponse 200 (Some "image/png") "PNG")
  else if String.eqb url "https://papunika.com/map/busy.css"
  then Responds (mkResponse 503 None "")
  else Responds (mkResponse 404 None "").

Definition noFaults (_ : nat) : option Fault := None.

(** An output directory that exists and is empty. *)
Definition emptyMirror : FileSystem := mkFs [(".", ["mirror"]); ("mirror", [])] [].

Definition start (files : FileSystem) (up : nat -> string -> FetchOutcome) : World :=
  mkWorld files up noFaults 0 0 [].

Definition fingerprint : string := "0123456789abcdef0123456789abcdef".

(** An output directory with a cached style sheet and a cached
    [foo-<fingerprint>.bar]. *)
Definition cssDir : string := "mirror/static/css".
Definition cachedCss : string := "foo-" ++ fingerprint ++ ".css".
Definition cachedBar : string := "foo-" ++ fingerprint ++ ".bar".
Definition cachedMirror : FileSystem :=
  mkFs [(".", ["mirror"]); ("mirror", ["static"]); ("mirror/static", ["css"]);
        (cssDir, [cachedCss; cachedBar])]
       [(cssDir ++ "/" ++ cachedCss, "a{}"); (cssDir ++ "/" ++ cachedBar, "")].

Definition allGranted : Permissions := mkPermissions true true true true.

(** Bytes from their hexadecimal text. *)
Definition hexValue (c : ascii) : nat :=
  let n := nat_of_ascii c in
  if (n <? 58)%nat then (n - 48)%nat else (n - 87)%nat.

Fixpoint unhex (s : string) : string :=
  match s with
  | String a (String b t) =>
      String (ascii_of_nat (16 * hexValue a + hexValue b)) (unhex t)
  | _ => EmptyString
  end.

(** Two 128-byte messages with one MD5 digest (Wang and Yu, 2005). *)
Definition collisionA : string :=
  unhex ("d131dd02c5e6eec4693d9a0698aff95c2fcab58712467eab4004583eb8fb7f89"
      ++ "55ad340609f4b30283e488832571415a085125e8f7cdc99fd91dbdf280373c5b"
      ++ "d8823e3156348f5bae6dacd436c919c6dd53e2b487da03fd02396306d248cda0"
      ++ "e99f33420f577ee8ce54b67080a80d1ec69821bcb6a8839396f9652b6ff72a70").
Definition collisionB : string :=
  unhex ("d131dd02c5e6eec4693d9a0698aff95c2fcab50712467eab4004583eb8fb7f89"
      ++ "55ad340609f4b30283e4888325f1415a085125e8f7cdc99fd91dbd7280373c5b"
      ++ "d8823e3156348f5bae6dacd436c919c6dd53e23487da03fd02396306d248cda0"
      ++ "e99f33420f577ee8ce54b67080280d1ec69821bcb6a8839396f965ab6ff72a70").

Definition serving (contents : string) (_ : nat) (_ : string) : FetchOutcome :=
  Responds (mkResponse 200 (Some "text/css") contents).

(** A run with [--refresh] over an output directory that holds a copy of
    a style sheet the upstream answers with status 503. *)
Definition busyUrl : string := "https://papunika.com/map/busy.css".
Definition staleCss : string := "busy-" ++ fingerprint ++ ".css".
Definition staleMirror : FileSystem :=
  mkFs [(".", ["mirror"]); ("mirror", ["static"]); ("mirror/static", ["css"]);
        (cssDir, [staleCss])]
       [(cssDir ++ "/" ++ staleCss, "a{}")].
Definition refreshing : Config := configure ["--refresh"] true.
Definition staleWorld : World := start staleMirror site.

(** A style sheet at [sheetUrl] whose reference is written with quotes,
    and one with the bare reference. *)
Definition sheetUrl : string := "https://papunika.com/map/style.css".
Definition quotedCss : string :=
  "a{background:url(" ++ dquote ++ "foo.png" ++ dquote ++ ")}".
Definition plainCss : string := "a{background:url(foo.png)}".

(** Two runs in a row of the whole program over one upstream: the second
    starts from the files the first has left. *)
Definition firstStart : World := start emptyMirror site.

End Demo.

(** ** Definitions of the statements *)


(** The worlds after a console call, a sleep and a request. *)
Definition logged (l : Level) (args : list string) (w : World) : World :=
  mkWorld (fs w) (upstream w) (faults w) (requests w) (fsops w)
          (EvConsole l args :: trace w).

Definition slept (ms : Z) (w : World) : World :=
  mkWorld (fs w) (upstream w) (faults w) (requests w) (fsops w)
          (EvSleep ms :: trace w).

Definition fetched (url : string) (w : World) : World :=
  mkWorld (fs w) (upstream w) (faults w) (S (requests w)) (fsops w)
          (EvFetch url :: trace w).

(** The world after a call of [Deno.readDir]. *)
Definition afterReadDir (dir : string) (w : World) : World :=
  mkWorld (fs w) (upstream w) (faults w) (requests w) (S (fsops w))
          (EvReadDir dir :: trace w).

(** The world after the [catch] block of the cache index. *)
Definition afterLookupFailed (err : Exn) (w : World) : World :=
  if negb (String.eqb (exn_name err) "NotFound")
     && negb (String.eqb (exn_name err) "PermissionDenied")
  then mkWorld (fs w) (upstream w) (faults w) (requests w) (fsops w)
               (EvConsole LWarn [show err] :: trace w)
  else w.

(** What [Deno.readDir] yields in a world. *)
Definition listing (dir : string) (w : World) : DirStream :=
  match assoc dir (fs_dirs (fs w)), faults w (fsops w) with
  | None, _ => ([], Some (DenoError "NotFound"))
  | Some entries, Some f => (firstn (f_after f) entries, Some (DenoError (f_name f)))
  | Some entries, None => (entries, None)
  end.

(** A computation [Emits P] when, from every world, it only adds events
    that satisfy [P] to the trace and never lowers the request count. *)
Definition Emits {A} (P : Event -> Prop) (m : M A) : Prop :=
  forall w, exists evs,
    trace (snd (m w)) = (evs ++ trace w)%list
    /\ Forall P evs
    /\ requests w <= requests (snd (m w)).

(** Events that are no call of [Deno.writeFile]. *)
Definition notWrite (ev : Event) : Prop :=
  match ev with
  | EvWriteFile _ _ => False
  | _ => True
  end.

Definition anyEvent (_ : Event) : Prop := True.

(** A predicate on events is [Benign] when it holds of every event that
    is no call of [Deno.writeFile]. *)
Definition Benign (P : Event -> Prop) : Prop := forall ev, notWrite ev -> P ev.

(** The file name [cacheResourceFile] builds for [contents]. *)
Definition fingerprinted (filename extname contents : string) : string :=
  filename ++ "-" ++ Md5.hex contents ++ extname.

(** Calls of [Deno.writeFile] whose path is the fingerprinted name of the
    content they write, in [writedir]. *)
Definition namedByContent (writedir filename extname : string) (ev : Event) : Prop :=
  match ev with
  | EvWriteFile path contents =>
      path = Path.join [writedir; fingerprinted filename extname contents]
  | _ => True
  end.

(** The optional transform of [cacheResourceFile] applied to a body. *)
Definition transform (mutate : option (string -> string -> M string))
           (url contents : string) : M string :=
  match mutate with
  | Some f => f url contents
  | None => ret contents
  end.


(** Two computations that do the same from every world. *)
Definition same {A} (m1 m2 : M A) : Prop := forall w, m1 w = m2 w.

(** A string without a slash: a single path segment. *)
Definition slashFree (s : string) : Prop :=
  forall i, Path.isSlash (Path.charAt s i) = false.

(** The delays of the [sleep] calls of a trace, newest first. *)
Fixpoint sleeps (evs : list Event) : list Z :=
  match evs with
  | [] => []
  | EvSleep ms :: t => ms :: sleeps t
  | _ :: t => sleeps t
  end.

(** An answer that makes [fetchSuccess] throw: a rejected [fetch] or a
    status outside 200..299. *)
Definition refused (o : FetchOutcome) : bool :=
  match o with
  | Responds r => negb (ok r)
  | NetworkFails => true
  end.

(** The upstream of the examples behind a connection that fails for the
    first [k] requests. *)
Definition flaky (k : nat) (n : nat) (url : string) : FetchOutcome :=
  if (n <? k)%nat then NetworkFails else Demo.site n url.

(** An output tree that holds [mirror/busy.css], which the upstream of
    the examples answers with status 503. *)
Definition staleTree : FileSystem :=
  mkFs [(".", ["mirror"]); ("mirror", ["busy.css"])] [("mirror/busy.css", "a{}")].

(** The references of a style sheet that [embedCssUrls] fetches: the
    distinct captures of the url pattern that do not start with [#]. *)
Definition references (s : string) : list string :=
  filter (fun r => negb (Js.startsWith r "#")) (dedup [] (Re.urlCaptures 0 s)).

(** The five arguments that switch a part of the run. *)
Definition isToggle (a : string) : bool :=
  Js.arr_includes ["--no-tiles"; "--no-assets"; "--no-zones"; "--no-zone-icons";
                   "--refresh"] a.



(** Every character of a string passes a test. *)
Fixpoint every (P : ascii -> bool) (s : string) : bool :=
  match s with
  | EmptyString => true
  | String c t => P c && every P t
  end.

Definition notSlash (c : ascii) : bool := negb (Ascii.eqb c "/").
Definition notAt (c : ascii) : bool := negb (Ascii.eqb c "@").
Definition notLineTerminator (c : ascii) : bool := negb (Re.isLineTerminator c).

(** The events a call of [tryPublicFetchOrCached] for [url] with the
    mirrored path [filepath] may add to the trace. *)
Definition publicFootprint (url filepath : string) (ev : Event) : Prop :=
  match ev with
  | EvFetch u => u = url
  | EvSleep ms => exists i, ms = backoff i
  | EvConsole _ _ => True
  | EvReadDir dir => dir = Path.dirname filepath
  | EvReadFile path => path = filepath
  | EvMkdir dir => dir = Path.dirname filepath
  | EvWriteFile path _ => path = filepath
  end.

(** Events that read nothing from the file system. *)
Definition notRead (ev : Event) : Prop :=
  match ev with
  | EvReadDir _ | EvReadFile _ => False
  | _ => True
  end.

(** The permissions of a run that may write and fetch but not read. *)
Definition readDenied : Permissions := mkPermissions true true false false.

(** An output tree that holds a file named like a fingerprinted copy of
    [doc.json], and no [doc.json]. *)
Definition siblingTree : FileSystem :=
  mkFs [(".", ["mirror"]); ("mirror", ["doc-" ++ Demo.fingerprint ++ ".json"])]
       [("mirror/doc-" ++ Demo.fingerprint ++ ".json", "{}")].

(** A host whose documents hold only links to Google Fonts. *)
Definition fontsHost : Host :=
  @mkHost Demo.parseUrl Demo.parseJson string unit
          (fun text => text)
          (fun _ _ => [tt])
          (fun _ _ => "tag")
          (fun _ _ _ => Some "https://fonts.googleapis.com/css?family=Roboto")
          (fun d _ _ _ => d)
          (fun d _ => d)
          (fun d => d).

(** A computation [Raises Q] when every error it ends with satisfies
    [Q]. *)
Definition Raises {A} (Q : Exn -> Prop) (m : M A) : Prop :=
  forall w e, fst (m w) = Throw e -> Q e.

(** The errors of the platform: a [TypeError], a [SyntaxError] or an
    error of the Deno file API. *)
Definition platformError (e : Exn) : Prop :=
  match e with
  | TypeError _ | SyntaxError _ | DenoError _ => True
  | BadStatusCodeError _ | Error _ => False
  end.

(** The errors a whole run may end with: those of the platform and the
    two of the permission checks. *)
Definition runError (e : Exn) : Prop :=
  match e with
  | BadStatusCodeError _ => False
  | Error msg => msg = "--allow-net is required" \/ msg = "--allow-write is required"
  | _ => True
  end.

(** * Properties *)

(** ** The library models on known values *)

(** The test suite of RFC 1321. *)
Example md5_rfc1321 :
  map Md5.hex [""; "a"; "abc"; "message digest"; "abcdefghijklmnopqrstuvwxyz"]
  = [ "d41d8cd98f00b204e9800998ecf8427e";
      "0cc175b9c0f1b6a831c399e269772661";
      "900150983cd24fb0d6963f7d28e17f72";
      "f96b697d7cb7938d525a2f31aaf161d0";
      "c3fcd3d76192e4007dfb496cca67e13b" ].
Proof. vm_compute. reflexivity. Qed.

(** The test vectors of RFC 4648. *)
Example base64_rfc4648 :
  map B64.encode [""; "f"; "fo"; "foo"; "foob"; "fooba"; "foobar"]
  = [""; "Zg=="; "Zm8="; "Zm9v"; "Zm9vYg=="; "Zm9vYmE="; "Zm9vYmFy"].
Proof. reflexivity. Qed.

Example basename_examples :
  map (fun p => Path.basename (fst p) (snd p))
      [ ("/foo/bar/baz/asdf/quux.html", ""); ("/foo/bar/baz/asdf/quux.html", ".html");
        ("/a/b/", ""); ("/", ""); ("a/.css", ".css"); ("jquery", "") ]
  = ["quux.html"; "quux"; "b"; ""; ".css"; "jquery"].
Proof. reflexivity. Qed.

Example extname_examples :
  map Path.extname ["index.html"; "index.coffee.md"; "index."; "index"; ".index"; ".."]
  = [".html"; ".md"; "."; ""; ""; ""].
Proof. reflexivity. Qed.

Example dirname_examples :
  map Path.dirname ["/foo/bar/baz/asdf/quux"; "mirror/index.html"; "mirror"; "/"; ""]
  = ["/foo/bar/baz/asdf"; "mirror"; "."; "/"; "."].
Proof. reflexivity. Qed.

Example join_examples :
  map Path.join [ ["/foo"; "bar"; "baz/asdf"; "quux"; ".."]; ["mirror"; "static/css"];
                  ["mirror"; "/data/zones/us/overworld.json"]; ["a"; "../../b"]; [""; ""] ]
  = ["/foo/bar/baz/asdf"; "mirror/static/css"; "mirror/data/zones/us/overworld.json";
     "../b"; "."].
Proof. reflexivity. Qed.

Example sanitize_examples :
  map sanitize [ "/map/static/js/map.min.js"; "/ajax/libs/jquery-3.6.0.min.js";
                 "/npm/leaflet@1.7.1/dist/leaflet.css"; "/map/style.css" ]
  = ["map.js"; "jquery.js"; "leaflet.css"; "style.css"].
Proof. reflexivity. Qed.

Example urlCaptures_examples :
  Re.urlCaptures 0 "a{b:url(x.png)} c{d:url('y.gif')} e{f:url(data:image/png;base64,AA)} g{h:url(#i)} j{k:url(x.png)}"
  = ["x.png"; "y.gif"; "#i"; "x.png"].
Proof. reflexivity. Qed.

(** The delays of the retry loops: 250 ms, doubled at every retry. *)
Lemma backoff_doubles (i : nat) :
  backoff 0 = 250%Z /\ backoff (S i) = (2 * backoff i)%Z /\ (backoff i <= backoff (S i))%Z.
Proof.
  unfold backoff. rewrite Nat2Z.inj_succ, Z.pow_succ_r by lia.
  assert (0 < 2 ^ Z.of_nat i)%Z by (apply Z.pow_pos_nonneg; lia).
  repeat split; lia.
Qed.

(** ** Strings *)

Lemma prefix_iff (p s : string) :
  String.prefix p s = true <-> exists rest, s = p ++ rest.
Proof.
  revert s; induction p as [|c p IH]; intros s.
  - split; [intros _; exists s; reflexivity | intros _; now destruct s].
  - destruct s as [|d s]; simpl.
    + split; [discriminate | intros [rest H]; discriminate].
    + destruct (ascii_dec c d) as [->|Hcd].
      * rewrite IH. split; intros [rest H]; exists rest.
        -- now rewrite H.
        -- now inversion H.
      * split; [discriminate | intros [rest H]; inversion H; congruence].
Qed.


Lemma drop_app (a b : string) : Js.drop (String.length a) (a ++ b) = b.
Proof. induction a; simpl; auto. Qed.

Lemma take_drop (n : nat) (s : string) : Js.take n s ++ Js.drop n s = s.
Proof.
  revert s; induction n; intros s; simpl.
  - now destruct s.
  - destruct s; simpl; [reflexivity | now rewrite IHn].
Qed.

Lemma length_take (n : nat) (s : string) :
  n <= String.length s -> String.length (Js.take n s) = n.
Proof.
  revert s; induction n; intros s H; simpl; [reflexivity|].
  destruct s; simpl in *; [lia | rewrite IHn; lia].
Qed.


Lemma truthy_nonempty (s : string) : Js.truthy s = true <-> s <> "".
Proof.
  unfold Js.truthy. rewrite negb_true_iff. split.
  - intros H ->. discriminate.
  - intros H. apply String.eqb_neq. exact H.
Qed.

(** ** The cache index *)











Lemma scanDir_result (name ext : string) (entries : list string)
      (failure : option Exn) (w : World) :
  scanDir name ext entries failure w
  = match find (cacheNameMatches name ext) entries, failure with
    | Some f, _ => (Ok (Some f), w)
    | None, Some err => (Throw err, w)
    | None, None => (Ok None, w)
    end.
Proof.
  induction entries as [|f rest IH]; simpl.
  - now destruct failure.
  - destruct (cacheNameMatches name ext f); [reflexivity | exact IH].
Qed.


Lemma lookupFailed_result (err : Exn) (w : World) :
  lookupFailed err w = (Ok None, afterLookupFailed err w).
Proof.
  unfold lookupFailed, afterLookupFailed, bind.
  destruct (negb (String.eqb (exn_name err) "NotFound")
            && negb (String.eqb (exn_name err) "PermissionDenied")); reflexivity.
Qed.


Lemma readDir_result (dir : string) (w : World) :
  readDir dir w = (Ok (listing dir w), afterReadDir dir w).
Proof.
  unfold readDir, listing, afterReadDir.
  destruct (assoc dir (fs_dirs (fs w))); [destruct (faults w (fsops w))|]; reflexivity.
Qed.

(** The cache index as one equation: the first matching entry, or nothing
    when the enumeration ends or fails before one is found. *)
Lemma findExistingCachedFile_result (dir : string) (name ext : option string)
      (w : World) (d n e : string) :
  resolveLookup dir name ext = (d, n, e) ->
  findExistingCachedFile dir name ext w
  = match find (cacheNameMatches n e) (fst (listing d w)), snd (listing d w) with
    | Some f, _ => (Ok (Some f), afterReadDir d w)
    | None, Some err => (Ok None, afterLookupFailed err (afterReadDir d w))
    | None, None => (Ok None, afterReadDir d w)
    end.
Proof.
  intros Hr. unfold findExistingCachedFile. rewrite Hr.
  unfold try_catch, bind. rewrite readDir_result, scanDir_result.
  destruct (find _ _); [reflexivity|].
  destruct (snd (listing d w)); [apply lookupFailed_result | reflexivity].
Qed.

Lemma afterLookupFailed_same (err : Exn) (w : World) :
  fs (afterLookupFailed err w) = fs w
  /\ requests (afterLookupFailed err w) = requests w
  /\ upstream (afterLookupFailed err w) = upstream w.
Proof. unfold afterLookupFailed. now destruct (_ && _). Qed.

(** C8.  [findExistingCachedFile] never raises: from every world and for
    all arguments it returns.  It changes neither the output tree nor the
    request count.  When the directory is missing it returns nothing and
    logs nothing.  When the enumeration fails with another error before a
    matching entry is reached it returns nothing too, after a warning,
    unless the error is [NotFound] or [PermissionDenied], which are
    silent. *)
Theorem findExistingCachedFile_never_raises :
  forall (dir : string) (name ext : option string) (w : World) (d n e : string),
    resolveLookup dir name ext = (d, n, e) ->
    exists r w',
      findExistingCachedFile dir name ext w = (Ok r, w')
      /\ fs w' = fs w /\ requests w' = requests w
      /\ (assoc d (fs_dirs (fs w)) = None ->
          r = None /\ trace w' = EvReadDir d :: trace w)
      /\ (forall entries f,
            assoc d (fs_dirs (fs w)) = Some entries ->
            faults w (fsops w) = Some f ->
            find (cacheNameMatches n e) (firstn (f_after f) entries) = None ->
            r = None
            /\ (f_name f <> "NotFound" -> f_name f <> "PermissionDenied" ->
                trace w' = EvConsole LWarn [show (DenoError (f_name f))]
                             :: EvReadDir d :: trace w)
            /\ (f_name f = "NotFound" \/ f_name f = "PermissionDenied" ->
                trace w' = EvReadDir d :: trace w)).
Proof.
  intros dir name ext w d n e Hr.
  rewrite (findExistingCachedFile_result _ _ _ w Hr).
  unfold listing.
  destruct (assoc d (fs_dirs (fs w))) as [entries|] eqn:Hd.
  - destruct (faults w (fsops w)) as [f|] eqn:Hf; simpl.
    + destruct (find _ (firstn _ _)) as [g|] eqn:Hfind.
      * exists (Some g), (afterReadDir d w).
        split; [reflexivity|]. split; [reflexivity|]. split; [reflexivity|].
        split; [discriminate|].
        intros entries' f' [= <-] [= <-] Hnone.
        rewrite Hnone in Hfind. discriminate.
      * exists None, (afterLookupFailed (DenoError (f_name f)) (afterReadDir d w)).
        split; [reflexivity|].
        destruct (afterLookupFailed_same (DenoError (f_name f)) (afterReadDir d w))
          as (Hfs & Hreq & _).
        split; [exact Hfs|]. split; [exact Hreq|].
        split; [discriminate|].
        intros entries' f' [= <-] [= <-] _. split; [reflexivity|].
        unfold afterLookupFailed; simpl. split.
        -- intros H1 H2. apply String.eqb_neq in H1, H2. now rewrite H1, H2.
        -- intros [H|H]; rewrite H; reflexivity.
    + destruct (find _ entries) as [g|].
      * exists (Some g), (afterReadDir d w).
        split; [reflexivity|]. split; [reflexivity|]. split; [reflexivity|].
        split; discriminate.
      * exists None, (afterReadDir d w).
        split; [reflexivity|]. split; [reflexivity|]. split; [reflexivity|].
        split; discriminate.
  - simpl. exists None, (afterReadDir d w).
    split; [reflexivity|]. split; [reflexivity|]. split; [reflexivity|].
    split; [intros _; split; reflexivity | discriminate].
Qed.

(** The lookup in an output directory that has no [static/css] yet. *)
Lemma findExistingCachedFile_never_raises_witness :
  resolveLookup Demo.cssDir (Some "foo") (Some ".css") = (Demo.cssDir, "foo", ".css")
  /\ exists r w',
       findExistingCachedFile Demo.cssDir (Some "foo") (Some ".css")
         (Demo.start Demo.emptyMirror Demo.site) = (Ok r, w')
       /\ r = None
       /\ trace w' = [EvReadDir Demo.cssDir].
Proof.
  split; [reflexivity|].
  destruct (@findExistingCachedFile_never_raises Demo.cssDir (Some "foo") (Some ".css")
              (Demo.start Demo.emptyMirror Demo.site) Demo.cssDir "foo" ".css" eq_refl)
    as (r & w' & Hrun & _ & _ & Hmissing & _).
  exists r, w'. split; [exact Hrun|]. exact (Hmissing eq_refl).
Defined.

(** ** The URL guard of [tryPublicFetchOrCached] *)

(** C9.  For a URL that does not start with [origin],
    [tryPublicFetchOrCached] throws [bad url: <url>] and leaves the world
    as it was: no request, no file-system call, no log line, whatever the
    configuration and the [parse] flag.  [fetchPublic], through which the
    assets, the zone documents, the marker media and the tiles go, is the
    same function. *)
Theorem tryPublicFetchOrCached_bad_url :
  forall (host : Host) (cfg : Config) (attempts : nat) (url : string)
         (parse : bool) (w : World),
    Js.startsWith url origin = false ->
    tryPublicFetchOrCached host cfg attempts url parse w
    = (Throw (Error ("bad url: " ++ url)), w)
    /\ fetchPublic host cfg attempts url parse w
       = (Throw (Error ("bad url: " ++ url)), w).
Proof.
  intros host cfg attempts url parse w H.
  unfold fetchPublic, tryPublicFetchOrCached. rewrite H. simpl. split; reflexivity.
Qed.

(** An asset URL on another host. *)
Lemma tryPublicFetchOrCached_bad_url_witness :
  Js.startsWith "https://example.com/map/assets/boss.png" origin = false
  /\ tryPublicFetchOrCached Demo.host (configure [] true) 3
       "https://example.com/map/assets/boss.png" false
       (Demo.start Demo.emptyMirror Demo.site)
     = (Throw (Error "bad url: https://example.com/map/assets/boss.png"),
        Demo.start Demo.emptyMirror Demo.site).
Proof.
  split; [reflexivity|].
  apply (@tryPublicFetchOrCached_bad_url Demo.host (configure [] true) 3
           "https://example.com/map/assets/boss.png" false
           (Demo.start Demo.emptyMirror Demo.site)).
  reflexivity.
Defined.

(** ** The tile pyramid *)

Lemma tileCoords_row_length (zoom : nat) :
  List.length
    (flat_map (fun x => map (fun y => (zoom, x, y)) (indices (2 ^ zoom)))
              (indices (2 ^ zoom)))
  = 4 ^ zoom.
Proof.
  assert (H : forall n l,
             List.length (flat_map (fun x : nat => map (fun y => (zoom, x, y)) (indices n)) l)
             = List.length l * n).
  { intros n l. induction l as [|a l IH]; simpl; [reflexivity|].
    rewrite length_app, length_map, IH. unfold indices. rewrite length_seq. lia. }
  rewrite H. unfold indices. rewrite length_seq.
  replace 4 with (2 * 2) by reflexivity. now rewrite Nat.pow_mul_l.
Qed.

Lemma tileCoords_length (maxZoom : nat) :
  List.length (tileCoords maxZoom) = list_sum (map (fun z => 4 ^ z) (seq 0 maxZoom)).
Proof.
  unfold tileCoords, indices. generalize (seq 0 maxZoom) as zs.
  induction zs as [|z zs IH]; simpl; [reflexivity|].
  rewrite length_app, IH. f_equal. apply tileCoords_row_length.
Qed.

Lemma tileCoords_in (maxZoom zoom x y : nat) :
  In (zoom, x, y) (tileCoords maxZoom)
  <-> zoom < maxZoom /\ x < 2 ^ zoom /\ y < 2 ^ zoom.
Proof.
  unfold tileCoords, indices. rewrite in_flat_map. split.
  - intros (z & Hz & H). apply in_flat_map in H. destruct H as (x' & Hx & H).
    apply in_map_iff in H. destruct H as (y' & [= <- <- <-] & Hy).
    apply in_seq in Hz, Hx, Hy. lia.
  - intros (Hz & Hx & Hy). exists zoom. split; [apply in_seq; lia|].
    apply in_flat_map. exists x. split; [apply in_seq; lia|].
    apply in_map_iff. exists y. split; [reflexivity | apply in_seq; lia].
Qed.

(** C5.  [downloadTiles url maxZoom] calls [tryPublicFetchOrCached] once
    for each coordinate [(zoom, x, y)] with [zoom < maxZoom] and
    [x, y < 2 ^ zoom], on [url zoom x y]: every URL it generates comes
    from such a coordinate, every such coordinate is there, and their
    number is the sum of [4 ^ zoom] over the zoom levels, that is
    [(4 ^ maxZoom - 1) / 3]: five for [maxZoom = 2], one at zoom 0 and
    four at zoom 1. *)
Theorem downloadTiles_enumeration :
  forall (host : Host) (cfg : Config) (attempts : nat)
         (url : nat -> nat -> nat -> string) (maxZoom : nat),
    downloadTiles host cfg attempts url maxZoom
    = map (fun u => tryPublicFetchOrCached host cfg attempts u false)
          (map (fun '(zoom, x, y) => url zoom x y) (tileCoords maxZoom))
    /\ List.length (downloadTiles host cfg attempts url maxZoom)
       = list_sum (map (fun z => 4 ^ z) (seq 0 maxZoom))
    /\ 3 * List.length (tileUrls url maxZoom) + 1 = 4 ^ maxZoom
    /\ tileCoords 2 = [(0, 0, 0); (1, 0, 0); (1, 0, 1); (1, 1, 0); (1, 1, 1)]
    /\ List.length (tileUrls url 2) = 5
    /\ (forall u, In u (tileUrls url maxZoom) ->
          exists zoom x y,
            zoom < maxZoom /\ x < 2 ^ zoom /\ y < 2 ^ zoom /\ u = url zoom x y)
    /\ (forall zoom x y,
          zoom < maxZoom -> x < 2 ^ zoom -> y < 2 ^ zoom ->
          In (url zoom x y) (tileUrls url maxZoom)).
Proof.
  intros host cfg attempts url maxZoom.
  assert (Hlen : List.length (tileUrls url maxZoom)
                 = list_sum (map (fun z => 4 ^ z) (seq 0 maxZoom))).
  { unfold tileUrls. rewrite length_map. apply tileCoords_length. }
  split; [reflexivity|].
  split; [unfold downloadTiles; now rewrite length_map|].
  split.
  { rewrite Hlen. clear Hlen. induction maxZoom as [|n IH]; [reflexivity|].
    rewrite seq_S, map_app, list_sum_app. simpl. lia. }
  split; [reflexivity|]. split; [reflexivity|]. split.
  - intros u Hu. unfold tileUrls in Hu. apply in_map_iff in Hu.
    destruct Hu as ([[zoom x] y] & <- & Hin).
    apply tileCoords_in in Hin. exists zoom, x, y. intuition.
  - intros zoom x y Hz Hx Hy. unfold tileUrls. apply in_map_iff.
    exists (zoom, x, y). split; [reflexivity|]. apply tileCoords_in. auto.
Qed.

(** ** Running computations *)

Lemma console_result (l : Level) (args : list string) (w : World) :
  console l args w = (Ok tt, logged l args w).
Proof. reflexivity. Qed.

Lemma sleep_result (ms : Z) (w : World) : sleep ms w = (Ok tt, slept ms w).
Proof. reflexivity. Qed.

Lemma fetch_result (url : string) (w : World) :
  fetch url w
  = match upstream w (requests w) url with
    | Responds r => (Ok r, fetched url w)
    | NetworkFails => (Throw (TypeError "error sending request"), fetched url w)
    end.
Proof. reflexivity. Qed.

Lemma fetchSuccess_result (url : string) (w : World) :
  fetchSuccess url w
  = match upstream w (requests w) url with
    | Responds r =>
        if ok r then (Ok r, fetched url w)
        else (Throw (BadStatusCodeError (status r)), fetched url w)
    | NetworkFails => (Throw (TypeError "error sending request"), fetched url w)
    end.
Proof.
  unfold fetchSuccess, bind. rewrite fetch_result.
  destruct (upstream w (requests w) url) as [r|]; [|reflexivity].
  now destruct (ok r).
Qed.

Lemma found_some (e : string) : e <> "" -> found (Some e) = true.
Proof.
  intros H. unfold found, falsy. apply truthy_nonempty in H. now rewrite H.
Qed.

Lemma sanitizedBasename_result (host : Host) (url : string) (w : World) :
  sanitizedBasename host url w
  = match URL host url None with
    | Some u => (Ok (sanitize (pathname u)), w)
    | None => (Throw (TypeError "Invalid URL"), w)
    end.
Proof.
  unfold sanitizedBasename, urlPathname, bind.
  now destruct (URL host url None).
Qed.

(** ** Falling back to the stale copy *)

(** One turn of the loop of [cacheResourceFile] whose attempt fails while
    a cached copy is known returns the path of that copy. *)
Lemma cacheLoop_stale (n i : nat) (url prefix : string)
      (mutate : option (string -> string -> M string))
      (filename extname writedir e : string) (w w1 : World) (err : Exn) :
  e <> "" ->
  cacheAttempt url prefix mutate filename extname writedir w = (Throw err, w1) ->
  cacheLoop (S n) i url prefix mutate filename extname writedir (Some e) w
  = (Ok (Path.join [prefix; e]),
     logged LLog ["reusing cached resource"; Path.join [prefix; e]]
       (logged LError ["failed to cache " ++ url ++ ":"; show err] w1)).
Proof.
  intros He Hfail. simpl. unfold try_catch. rewrite Hfail.
  unfold bind. rewrite console_result, (found_some He). reflexivity.
Qed.

(** C3.  When the cache index has found a cached copy [e] and the fetch is
    made all the same (a refresh was asked for), any failure [err] of the
    attempt (the fetch, the transform, [mkdir] or [writeFile]) makes
    [cacheResourceFile] return the path of the stale copy: it logs the
    failure and the reuse and returns [path.join(prefix, e)], with no
    retry, no further request and no change of the output tree. *)
Theorem cacheResourceFile_falls_back_to_stale_copy :
  forall (host : Host) (cfg : Config) (n : nat) (url prefix : string)
         (mutate : option (string -> string -> M string))
         (u : Url) (e : string) (w w0 w1 : World) (err : Exn),
    let extname := Path.extname (sanitize (pathname u)) in
    let filename := Path.basename (sanitize (pathname u)) extname in
    let writedir := Path.join [outdir cfg; prefix] in
    URL host url None = Some u ->
    canReuseCache cfg = true ->
    refresh cfg = true ->
    findExistingCachedFile writedir (Some filename) (Some extname) w
    = (Ok (Some e), w0) ->
    e <> "" ->
    cacheAttempt url prefix mutate filename extname writedir w0 = (Throw err, w1) ->
    exists w',
      cacheResourceFile host cfg (S n) url prefix mutate w
      = (Ok (Path.join [prefix; e]), w')
      /\ w' = logged LLog ["reusing cached resource"; Path.join [prefix; e]]
                (logged LError ["failed to cache " ++ url ++ ":"; show err] w1)
      /\ requests w' = requests w1
      /\ fs w' = fs w1.
Proof.
  intros host cfg n url prefix mutate u e w w0 w1 err extname filename writedir
         Hurl Hreuse Hrefresh Hfound He Hfail.
  eexists. split; [|split; [reflexivity | split; reflexivity]].
  unfold cacheResourceFile, bind. rewrite sanitizedBasename_result, Hurl, Hreuse.
  fold extname filename writedir. rewrite Hfound, Hrefresh, andb_false_r.
  now apply cacheLoop_stale.
Qed.

(** A refresh of [busy.css], which is cached and now answers 503. *)
Lemma cacheResourceFile_falls_back_to_stale_copy_witness :
  URL Demo.host Demo.busyUrl None = Some (mkUrl Demo.busyUrl "/map/busy.css")
  /\ canReuseCache Demo.refreshing = true
  /\ refresh Demo.refreshing = true
  /\ findExistingCachedFile Demo.cssDir (Some "busy") (Some ".css") Demo.staleWorld
     = (Ok (Some Demo.staleCss), afterReadDir Demo.cssDir Demo.staleWorld)
  /\ Demo.staleCss <> ""
  /\ cacheAttempt Demo.busyUrl "static/css" None "busy" ".css" Demo.cssDir
       (afterReadDir Demo.cssDir Demo.staleWorld)
     = (Throw (BadStatusCodeError 503),
        fetched Demo.busyUrl (afterReadDir Demo.cssDir Demo.staleWorld))
  /\ fst (cacheResourceFile Demo.host Demo.refreshing 1 Demo.busyUrl "static/css" None
            Demo.staleWorld)
     = Ok ("static/css/" ++ Demo.staleCss).
Proof.
  assert (H1 : URL Demo.host Demo.busyUrl None
               = Some (mkUrl Demo.busyUrl "/map/busy.css")) by reflexivity.
  assert (H2 : canReuseCache Demo.refreshing = true) by reflexivity.
  assert (H3 : refresh Demo.refreshing = true) by reflexivity.
  assert (H4 : findExistingCachedFile Demo.cssDir (Some "busy") (Some ".css")
                 Demo.staleWorld
               = (Ok (Some Demo.staleCss), afterReadDir Demo.cssDir Demo.staleWorld))
    by reflexivity.
  assert (H5 : Demo.staleCss <> "") by discriminate.
  assert (H6 : cacheAttempt Demo.busyUrl "static/css" None "busy" ".css" Demo.cssDir
                 (afterReadDir Demo.cssDir Demo.staleWorld)
               = (Throw (BadStatusCodeError 503),
                  fetched Demo.busyUrl (afterReadDir Demo.cssDir Demo.staleWorld)))
    by reflexivity.
  repeat (split; [assumption|]).
  destruct (@cacheResourceFile_falls_back_to_stale_copy Demo.host Demo.refreshing 0
              Demo.busyUrl "static/css" None _ _ _ _ _ _ H1 H2 H3 H4 H5 H6)
    as (w' & Hrun & _).
  rewrite Hrun. reflexivity.
Defined.

(** ** Status 404 *)

Lemma fetchSuccess_not_found (url : string) (w : World) (r : Response) :
  upstream w (requests w) url = Responds r -> status r = 404%Z ->
  fetchSuccess url w = (Throw (BadStatusCodeError 404), fetched url w).
Proof.
  intros Hup Hs. rewrite fetchSuccess_result, Hup. unfold ok. rewrite Hs. reflexivity.
Qed.

Lemma publicLoop_not_found (host : Host) (n i : nat) (url filepath : string)
      (parse : bool) (existing : option string) (w : World) (r : Response) :
  upstream w (requests w) url = Responds r -> status r = 404%Z ->
  publicLoop host (S n) i url filepath parse existing w
  = (Ok None, logged LWarn ["url not found:"; url] (fetched url w)).
Proof.
  intros Hup Hs. simpl. unfold try_catch, publicAttempt, bind.
  rewrite (fetchSuccess_not_found _ _ Hup Hs). reflexivity.
Qed.

Lemma cacheAttempt_not_found (url prefix : string)
      (mutate : option (string -> string -> M string))
      (filename extname writedir : string) (w : World) (r : Response) :
  upstream w (requests w) url = Responds r -> status r = 404%Z ->
  cacheAttempt url prefix mutate filename extname writedir w
  = (Throw (BadStatusCodeError 404), fetched url w).
Proof.
  intros Hup Hs. unfold cacheAttempt, bind.
  rewrite (fetchSuccess_not_found _ _ Hup Hs). reflexivity.
Qed.

(** C2, amended.  When the upstream answers a request with status 404:
    the loop of [tryPublicFetchOrCached] warns [url not found] and returns
    [undefined], without raising and without another request, and so does
    the function whenever it gets to fetch; the loop of
    [cacheResourceFile] logs the failure and, with no cached copy, sleeps
    [backoff i] and takes the next turn, while with a cached copy [e] it
    returns the path of [e]. *)
Theorem not_found_ends_only_the_public_fetch :
  forall (host : Host) (cfg : Config) (n i : nat) (url : string)
         (w : World) (r : Response),
    upstream w (requests w) url = Responds r ->
    status r = 404%Z ->
    (forall filepath parse existing,
        publicLoop host (S n) i url filepath parse existing w
        = (Ok None, logged LWarn ["url not found:"; url] (fetched url w)))
    /\ (forall parse before existing,
          Js.startsWith url origin = true ->
          (if canReuseCache cfg
           then findExistingCachedFile (publicFilepath cfg url) None None
           else ret None) before = (Ok existing, w) ->
          found existing && negb (refresh cfg) = false ->
          tryPublicFetchOrCached host cfg (S n) url parse before
          = (Ok None, logged LWarn ["url not found:"; url] (fetched url w)))
    /\ (forall prefix mutate filename extname writedir existing,
          found existing = false ->
          cacheLoop (S n) i url prefix mutate filename extname writedir existing w
          = cacheLoop n (S i) url prefix mutate filename extname writedir existing
              (slept (backoff i)
                 (logged LLog ["retrying in " ++ Js.Z_toString (backoff i) ++ "ms"]
                    (logged LError ["failed to cache " ++ url ++ ":";
                                    show (BadStatusCodeError 404)]
                       (fetched url w)))))
    /\ (forall prefix mutate filename extname writedir e,
          e <> "" ->
          cacheLoop (S n) i url prefix mutate filename extname writedir (Some e) w
          = (Ok (Path.join [prefix; e]),
             logged LLog ["reusing cached resource"; Path.join [prefix; e]]
               (logged LError ["failed to cache " ++ url ++ ":";
                               show (BadStatusCodeError 404)]
                  (fetched url w)))).
Proof.
  intros host cfg n i url w r Hup Hs.
  split; [|split; [|split]].
  - intros. now apply publicLoop_not_found with (r := r).
  - intros parse before existing Horigin Hlookup Hmiss.
    unfold tryPublicFetchOrCached. rewrite Horigin. simpl.
    unfold bind at 1. rewrite Hlookup, Hmiss.
    now apply publicLoop_not_found with (r := r).
  - intros prefix mutate filename extname writedir existing Hnone.
    simpl. unfold try_catch.
    rewrite (cacheAttempt_not_found _ _ _ _ _ _ _ Hup Hs).
    unfold bind. rewrite console_result, Hnone. reflexivity.
  - intros prefix mutate filename extname writedir e He.
    apply cacheLoop_stale; [exact He|].
    now apply cacheAttempt_not_found with (r := r).
Qed.

(** A missing image of the site, over an empty output directory. *)
Lemma not_found_ends_only_the_public_fetch_witness :
  upstream (Demo.start Demo.emptyMirror Demo.site) 0 "https://papunika.com/map/gone.png"
  = Responds (mkResponse 404 None "")
  /\ status (mkResponse 404 None "") = 404%Z
  /\ tryPublicFetchOrCached Demo.host (configure [] true) 1
       "https://papunika.com/map/gone.png" false
       (Demo.start Demo.emptyMirror Demo.site)
     = (Ok None,
        logged LWarn ["url not found:"; "https://papunika.com/map/gone.png"]
          (fetched "https://papunika.com/map/gone.png"
             (afterReadDir "mirror" (Demo.start Demo.emptyMirror Demo.site)))).
Proof.
  split; [reflexivity|]. split; [reflexivity|].
  destruct (@not_found_ends_only_the_public_fetch Demo.host (configure [] true) 0 0
              "https://papunika.com/map/gone.png"
              (afterReadDir "mirror" (Demo.start Demo.emptyMirror Demo.site))
              (mkResponse 404 None "") eq_refl eq_refl)
    as (_ & Hpublic & _).
  apply (Hpublic false (Demo.start Demo.emptyMirror Demo.site) None); reflexivity.
Defined.

(** C2 as stated fails for [cacheResourceFile]: a style sheet the upstream
    answers with 404 is requested again after 250 ms, and again after
    500 ms; with three attempts allowed the call is still retrying. *)
Lemma cacheResourceFile_retries_not_found :
  upstream (Demo.start Demo.emptyMirror Demo.site) 0 "https://papunika.com/map/gone.css"
  = Responds (mkResponse 404 None "")
  /\ fst (cacheResourceFile Demo.host (configure [] true) 3
            "https://papunika.com/map/gone.css" "static/css" None
            (Demo.start Demo.emptyMirror Demo.site))
     = Spin
  /\ requests (snd (cacheResourceFile Demo.host (configure [] true) 3
                      "https://papunika.com/map/gone.css" "static/css" None
                      (Demo.start Demo.emptyMirror Demo.site)))
     = 3
  /\ rev (trace (snd (cacheResourceFile Demo.host (configure [] true) 3
                        "https://papunika.com/map/gone.css" "static/css" None
                        (Demo.start Demo.emptyMirror Demo.site))))
     = [ EvReadDir "mirror/static/css";
         EvFetch "https://papunika.com/map/gone.css";
         EvConsole LError ["failed to cache https://papunika.com/map/gone.css:";
                           "Error: bad status code: 404"];
         EvConsole LLog ["retrying in 250ms"];
         EvSleep 250;
         EvFetch "https://papunika.com/map/gone.css";
         EvConsole LError ["failed to cache https://papunika.com/map/gone.css:";
                           "Error: bad status code: 404"];
         EvConsole LLog ["retrying in 500ms"];
         EvSleep 500;
         EvFetch "https://papunika.com/map/gone.css";
         EvConsole LError ["failed to cache https://papunika.com/map/gone.css:";
                           "Error: bad status code: 404"];
         EvConsole LLog ["retrying in 1000ms"];
         EvSleep 1000 ].
Proof. repeat split; vm_compute; reflexivity. Qed.


(** ** Rules for the events of a computation *)

Create HintDb emits.

Lemma Emits_ret {A} (P : Event -> Prop) (a : A) : Emits P (ret a).
Proof. intros w. exists []. simpl. auto. Qed.

Lemma Emits_throw {A} (P : Event -> Prop) (e : Exn) : Emits P (@throw A e).
Proof. intros w. exists []. simpl. auto. Qed.

Lemma Emits_spin {A} (P : Event -> Prop) : Emits P (@spin A).
Proof. intros w. exists []. simpl. auto. Qed.

Lemma Emits_bind {A B} (P : Event -> Prop) (m : M A) (k : A -> M B) :
  Emits P m -> (forall a, Emits P (k a)) -> Emits P (bind m k).
Proof.
  intros Hm Hk w. unfold bind.
  destruct (Hm w) as (evs & Htr & HP & Hreq).
  destruct (m w) as [[a|e|] w1]; simpl in *.
  - destruct (Hk a w1) as (evs' & Htr' & HP' & Hreq').
    exists (evs' ++ evs)%list. rewrite Htr', Htr, app_assoc.
    split; [reflexivity|]. split; [now apply Forall_app | lia].
  - exists evs. auto.
  - exists evs. auto.
Qed.

Lemma Emits_try_catch {A} (P : Event -> Prop) (m : M A) (h : Exn -> M A) :
  Emits P m -> (forall e, Emits P (h e)) -> Emits P (try_catch m h).
Proof.
  intros Hm Hh w. unfold try_catch.
  destruct (Hm w) as (evs & Htr & HP & Hreq).
  destruct (m w) as [[a|e|] w1]; simpl in *.
  - exists evs. auto.
  - destruct (Hh e w1) as (evs' & Htr' & HP' & Hreq').
    exists (evs' ++ evs)%list. rewrite Htr', Htr, app_assoc.
    split; [reflexivity|]. split; [now apply Forall_app | lia].
  - exists evs. auto.
Qed.

Lemma Emits_weaken {A} (P Q : Event -> Prop) (m : M A) :
  (forall ev, P ev -> Q ev) -> Emits P m -> Emits Q m.
Proof.
  intros HPQ Hm w. destruct (Hm w) as (evs & Htr & HP & Hreq).
  exists evs. split; [exact Htr|]. split; [|exact Hreq].
  eapply Forall_impl; eauto.
Qed.

Lemma Emits_emit (P : Event -> Prop) (ev : Event) : P ev -> Emits P (emit ev).
Proof. intros H w. exists [ev]. simpl. auto. Qed.

Lemma Emits_console (P : Event -> Prop) (l : Level) (args : list string) :
  P (EvConsole l args) -> Emits P (console l args).
Proof. apply Emits_emit. Qed.

Lemma Emits_sleep (P : Event -> Prop) (ms : Z) : P (EvSleep ms) -> Emits P (sleep ms).
Proof. apply Emits_emit. Qed.

Lemma Emits_fetch (P : Event -> Prop) (url : string) :
  P (EvFetch url) -> Emits P (fetch url).
Proof.
  intros H w. exists [EvFetch url]. unfold fetch.
  destruct (upstream w (requests w) url); simpl; auto.
Qed.

Lemma Emits_fs_call {A} (P : Event -> Prop) (ev : Event)
      (op : FileSystem -> Result A * FileSystem) :
  P ev -> Emits P (fs_call ev op).
Proof.
  intros H w. exists [ev]. unfold fs_call.
  destruct (faults w (fsops w)); [simpl; auto|].
  destruct (op (fs w)); simpl; auto.
Qed.

Lemma Emits_readDir (P : Event -> Prop) (dir : string) :
  P (EvReadDir dir) -> Emits P (readDir dir).
Proof. intros H w. exists [EvReadDir dir]. rewrite readDir_result. simpl. auto. Qed.

Lemma Emits_readFile (P : Event -> Prop) (path : string) :
  P (EvReadFile path) -> Emits P (readFile path).
Proof. apply Emits_fs_call. Qed.

Lemma Emits_mkdir (P : Event -> Prop) (path : string) :
  P (EvMkdir path) -> Emits P (mkdir path).
Proof. apply Emits_fs_call. Qed.

Lemma Emits_writeFile (P : Event -> Prop) (path contents : string) :
  P (EvWriteFile path contents) -> Emits P (writeFile path contents).
Proof. apply Emits_fs_call. Qed.

Lemma Emits_if {A} (P : Event -> Prop) (b : bool) (m1 m2 : M A) :
  Emits P m1 -> Emits P m2 -> Emits P (if b then m1 else m2).
Proof. now destruct b. Qed.

#[export] Hint Resolve Emits_ret Emits_throw Emits_spin Emits_bind Emits_try_catch
  Emits_console Emits_sleep Emits_fetch Emits_readDir Emits_readFile Emits_mkdir
  Emits_writeFile Emits_if : emits.

(** The tactic for a computation built from the primitives: apply the
    rules, opening the definitions given, and leave the side conditions on
    single events to [simpl]. *)
Ltac emits :=
  repeat first
    [ match goal with |- forall _, _ => intro end
    | apply Emits_bind | apply Emits_try_catch | apply Emits_ret
    | apply Emits_throw | apply Emits_spin | apply Emits_if
    | apply Emits_console | apply Emits_sleep | apply Emits_fetch
    | apply Emits_readDir | apply Emits_readFile | apply Emits_mkdir
    | apply Emits_writeFile
    | exact I
    | solve [auto with emits] ].

Lemma Emits_fetchSuccess (P : Event -> Prop) (url : string) :
  P (EvFetch url) -> Emits P (fetchSuccess url).
Proof. intros H. unfold fetchSuccess. emits. Qed.

Lemma Emits_retryAfter {A} (P : Event -> Prop) (i : nat) (again : M A) :
  (forall l args, P (EvConsole l args)) -> (forall ms, P (EvSleep ms)) ->
  Emits P again -> Emits P (retryAfter i again).
Proof. intros Hc Hs Ha. unfold retryAfter. emits; auto. Qed.

Lemma Emits_scanDir (P : Event -> Prop) (name ext : string) (entries : list string)
      (failure : option Exn) :
  Emits P (scanDir name ext entries failure).
Proof.
  induction entries as [|f rest IH]; simpl.
  - destruct failure; emits.
  - destruct (cacheNameMatches name ext f); emits.
Qed.

Lemma Emits_findExistingCachedFile (P : Event -> Prop) (dir : string)
      (name ext : option string) :
  (forall d, P (EvReadDir d)) -> (forall l args, P (EvConsole l args)) ->
  Emits P (findExistingCachedFile dir name ext).
Proof.
  intros Hr Hc. unfold findExistingCachedFile.
  destruct (resolveLookup dir name ext) as [[d n] e].
  apply Emits_try_catch.
  - apply Emits_bind; [now apply Emits_readDir | intros; apply Emits_scanDir].
  - intros err. unfold lookupFailed. emits; auto.
Qed.

(** ** Events of the cache writer *)


Lemma Benign_named (writedir filename extname : string) :
  Benign (namedByContent writedir filename extname).
Proof. intros [] H; simpl in *; auto; contradiction. Qed.

Lemma Benign_any : Benign anyEvent.
Proof. intros ev _. exact I. Qed.

Ltac benign H :=
  repeat first
    [ match goal with |- forall _, _ => intro end
    | apply Emits_bind | apply Emits_try_catch | apply Emits_ret
    | apply Emits_throw | apply Emits_spin | apply Emits_if
    | apply Emits_console | apply Emits_sleep | apply Emits_fetch
    | apply Emits_readDir | apply Emits_readFile | apply Emits_mkdir
    | apply Emits_fetchSuccess
    | solve [apply H; exact I]
    | assumption ].

Lemma Emits_embedEach (P : Event -> Prop) (host : Host) (url : string)
      (resourceUrls : list string) (s : string) :
  Benign P -> Emits P (embedEach host url s resourceUrls).
Proof.
  intros HB. revert s. induction resourceUrls as [|r rest IH]; intros s; simpl.
  - apply Emits_ret.
  - apply Emits_bind; [|intros; apply IH].
    unfold embedOne. apply Emits_if; [apply Emits_ret|].
    apply Emits_bind.
    + apply Emits_if; [|apply Emits_ret].
      destruct (URL host r (Some url)); benign HB.
    + intros normalizedUrl. apply Emits_bind; [benign HB|].
      intros res. apply Emits_bind; [|benign HB].
      destruct (contentType res) as [m|]; [destruct (Js.truthy m)|]; benign HB.
Qed.

Lemma Emits_embedCssUrls (P : Event -> Prop) (host : Host) (url contents : string) :
  Benign P -> Emits P (embedCssUrls host url contents).
Proof. intros HB. unfold embedCssUrls. now apply Emits_embedEach. Qed.

Lemma Emits_replaceJsPapunikaUrls (P : Event -> Prop) (url contents : string) :
  Emits P (replaceJsPapunikaUrls url contents).
Proof. unfold replaceJsPapunikaUrls. apply Emits_ret. Qed.

Lemma cacheAttempt_unfold (url prefix : string)
      (mutate : option (string -> string -> M string))
      (filename extname writedir : string) :
  cacheAttempt url prefix mutate filename extname writedir
  = bind (fetchSuccess url) (fun res =>
    bind (transform mutate url (body res)) (fun contents =>
    bind (console LLog ["caching resource"; url]) (fun _ =>
    bind (mkdir (Path.dirname
                   (Path.join [writedir; fingerprinted filename extname contents])))
         (fun _ =>
    bind (writeFile (Path.join [writedir; fingerprinted filename extname contents])
                    contents) (fun _ =>
    ret (Path.join [prefix; fingerprinted filename extname contents])))))).
Proof. reflexivity. Qed.

Lemma Emits_cacheAttempt (P : Event -> Prop) (url prefix : string)
      (mutate : option (string -> string -> M string))
      (filename extname writedir : string) :
  Benign P ->
  (forall c, P (EvWriteFile (Path.join [writedir; fingerprinted filename extname c]) c)) ->
  (forall x c, Emits P (transform mutate x c)) ->
  Emits P (cacheAttempt url prefix mutate filename extname writedir).
Proof.
  intros HB Hw Hm. rewrite cacheAttempt_unfold.
  apply Emits_bind; [benign HB|]. intros res.
  apply Emits_bind; [apply Hm|]. intros contents.
  apply Emits_bind; [benign HB|]. intros _.
  apply Emits_bind; [benign HB|]. intros _.
  apply Emits_bind; [apply Emits_writeFile, Hw | intros; apply Emits_ret].
Qed.

Lemma Emits_cacheLoop (P : Event -> Prop) (n i : nat) (url prefix : string)
      (mutate : option (string -> string -> M string))
      (filename extname writedir : string) (existing : option string) :
  Benign P ->
  (forall c, P (EvWriteFile (Path.join [writedir; fingerprinted filename extname c]) c)) ->
  (forall x c, Emits P (transform mutate x c)) ->
  Emits P (cacheLoop n i url prefix mutate filename extname writedir existing).
Proof.
  intros HB Hw Hm. revert i. induction n as [|n IH]; intros i; simpl.
  - apply Emits_spin.
  - apply Emits_try_catch; [now apply Emits_cacheAttempt|].
    intros err. apply Emits_bind; [benign HB|]. intros _.
    apply Emits_if; [benign HB|].
    apply Emits_retryAfter; [intros; apply HB; exact I .. | apply IH].
Qed.

Lemma Emits_after_pure {A B} (P : Event -> Prop) (m : M A) (k : A -> M B) (a : A) :
  (forall w, m w = (Ok a, w)) -> Emits P (k a) -> Emits P (bind m k).
Proof. intros Hm Hk w. unfold bind. rewrite Hm. apply Hk. Qed.

Lemma Emits_pure_throw {A B} (P : Event -> Prop) (m : M A) (k : A -> M B) (e : Exn) :
  (forall w, m w = (Throw e, w)) -> Emits P (bind m k).
Proof. intros Hm w. unfold bind. rewrite Hm. exists []. simpl. auto. Qed.

Lemma Emits_cacheResourceFile (P : Event -> Prop) (host : Host) (cfg : Config)
      (n : nat) (url prefix : string)
      (mutate : option (string -> string -> M string)) :
  Benign P ->
  (forall u c,
      URL host url None = Some u ->
      P (EvWriteFile
           (Path.join [Path.join [outdir cfg; prefix];
                       fingerprinted
                         (Path.basename (sanitize (pathname u))
                                        (Path.extname (sanitize (pathname u))))
                         (Path.extname (sanitize (pathname u))) c]) c)) ->
  (forall x c, Emits P (transform mutate x c)) ->
  Emits P (cacheResourceFile host cfg n url prefix mutate).
Proof.
  intros HB Hw Hm. unfold cacheResourceFile.
  destruct (URL host url None) as [u|] eqn:Hu.
  - apply Emits_after_pure with (a := sanitize (pathname u)).
    { intros w. now rewrite sanitizedBasename_result, Hu. }
    apply Emits_bind.
    + apply Emits_if; [|apply Emits_ret].
      apply Emits_findExistingCachedFile; intros; apply HB; exact I.
    + intros existing. apply Emits_if; [benign HB|].
      apply Emits_cacheLoop; auto.
  - apply Emits_pure_throw with (e := TypeError "Invalid URL").
    intros w. now rewrite sanitizedBasename_result, Hu.
Qed.

(** ** The fingerprint in the file name *)

(** The transforms [main.ts] passes to [cacheResourceFile] write no
    file. *)
Lemma transforms_do_not_write (host : Host) (x c : string) :
  Emits notWrite (transform (Some (embedCssUrls host)) x c)
  /\ Emits notWrite (transform (Some replaceJsPapunikaUrls) x c)
  /\ Emits notWrite (transform None x c).
Proof.
  split; [|split]; simpl.
  - apply Emits_embedCssUrls. intros ev H. exact H.
  - apply Emits_replaceJsPapunikaUrls.
  - apply Emits_ret.
Qed.

Lemma hex_length (contents : string) : String.length (Md5.hex contents) = 32.
Proof.
  unfold Md5.hex. destruct (Md5.digest contents) as [[[a b] c] d]. reflexivity.
Qed.

Lemma take_app (a b : string) : Js.take (String.length a) (a ++ b) = a.
Proof. induction a; simpl; [now destruct b | now rewrite IHa]. Qed.

Lemma drop_app_more (a b : string) (k : nat) :
  Js.drop (String.length a + k) (a ++ b) = Js.drop k b.
Proof. induction a; simpl; auto. Qed.

(** The 32 characters after the logical name and the separator are the
    digest. *)
Lemma fingerprint_in_name (filename extname contents : string) :
  Js.slice (String.length filename + 1) (String.length filename + 33)
           (fingerprinted filename extname contents)
  = Md5.hex contents.
Proof.
  unfold Js.slice, fingerprinted.
  replace (String.length filename + 33 - (String.length filename + 1)) with 32 by lia.
  rewrite drop_app_more. simpl Js.drop.
  rewrite <- (hex_length contents). apply take_app.
Qed.

Lemma assoc_set_same {V} (k : string) (v : V) (l : list (string * V)) :
  assoc k (assoc_set k v l) = Some v.
Proof.
  induction l as [|[k' v'] l IH]; simpl.
  - now rewrite String.eqb_refl.
  - destruct (String.eqb k k') eqn:E; simpl; [now rewrite String.eqb_refl|].
    now rewrite E.
Qed.

Lemma writeFile_stores (path contents : string) (w w' : World) :
  writeFile path contents w = (Ok tt, w') ->
  assoc path (fs_files (fs w')) = Some contents.
Proof.
  unfold writeFile, fs_call.
  destruct (faults w (fsops w)); [discriminate|].
  destruct (assoc (Path.dirname path) (fs_dirs (fs w))); [|discriminate].
  destruct (assoc path (fs_dirs (fs w))); [discriminate|].
  intros [= <-]. simpl. apply assoc_set_same.
Qed.

(** A successful attempt leaves the transformed body in the file named by
    its digest, and returns the served path of that file. *)
Lemma cacheAttempt_stores (url prefix : string)
      (mutate : option (string -> string -> M string))
      (filename extname writedir : string) (w w' : World) (p : string) :
  cacheAttempt url prefix mutate filename extname writedir w = (Ok p, w') ->
  exists res w1 contents w2,
    fetchSuccess url w = (Ok res, w1)
    /\ transform mutate url (body res) w1 = (Ok contents, w2)
    /\ p = Path.join [prefix; fingerprinted filename extname contents]
    /\ assoc (Path.join [writedir; fingerprinted filename extname contents])
             (fs_files (fs w'))
       = Some contents.
Proof.
  rewrite cacheAttempt_unfold. unfold bind at 1.
  destruct (fetchSuccess url w) as [[res|e|] w1] eqn:Hf; try discriminate.
  unfold bind at 1.
  destruct (transform mutate url (body res) w1) as [[contents|e|] w2] eqn:Ht;
    try discriminate.
  unfold bind at 1. rewrite console_result.
  unfold bind at 1.
  destruct (mkdir _ _) as [[[]|e|] w3]; try discriminate.
  unfold bind at 1.
  destruct (writeFile _ _ w3) as [[[]|e|] w4] eqn:Hw; try discriminate.
  intros [= <- <-].
  exists res, w1, contents, w2.
  split; [reflexivity|]. split; [exact Ht|]. split; [reflexivity|].
  now apply writeFile_stores with (w := w3).
Qed.

(** C6, amended.  Every call of [Deno.writeFile] that [cacheResourceFile]
    makes writes [contents] to the file of [writedir] named
    [filename-<digest>extname], where the digest is the 32 hex characters
    of the MD5 of [contents], and they are the 32 characters after the
    logical name and the separator.  A successful attempt leaves exactly
    the transformed body of the response in that file and returns its
    served path.  Two such names are equal only for contents of equal
    digest. *)
Theorem cached_file_name_holds_digest_of_content :
  forall (host : Host) (cfg : Config) (n : nat) (url prefix : string)
         (mutate : option (string -> string -> M string)) (u : Url) (w : World),
    let extname := Path.extname (sanitize (pathname u)) in
    let filename := Path.basename (sanitize (pathname u)) extname in
    let writedir := Path.join [outdir cfg; prefix] in
    URL host url None = Some u ->
    (forall x c, Emits notWrite (transform mutate x c)) ->
    (forall path contents,
        In (EvWriteFile path contents)
           (trace (snd (cacheResourceFile host cfg n url prefix mutate w))) ->
        In (EvWriteFile path contents) (trace w)
        \/ (path = Path.join [writedir; filename ++ "-" ++ Md5.hex contents ++ extname]
            /\ String.length (Md5.hex contents) = 32
            /\ Js.slice (String.length filename + 1) (String.length filename + 33)
                        (filename ++ "-" ++ Md5.hex contents ++ extname)
               = Md5.hex contents))
    /\ (forall w0 w' p,
          cacheAttempt url prefix mutate filename extname writedir w0 = (Ok p, w') ->
          exists res w1 contents w2,
            fetchSuccess url w0 = (Ok res, w1)
            /\ transform mutate url (body res) w1 = (Ok contents, w2)
            /\ p = Path.join [prefix; filename ++ "-" ++ Md5.hex contents ++ extname]
            /\ assoc (Path.join [writedir;
                                 filename ++ "-" ++ Md5.hex contents ++ extname])
                     (fs_files (fs w'))
               = Some contents)
    /\ (forall c1 c2,
          filename ++ "-" ++ Md5.hex c1 ++ extname
          = filename ++ "-" ++ Md5.hex c2 ++ extname ->
          Md5.hex c1 = Md5.hex c2).
Proof.
  intros host cfg n url prefix mutate u w extname filename writedir Hurl Hmutate.
  split; [|split].
  - intros path contents Hin.
    assert (HE : Emits (namedByContent writedir filename extname)
                       (cacheResourceFile host cfg n url prefix mutate)).
    { apply Emits_cacheResourceFile.
      - apply Benign_named.
      - intros u' c Hu'. rewrite Hurl in Hu'. injection Hu' as <-. reflexivity.
      - intros x c. apply Emits_weaken with (P := notWrite); [|apply Hmutate].
        apply Benign_named. }
    destruct (HE w) as (evs & Htr & HP & _).
    rewrite Htr in Hin. apply in_app_or in Hin. destruct Hin as [Hnew|Hold]; [|now left].
    right. rewrite Forall_forall in HP. specialize (HP _ Hnew). simpl in HP.
    split; [exact HP|]. split; [apply hex_length | apply fingerprint_in_name].
  - intros w0 w' p. apply cacheAttempt_stores.
  - intros c1 c2 H.
    rewrite <- (fingerprint_in_name filename extname c1),
            <- (fingerprint_in_name filename extname c2).
    unfold fingerprinted. now rewrite H.
Qed.

(** Caching [app.css] with the style sheet transform. *)
Lemma cached_file_name_holds_digest_of_content_witness :
  URL Demo.host "https://papunika.com/map/app.css" None
  = Some (mkUrl "https://papunika.com/map/app.css" "/map/app.css")
  /\ (forall x c, Emits notWrite (transform (Some (embedCssUrls Demo.host)) x c))
  /\ (forall path contents,
         In (EvWriteFile path contents)
            (trace (snd (cacheResourceFile Demo.host (configure [] true) 1
                           "https://papunika.com/map/app.css" "static/css"
                           (Some (embedCssUrls Demo.host))
                           (Demo.start Demo.emptyMirror (Demo.serving "a{}"))))) ->
         In (EvWriteFile path contents) []
         \/ (path = Path.join ["mirror/static/css";
                               "app" ++ "-" ++ Md5.hex contents ++ ".css"]
             /\ String.length (Md5.hex contents) = 32
             /\ Js.slice 4 36 ("app" ++ "-" ++ Md5.hex contents ++ ".css")
                = Md5.hex contents)).
Proof.
  assert (H1 : URL Demo.host "https://papunika.com/map/app.css" None
               = Some (mkUrl "https://papunika.com/map/app.css" "/map/app.css"))
    by reflexivity.
  assert (H2 : forall x c,
             Emits notWrite (transform (Some (embedCssUrls Demo.host)) x c)).
  { intros x c. apply transforms_do_not_write. }
  split; [exact H1|]. split; [exact H2|].
  exact (proj1 (@cached_file_name_holds_digest_of_content Demo.host (configure [] true) 1
                  "https://papunika.com/map/app.css" "static/css"
                  (Some (embedCssUrls Demo.host)) _
                  (Demo.start Demo.emptyMirror (Demo.serving "a{}")) H1 H2)).
Defined.

(** C6 as stated fails in its last part, that the file name determines
    the content: the two messages of [Demo.collisionA] and
    [Demo.collisionB] differ and, served for the same URL, are both cached
    as [app-79054025255fb1a26e4bc422aef54eb4.css]. *)
Lemma one_file_name_for_two_contents :
  Demo.collisionA <> Demo.collisionB
  /\ fst (cacheResourceFile Demo.host (configure [] true) 1
            "https://papunika.com/map/app.css" "static/css" None
            (Demo.start Demo.emptyMirror (Demo.serving Demo.collisionA)))
     = Ok "static/css/app-79054025255fb1a26e4bc422aef54eb4.css"
  /\ fst (cacheResourceFile Demo.host (configure [] true) 1
            "https://papunika.com/map/app.css" "static/css" None
            (Demo.start Demo.emptyMirror (Demo.serving Demo.collisionB)))
     = Ok "static/css/app-79054025255fb1a26e4bc422aef54eb4.css"
  /\ assoc "mirror/static/css/app-79054025255fb1a26e4bc422aef54eb4.css"
       (fs_files (fs (snd (cacheResourceFile Demo.host (configure [] true) 1
            "https://papunika.com/map/app.css" "static/css" None
            (Demo.start Demo.emptyMirror (Demo.serving Demo.collisionA))))))
     = Some Demo.collisionA
  /\ assoc "mirror/static/css/app-79054025255fb1a26e4bc422aef54eb4.css"
       (fs_files (fs (snd (cacheResourceFile Demo.host (configure [] true) 1
            "https://papunika.com/map/app.css" "static/css" None
            (Demo.start Demo.emptyMirror (Demo.serving Demo.collisionB))))))
     = Some Demo.collisionB.
Proof.
  split.
  - intros H. apply String.eqb_eq in H. vm_compute in H. discriminate.
  - repeat split; vm_compute; reflexivity.
Qed.

(** ** Events of a whole run *)

Lemma Emits_parseJson (P : Event -> Prop) (host : Host) (text : string) :
  Emits P (parseJson host text).
Proof. unfold parseJson. destruct (JSON_parse host text); emits. Qed.

Lemma Emits_readCached (host : Host) (filepath : string) (parse : bool) :
  Emits anyEvent (readCached host filepath parse).
Proof.
  unfold readCached. destruct parse; emits. apply Emits_parseJson.
Qed.

Lemma Emits_publicLoop (host : Host) (n i : nat) (url filepath : string)
      (parse : bool) (existing : option string) :
  Emits anyEvent (publicLoop host n i url filepath parse existing).
Proof.
  revert i. induction n as [|n IH]; intros i; simpl; [apply Emits_spin|].
  apply Emits_try_catch.
  - unfold publicAttempt. apply Emits_bind; [now apply Emits_fetchSuccess|].
    intros res. emits. apply Emits_parseJson.
  - intros err. apply Emits_if; [emits|].
    apply Emits_bind; [emits|]. intros _. apply Emits_if.
    + apply Emits_bind; [emits | intros; apply Emits_readCached].
    + apply Emits_retryAfter; [intros; exact I .. | apply IH].
Qed.



Lemma Emits_awaitAll {A} (P : Event -> Prop) (tasks : list (M A)) :
  Forall (Emits P) tasks -> Emits P (awaitAll tasks).
Proof.
  induction 1 as [|t rest Ht Hrest IH]; simpl; [apply Emits_ret|].
  apply Emits_bind; [exact Ht|]. intros a.
  apply Emits_bind; [exact IH | intros; apply Emits_ret].
Qed.

Lemma Emits_forEach {A} (P : Event -> Prop) (f : A -> M unit) (xs : list A) :
  (forall x, Emits P (f x)) -> Emits P (forEach f xs).
Proof.
  intros Hf. induction xs as [|x t IH]; simpl; [apply Emits_ret|].
  apply Emits_bind; [apply Hf | intros; exact IH].
Qed.





Lemma Emits_destructure {B} (P : Event -> Prop) (v : value)
      (k : (string -> value) -> M B) :
  (forall props, Emits P (k props)) -> Emits P (bind (destructure v) k).
Proof.
  intros Hk. apply Emits_bind; [|exact Hk].
  unfold destructure. destruct v as [[]|]; emits.
Qed.

Lemma Emits_asArray {B} (P : Event -> Prop) (v : value) (k : list json -> M B) :
  (forall items, Emits P (k items)) -> Emits P (bind (asArray v) k).
Proof.
  intros Hk. apply Emits_bind; [|exact Hk].
  unfold asArray. destruct v as [[]|]; emits.
Qed.

Lemma Emits_discard {A} (P : Event -> Prop) (m : M A) :
  Emits P m -> Emits P (bind m (fun _ => ret tt)).
Proof. intros H. apply Emits_bind; [exact H | intros; apply Emits_ret]. Qed.








Lemma try_fetch {A} (url : string) (k : Response -> A) (h : Exn -> M A) (w : World) :
  try_catch (bind (fetchSuccess url) (fun res => ret (k res))) h w
  = match fetchSuccess url w with
    | (Ok r, w1) => (Ok (k r), w1)
    | (Throw e, w1) => h e w1
    | (Spin, w1) => (Spin, w1)
    end.
Proof.
  unfold try_catch, bind. now destruct (fetchSuccess url w) as [[r|e|] w1].
Qed.




(** ** A second run over a populated cache *)

Lemma findExistingCachedFile_preserves (dir : string) (name ext : option string)
      (w w' : World) (r : Result (option string)) :
  findExistingCachedFile dir name ext w = (r, w') ->
  requests w' = requests w /\ fs w' = fs w.
Proof.
  destruct (resolveLookup dir name ext) as [[d n] e] eqn:Hr.
  rewrite (findExistingCachedFile_result _ _ _ w Hr).
  destruct (find _ _); [intros [= _ <-]; now split|].
  destruct (snd (listing d w)) as [err|]; intros [= _ <-]; [|now split].
  destruct (afterLookupFailed_same err (afterReadDir d w)) as (Hfs & Hreq & _).
  now split.
Qed.

Lemma readCached_preserves (host : Host) (filepath : string) (parse : bool)
      (w : World) :
  requests (snd (readCached host filepath parse w)) = requests w
  /\ fs (snd (readCached host filepath parse w)) = fs w.
Proof.
  unfold readCached. destruct parse; [|now split].
  unfold bind, readFile, fs_call, parseJson.
  destruct (faults w (fsops w)); [now split|].
  destruct (assoc filepath (fs_files (fs w))) as [text|]; [|now split].
  simpl. destruct (JSON_parse host text); now split.
Qed.




(** ** Inlining the references of a style sheet *)

(** C7 fails on the code for a quoted reference.  In a style sheet with
    [url("foo.png")] the pattern captures [foo.png], and the image is
    fetched, but the text [url(foo.png)] that [replaceAll] looks for does
    not occur: the style sheet comes back unchanged, with the relative
    reference and without a [data:] URI.  The bare [url(foo.png)] is
    inlined as [url(data:image/png;base64,UE5H)]. *)
Theorem embedCssUrls_keeps_quoted_reference :
  Re.urlCaptures 0 Demo.quotedCss = ["foo.png"]
  /\ upstream Demo.firstStart 0 "https://papunika.com/map/foo.png"
     = Responds (mkResponse 200 (Some "image/png") "PNG")
  /\ embedCssUrls Demo.host Demo.sheetUrl Demo.quotedCss Demo.firstStart
     = (Ok Demo.quotedCss, fetched "https://papunika.com/map/foo.png" Demo.firstStart)
  /\ Js.includes Demo.quotedCss "foo.png" = true
  /\ Js.includes Demo.quotedCss "data:" = false
  /\ embedCssUrls Demo.host Demo.sheetUrl Demo.plainCss Demo.firstStart
     = (Ok "a{background:url(data:image/png;base64,UE5H)}",
        fetched "https://papunika.com/map/foo.png" Demo.firstStart).
Proof. repeat split; vm_compute; reflexivity. Qed.


(** ** The toggles of the tile pyramids *)

Lemma arr_includes_In (xs : list string) (x : string) :
  Js.arr_includes xs x = true <-> In x xs.
Proof.
  unfold Js.arr_includes. rewrite existsb_exists. split.
  - intros (y & Hin & Heq). apply String.eqb_eq in Heq. now subst.
  - intros Hin. exists x. split; [exact Hin | apply String.eqb_refl].
Qed.







Lemma bind_ret_l {A B} (a : A) (k : A -> M B) : same (bind (ret a) k) (k a).
Proof. intros w. reflexivity. Qed.








(** ** Base names and extensions *)

Lemma get_drop (n i : nat) (s : string) :
  String.get i (Js.drop n s) = String.get (n + i) s.
Proof.
  revert s. induction n as [|n IH]; intros s; simpl; [reflexivity|].
  destruct s; simpl; [destruct i; reflexivity|apply IH].
Qed.

Lemma get_take (n i : nat) (s : string) :
  String.get i (Js.take n s) = if (i <? n)%nat then String.get i s else None.
Proof.
  revert i s. induction n as [|n IH]; intros i s; simpl.
  - destruct i; reflexivity.
  - destruct s as [|c t]; simpl.
    + destruct (i <? S n)%nat; reflexivity.
    + destruct i as [|i]; [reflexivity|]. rewrite IH. reflexivity.
Qed.

Lemma take_all (n : nat) (s : string) : String.length s <= n -> Js.take n s = s.
Proof.
  revert s. induction n as [|n IH]; intros s H; destruct s; simpl in *;
    try reflexivity; try lia.
  f_equal. apply IH. lia.
Qed.

Lemma length_drop (n : nat) (s : string) :
  String.length (Js.drop n s) = String.length s - n.
Proof.
  revert s. induction n as [|n IH]; intros s; simpl; [lia|].
  destruct s; simpl; [reflexivity|apply IH].
Qed.

Lemma charAt_drop (n i : nat) (s : string) :
  Path.charAt (Js.drop n s) i = Path.charAt s (n + i).
Proof. unfold Path.charAt. rewrite get_drop. reflexivity. Qed.

Lemma charAt_zslice (p : string) (a b : Z) (i : nat) :
  Path.isSlash (Path.charAt (Path.zslice p a b) i) = true ->
  Path.isSlash (Path.charAt p (Z.to_nat a + i)) = true
  /\ (Z.to_nat a + i < Z.to_nat b)%nat.
Proof.
  unfold Path.zslice, Js.slice, Path.charAt. rewrite get_take, get_drop.
  destruct (i <? Z.to_nat b - Z.to_nat a)%nat eqn:E.
  - apply Nat.ltb_lt in E. intros H. split; [exact H|lia].
  - discriminate.
Qed.

(** The loop of [basename] leaves no slash between [start] and [end]. *)
Lemma basename_loop_segment (p : string) (n : nat) (e0 : Z) (m0 : bool)
      (start e : Z) (m : bool) :
  Path.basename_loop p n (0%Z, e0, m0) = (start, e, m) ->
  (m0 = true -> e0 = (-1)%Z) ->
  (forall i, n <= i -> (Z.of_nat i < e0)%Z -> Path.isSlash (Path.charAt p i) = false) ->
  (0 <= start)%Z
  /\ forall i, (start <= Z.of_nat i)%Z -> (Z.of_nat i < e)%Z ->
               Path.isSlash (Path.charAt p i) = false.
Proof.
  revert e0 m0. induction n as [|n IH]; intros e0 m0 Hrun Hm Hseg; simpl in Hrun.
  - injection Hrun as <- <- <-. split; [lia|]. intros i _ Hi. apply Hseg; [lia|exact Hi].
  - destruct (Path.isSlash (Path.charAt p n)) eqn:Hs.
    + destruct m0; simpl in Hrun.
      * apply (IH _ _ Hrun Hm). intros i _ Hi. rewrite (Hm eq_refl) in Hi. lia.
      * injection Hrun as <- <- <-. split; [lia|]. intros i Hi1 Hi2.
        apply Hseg; [lia|exact Hi2].
    + destruct (e0 =? -1)%Z eqn:He.
      * apply (IH _ _ Hrun); [discriminate|]. intros i Hi1 Hi2.
        assert (i = n) by lia. subst i. exact Hs.
      * apply Z.eqb_neq in He. apply (IH _ _ Hrun).
        { intros ->. exfalso. apply He. apply Hm. reflexivity. }
        intros i Hi1 Hi2. destruct (Nat.eq_dec i n) as [->|Hne]; [exact Hs|].
        apply Hseg; [lia|exact Hi2].
Qed.

Lemma basename_slashFree (p : string) : slashFree (Path.basename p "").
Proof.
  intros i. unfold Path.basename. simpl.
  destruct (Path.basename_loop p (String.length p) (0%Z, (-1)%Z, true))
    as [[start e] m] eqn:Hrun.
  destruct (basename_loop_segment _ Hrun) as [H0 Hseg]; [reflexivity| |].
  { intros j _ Hj. lia. }
  destruct (e =? -1)%Z; [destruct i; reflexivity|].
  destruct (Path.isSlash (Path.charAt (Path.zslice p start e) i)) eqn:Hs; [|reflexivity].
  apply charAt_zslice in Hs. destruct Hs as [Hs Hlt].
  rewrite Hseg in Hs; [discriminate|lia|lia].
Qed.

Lemma basename_loop_steady (b : string) (n : nat) (e : Z) :
  slashFree b -> e <> (-1)%Z ->
  Path.basename_loop b n (0%Z, e, false) = (0%Z, e, false).
Proof.
  intros Hb He. induction n as [|n IH]; simpl; [reflexivity|].
  rewrite Hb. apply Z.eqb_neq in He. rewrite He. exact IH.
Qed.

Lemma zslice_all (b : string) : Path.zslice b 0 (Path.zlen b) = b.
Proof.
  unfold Path.zslice, Js.slice, Path.zlen. simpl. apply take_all. lia.
Qed.

(** A single segment is its own base name. *)
Lemma basename_of_segment (b : string) : slashFree b -> Path.basename b "" = b.
Proof.
  intros Hb. unfold Path.basename. simpl.
  destruct (String.length b) as [|n] eqn:Hlen.
  - destruct b; [reflexivity|discriminate].
  - simpl. rewrite Hb. rewrite basename_loop_steady by (assumption || lia).
    replace (Z.of_nat n + 1)%Z with (Path.zlen b) by (unfold Path.zlen; lia).
    destruct (Path.zlen b =? -1)%Z eqn:E;
      [apply Z.eqb_eq in E; unfold Path.zlen in E; lia|].
    apply zslice_all.
Qed.

(** On a single segment the loop of [extname] finds the end at the end of
    the string and a dot, if any, at an index that has a character before
    it once [preDotState] has left 0. *)
Lemma extname_loop_segment (b : string) (n : nat) (st : Path.ExtState) :
  slashFree b -> n <= String.length b ->
  Path.e_startPart st = 0%Z ->
  (n = String.length b /\ Path.e_end st = (-1)%Z \/ Path.e_end st = Path.zlen b) ->
  (Path.e_startDot st = (-1)%Z /\ Path.e_preDotState st = 0%Z
   \/ (Z.of_nat n <= Path.e_startDot st < Path.zlen b
       /\ (Path.e_preDotState st <> 0 -> Z.of_nat n < Path.e_startDot st))%Z) ->
  let st' := Path.extname_loop b n st in
  Path.e_startPart st' = 0%Z
  /\ (Path.e_end st' = (-1)%Z \/ Path.e_end st' = Path.zlen b)
  /\ (Path.e_startDot st' = (-1)%Z
      \/ (0 <= Path.e_startDot st' < Path.zlen b
          /\ (Path.e_preDotState st' <> 0 -> 0 < Path.e_startDot st'))%Z).
Proof.
  intros Hb. revert st. induction n as [|n IH]; intros st Hn Hpart Hend Hdot.
  - simpl. split; [exact Hpart|]. split; [destruct Hend as [[_ H]|H]; auto|].
    destruct Hdot as [[H _]|H]; [now left|right]. simpl in H. exact H.
  - simpl Path.extname_loop. rewrite Hb. destruct st as [sd sp e m pd].
    cbn [Path.e_startPart Path.e_end Path.e_startDot Path.e_preDotState
         Path.e_matchedSlash] in *. subst sp.
    assert (Hlen : (Z.of_nat n + 1 <= Path.zlen b)%Z) by (unfold Path.zlen; lia).
    assert (Hend' : (if (e =? -1)%Z
                     then Path.mkExt sd 0 (Z.of_nat n + 1) false pd
                     else Path.mkExt sd 0 e m pd)
                    = Path.mkExt sd 0 (Path.zlen b)
                                 (if (e =? -1)%Z then false else m) pd).
    { destruct (Z.eqb_spec e (-1)) as [He|He]; f_equal.
      - destruct Hend as [[H _]|H]; unfold Path.zlen in *; lia.
      - destruct Hend as [[_ H]|H]; [contradiction|exact H]. }
    cbv zeta. rewrite Hend'. clear Hend'.
    cbn [Path.e_startPart Path.e_end Path.e_startDot Path.e_preDotState
         Path.e_matchedSlash].
    destruct (Path.isDot (Path.charAt b n));
      destruct (Z.eqb_spec sd (-1)) as [Hsd|Hsd];
      try destruct (Z.eqb_spec pd 1) as [Hpd|Hpd];
      cbn [negb]; apply IH;
      cbn [Path.e_startPart Path.e_end Path.e_startDot Path.e_preDotState
           Path.e_matchedSlash];
      try lia; try reflexivity; try (right; reflexivity);
      destruct Hdot as [[H1 H2]|[H1 H2]];
      first [ left; split; lia
            | right; split; [lia|intros; lia]
            | exfalso; lia ].
Qed.

(** The extension of a single segment is empty or a proper suffix of it
    that leaves at least one character in front. *)
Lemma extname_of_segment (b : string) :
  slashFree b ->
  Path.extname b = ""
  \/ exists k, 1 <= k /\ k < String.length b /\ Path.extname b = Js.drop k b.
Proof.
  intros Hb. unfold Path.extname.
  pose proof (@extname_loop_segment b (String.length b)
                (Path.mkExt (-1) 0 (-1) true 0) Hb (le_n _) eq_refl) as H.
  simpl in H. destruct H as (Hpart & Hend & Hdot).
  { left. now split. }
  { left. now split. }
  set (st := Path.extname_loop b (String.length b) (Path.mkExt (-1) 0 (-1) true 0)) in *.
  destruct (Z.eqb_spec (Path.e_startDot st) (-1)) as [Hsd|Hsd]; [now left|].
  destruct (Z.eqb_spec (Path.e_end st) (-1)) as [He|He]; [now left|].
  destruct (Z.eqb_spec (Path.e_preDotState st) 0) as [Hpd|Hpd]; [now left|].
  simpl. destruct (_ && _); [now left|]. right.
  destruct Hdot as [Hdot|[Hrange Hpos]]; [contradiction|].
  destruct Hend as [Hend|Hend]; [contradiction|].
  exists (Z.to_nat (Path.e_startDot st)). specialize (Hpos Hpd).
  unfold Path.zlen in *. split; [lia|]. split; [lia|].
  rewrite Hend. unfold Path.zslice, Js.slice. apply take_all.
  rewrite length_drop. lia.
Qed.

Lemma basename_ext_loop_steady (b ext : string) (n : nat) (e f : Z) :
  slashFree b -> f <> (-1)%Z ->
  Path.basename_ext_loop b ext n (Path.mkBase 0 e false (-1) f)
  = Path.mkBase 0 e false (-1) f.
Proof.
  intros Hb Hf. induction n as [|n IH]; simpl; [reflexivity|].
  rewrite Hb. apply Z.eqb_neq in Hf. rewrite Hf. simpl. exact IH.
Qed.

(** The loop of [basename] with the extension [drop k b] of a single
    segment [b]: the characters from the end down to index [k] match the
    extension, and [end] becomes [k]. *)
Lemma basename_ext_loop_suffix (b : string) (k n : nat) (m : bool) (f : Z) :
  slashFree b -> k < n -> n <= String.length b ->
  (f = (-1)%Z /\ n = String.length b \/ f = Path.zlen b /\ m = false) ->
  Path.basename_ext_loop b (Js.drop k b) n
    (Path.mkBase 0 (-1) m (Z.of_nat n - Z.of_nat k - 1) f)
  = Path.mkBase 0 (Z.of_nat k) false (-1) (Path.zlen b).
Proof.
  intros Hb. revert m f. induction n as [|n IH]; intros m f Hk Hn Hf; [lia|].
  cbn [Path.basename_ext_loop]. rewrite Hb.
  cbn [Path.b_extIdx Path.b_start Path.b_end Path.b_matchedSlash Path.b_firstNonSlashEnd].
  assert (Hz : Path.zlen b <> (-1)%Z) by (unfold Path.zlen; lia).
  assert (H1 : (if (f =? -1)%Z
                then Path.mkBase 0 (-1) false (Z.of_nat (S n) - Z.of_nat k - 1)
                                 (Z.of_nat n + 1)
                else Path.mkBase 0 (-1) m (Z.of_nat (S n) - Z.of_nat k - 1) f)
               = Path.mkBase 0 (-1) false (Z.of_nat n - Z.of_nat k) (Path.zlen b)).
  { destruct Hf as [[-> Hlen]|[-> ->]].
    - rewrite Z.eqb_refl. f_equal; unfold Path.zlen; lia.
    - destruct (Z.eqb_spec (Path.zlen b) (-1)); [contradiction|]. f_equal. lia. }
  rewrite H1.
  cbn [Path.b_extIdx Path.b_start Path.b_end Path.b_matchedSlash Path.b_firstNonSlashEnd].
  destruct (Z.leb_spec 0 (Z.of_nat n - Z.of_nat k)) as [_|Hneg]; [|lia].
  rewrite charAt_drop.
  replace (k + Z.to_nat (Z.of_nat n - Z.of_nat k)) with n by lia.
  rewrite Ascii.eqb_refl.
  destruct (Z.eqb_spec (Z.of_nat n - Z.of_nat k - 1) (-1)) as [He|He].
  - assert (n = k) by lia. subst n. rewrite He.
    apply basename_ext_loop_steady; assumption.
  - apply IH; [lia|lia|]. right. now split.
Qed.

(** Without its extension a single segment is the part in front of it. *)
Lemma basename_without_suffix (b : string) (k : nat) :
  slashFree b -> 1 <= k -> k < String.length b ->
  Path.basename b (Js.drop k b) = Js.take k b.
Proof.
  intros Hb Hk Hlen. unfold Path.basename.
  assert (Hext : Path.zlen (Js.drop k b) = (Path.zlen b - Z.of_nat k)%Z).
  { unfold Path.zlen. rewrite length_drop. lia. }
  rewrite Hext.
  destruct (Z.ltb_spec 0 (Path.zlen b - Z.of_nat k)) as [_|H];
    [|unfold Path.zlen in H; lia].
  destruct (Z.leb_spec (Path.zlen b - Z.of_nat k) (Path.zlen b)) as [_|H]; [|lia].
  destruct (Z.eqb_spec (Path.zlen b - Z.of_nat k) (Path.zlen b)) as [H|_]; [lia|].
  simpl andb. cbv iota.
  replace (Path.zlen b - Z.of_nat k - 1)%Z
    with (Z.of_nat (String.length b) - Z.of_nat k - 1)%Z by reflexivity.
  rewrite basename_ext_loop_suffix; [|assumption|lia|lia|left; now split].
  cbn [Path.b_start Path.b_end Path.b_firstNonSlashEnd].
  destruct (Z.eqb_spec 0 (Z.of_nat k)) as [H|_]; [lia|].
  destruct (Z.eqb_spec (Z.of_nat k) (-1)) as [H|_]; [lia|].
  unfold Path.zslice, Js.slice. simpl Z.to_nat. rewrite Nat2Z.id.
  rewrite Nat.sub_0_r. reflexivity.
Qed.

Lemma append_empty (s : string) : s ++ "" = s.
Proof. induction s; simpl; congruence. Qed.

(** The two [basename] / [extname] calls of the cache index split a single
    segment into a stem and an extension that give the segment back. *)
Lemma stem_and_extension (b : string) :
  slashFree b -> Path.basename b (Path.extname b) ++ Path.extname b = b.
Proof.
  intros Hb. destruct (extname_of_segment Hb) as [->|(k & Hk & Hlen & ->)].
  - rewrite basename_of_segment by assumption. apply append_empty.
  - rewrite basename_without_suffix by assumption. apply take_drop.
Qed.

(** ** A document that was stored is found again *)

Lemma add_entry_In (name : string) (entries : list string) :
  In name (add_entry name entries).
Proof.
  unfold add_entry. destruct (Js.arr_includes entries name) eqn:E.
  - now apply arr_includes_In.
  - apply in_or_app. right. now left.
Qed.

(** After a successful [Deno.writeFile] the file holds the content and its
    directory lists its name. *)
Lemma writeFile_lists (path contents : string) (w w' : World) :
  writeFile path contents w = (Ok tt, w') ->
  assoc path (fs_files (fs w')) = Some contents
  /\ exists entries,
       assoc (Path.dirname path) (fs_dirs (fs w')) = Some entries
       /\ In (Path.basename path "") entries.
Proof.
  intros H. split; [exact (writeFile_stores _ _ _ H)|].
  revert H. unfold writeFile, fs_call.
  destruct (faults w (fsops w)); [discriminate|].
  destruct (assoc (Path.dirname path) (fs_dirs (fs w))) as [es|]; [|discriminate].
  destruct (assoc path (fs_dirs (fs w))); [discriminate|].
  intros [= <-]. simpl. eexists. split; [apply assoc_set_same|apply add_entry_In].
Qed.

Lemma parseJson_world (host : Host) (text : string) (w : World) :
  snd (parseJson host text w) = w.
Proof. unfold parseJson. now destruct (JSON_parse host text). Qed.

(** What a successful turn of [tryPublicFetchOrCached] leaves behind. *)
Lemma publicAttempt_stores (host : Host) (url filepath : string) (parse : bool)
      (w w1 : World) (r : option json) :
  publicAttempt host url filepath parse w = (Ok r, w1) ->
  exists res,
    fetchSuccess url w = (Ok res, fetched url w)
    /\ assoc filepath (fs_files (fs w1)) = Some (body res)
    /\ (exists entries,
          assoc (Path.dirname filepath) (fs_dirs (fs w1)) = Some entries
          /\ In (Path.basename filepath "") entries)
    /\ (if parse then fst (parseJson host (body res) w1) = Ok r else r = None).
Proof.
  unfold publicAttempt. unfold bind at 1. rewrite fetchSuccess_result.
  destruct (upstream w (requests w) url) as [res|]; [|discriminate].
  destruct (ok res); [|discriminate].
  unfold bind at 1. rewrite console_result.
  unfold bind at 1.
  destruct (mkdir (Path.dirname filepath) _) as [[[]|e|] w2]; try discriminate.
  unfold bind at 1.
  destruct (writeFile filepath (body res) w2) as [[[]|e|] w3] eqn:Hw; try discriminate.
  destruct (writeFile_lists _ _ _ Hw) as [Hfile Hdir].
  intros H. exists res. split; [reflexivity|].
  destruct parse.
  - pose proof (parseJson_world host (body res) w3) as Hp.
    rewrite H in Hp. simpl in Hp. subst w1. rewrite H. now repeat split.
  - injection H as <- <-. now repeat split.
Qed.

Lemma find_finds {A} (p : A -> bool) (l : list A) (x : A) :
  In x l -> p x = true -> exists y, find p l = Some y /\ p y = true.
Proof.
  intros Hin Hp. destruct (find p l) as [y|] eqn:E.
  - exists y. split; [reflexivity|]. now apply find_some in E.
  - now rewrite (find_none _ _ E _ Hin) in Hp.
Qed.

(** The cache index finds a file by its path when the directory of the
    path lists its base name: the call with the path alone. *)
Lemma findExistingCachedFile_by_path (filepath : string) (w : World)
      (entries : list string) :
  Path.basename filepath "" <> "" ->
  assoc (Path.dirname filepath) (fs_dirs (fs w)) = Some entries ->
  In (Path.basename filepath "") entries ->
  faults w (fsops w) = None ->
  exists e,
    findExistingCachedFile filepath None None w
    = (Ok (Some e), afterReadDir (Path.dirname filepath) w)
    /\ e <> "".
Proof.
  intros Hname Hdir Hin Hfault.
  set (b := Path.basename filepath "") in *.
  assert (Hsplit : Path.basename b (Path.extname b) ++ Path.extname b = b)
    by apply stem_and_extension, basename_slashFree.
  assert (Hr : resolveLookup filepath None None
               = (Path.dirname filepath, Path.basename b (Path.extname b),
                  Path.extname b)) by reflexivity.
  rewrite (findExistingCachedFile_result _ _ _ w Hr).
  unfold listing. rewrite Hdir, Hfault. simpl fst. simpl snd.
  destruct (@find_finds _ (cacheNameMatches (Path.basename b (Path.extname b))
                                            (Path.extname b)) entries b Hin)
    as (y & Hfind & Hy).
  { unfold cacheNameMatches. rewrite Hsplit, String.eqb_refl. reflexivity. }
  rewrite Hfind. exists y. split; [reflexivity|].
  intros ->. unfold cacheNameMatches in Hy. rewrite Hsplit in Hy.
  apply orb_true_iff in Hy. destruct Hy as [Hy|Hy].
  - apply String.eqb_eq in Hy. now symmetry in Hy.
  - apply andb_true_iff in Hy. destruct Hy as [_ Hy]. apply Nat.eqb_eq in Hy.
    simpl in Hy. lia.
Qed.

(** X1.  What [tryPublicFetchOrCached] has stored it finds again.  After a
    turn of the loop that fetched [url] and wrote the file, any later call
    for the same URL over the same output tree (cache reuse enabled, no
    [--refresh], the directory readable) makes no request and leaves the
    tree as it is, even with no attempt allowed: without [parse] it
    returns [undefined], and with [parse] it returns the value the first
    call returned, provided the file can be read. *)
Theorem stored_file_is_found_again :
  forall (host : Host) (cfg : Config) (url : string) (parse : bool)
         (w w1 : World) (r : option json),
    canReuseCache cfg = true ->
    refresh cfg = false ->
    Js.startsWith url origin = true ->
    Path.basename (publicFilepath cfg url) "" <> "" ->
    publicAttempt host url (publicFilepath cfg url) parse w = (Ok r, w1) ->
    forall (n : nat) (w2 : World),
      fs w2 = fs w1 ->
      faults w2 (fsops w2) = None ->
      (fst (tryPublicFetchOrCached host cfg n url false w2) = Ok None
       /\ requests (snd (tryPublicFetchOrCached host cfg n url false w2)) = requests w2
       /\ fs (snd (tryPublicFetchOrCached host cfg n url false w2)) = fs w2)
      /\ (parse = true ->
          faults w2 (S (fsops w2)) = None ->
          fst (tryPublicFetchOrCached host cfg n url true w2) = Ok r
          /\ requests (snd (tryPublicFetchOrCached host cfg n url true w2)) = requests w2
          /\ fs (snd (tryPublicFetchOrCached host cfg n url true w2)) = fs w2).
Proof.
  intros host cfg url parse w w1 r Hreuse Hrefresh Horigin Hname Hrun n w2 Hfs Hfault.
  destruct (publicAttempt_stores _ _ _ _ _ Hrun)
    as (res & _ & Hfile & (entries & Hdir & Hin) & Hr).
  rewrite <- Hfs in Hfile, Hdir.
  destruct (findExistingCachedFile_by_path _ _ Hname Hdir Hin Hfault) as (e & Hfind & He).
  assert (Hcall : forall p,
             tryPublicFetchOrCached host cfg n url p w2
             = readCached host (publicFilepath cfg url) p
                 (logged LLog ["reusing cached file"; publicFilepath cfg url]
                         (afterReadDir (Path.dirname (publicFilepath cfg url)) w2))).
  { intros p. unfold tryPublicFetchOrCached. rewrite Horigin, Hreuse. simpl.
    unfold bind at 1. rewrite Hfind, (found_some He), Hrefresh. reflexivity. }
  split.
  - rewrite Hcall. now repeat split.
  - intros -> Hfault2. rewrite Hcall.
    unfold readCached, bind, readFile, fs_call. simpl. rewrite Hfault2, Hfile.
    pose proof (parseJson_world host (body res)) as Hw.
    unfold parseJson in *. destruct (JSON_parse host (body res)); simpl in *.
    + now repeat split.
    + discriminate.
Qed.

Lemma stored_file_is_found_again_witness :
  let cfg := configure [] true in
  let url := "https://papunika.com/map/foo.png" in
  let w := Demo.start Demo.emptyMirror Demo.site in
  let w1 := snd (publicAttempt Demo.host url (publicFilepath cfg url) false w) in
  publicFilepath cfg url = "mirror/foo.png"
  /\ assoc "mirror/foo.png" (fs_files (fs w1)) = Some "PNG"
  /\ fst (tryPublicFetchOrCached Demo.host cfg 0 url false w1) = Ok None
  /\ requests (snd (tryPublicFetchOrCached Demo.host cfg 0 url false w1)) = requests w1.
Proof.
  intros cfg url w w1. split; [reflexivity|]. split; [reflexivity|].
  pose proof (@stored_file_is_found_again Demo.host cfg url false w w1 None
                eq_refl eq_refl eq_refl) as H.
  destruct H with (n := 0) (w2 := w1) as [(H1 & H2 & _) _].
  - discriminate.
  - reflexivity.
  - reflexivity.
  - reflexivity.
  - split; [exact H1|exact H2].
Defined.

(** ** The retry loops *)



Lemma fetchRootPage_loop_turn (n i : nat) (w : World) :
  fetchRootPage_loop (S n) i w
  = match upstream w (requests w) rootUrl with
    | Responds r =>
        if ok r then (Ok (body r), fetched rootUrl w)
        else fetchRootPage_loop n (S i)
               (slept (backoff i)
                  (logged LLog ["retrying in " ++ Js.Z_toString (backoff i) ++ "ms"]
                     (logged LError ["failed to fetch root page:";
                                     show (BadStatusCodeError (status r))]
                        (fetched rootUrl w))))
    | NetworkFails =>
        fetchRootPage_loop n (S i)
          (slept (backoff i)
             (logged LLog ["retrying in " ++ Js.Z_toString (backoff i) ++ "ms"]
                (logged LError ["failed to fetch root page:";
                                show (TypeError "error sending request")]
                   (fetched rootUrl w))))
    end.
Proof.
  cbn [fetchRootPage_loop]. rewrite try_fetch, fetchSuccess_result.
  destruct (upstream w (requests w) rootUrl) as [r|]; [destruct (ok r)|]; reflexivity.
Qed.

Lemma fetchRootPage_loop_retries (k : nat) :
  forall (n i : nat) (w : World) (r : Response),
    k < n ->
    (forall j, j < k -> refused (upstream w (requests w + j) rootUrl) = true) ->
    upstream w (requests w + k) rootUrl = Responds r ->
    ok r = true ->
    exists w',
      fetchRootPage_loop n i w = (Ok (body r), w')
      /\ requests w' = requests w + S k
      /\ sleeps (trace w') = (rev (map backoff (seq i k)) ++ sleeps (trace w))%list
      /\ fs w' = fs w /\ fsops w' = fsops w.
Proof.
  induction k as [|k IH]; intros n i w r Hn Hfail Hok Hr;
    (destruct n as [|n]; [lia|]); rewrite fetchRootPage_loop_turn.
  - rewrite Nat.add_0_r in Hok. rewrite Hok, Hr. eexists. split; [reflexivity|].
    simpl. repeat split. lia.
  - pose proof (Hfail 0 (Nat.lt_0_succ k)) as H0. rewrite Nat.add_0_r in H0.
    assert (Hnext : forall w1,
               upstream w1 = upstream w -> requests w1 = S (requests w) ->
               sleeps (trace w1) = backoff i :: sleeps (trace w) ->
               fs w1 = fs w -> fsops w1 = fsops w ->
               exists w',
                 fetchRootPage_loop n (S i) w1 = (Ok (body r), w')
                 /\ requests w' = requests w + S (S k)
                 /\ sleeps (trace w')
                    = (rev (map backoff (seq i (S k))) ++ sleeps (trace w))%list
                 /\ fs w' = fs w /\ fsops w' = fsops w).
    { intros w1 Hup Hreq Hsl Hfs Hops.
      destruct (IH n (S i) w1 r) as (w' & Hrun & Hreq' & Hsl' & Hfs' & Hops').
      - lia.
      - intros j Hj. rewrite Hup, Hreq.
        replace (S (requests w) + j) with (requests w + S j) by lia.
        apply Hfail. lia.
      - rewrite Hup, Hreq.
        replace (S (requests w) + k) with (requests w + S k) by lia. exact Hok.
      - exact Hr.
      - exists w'. split; [exact Hrun|]. split; [lia|]. split; [|split; congruence].
        rewrite Hsl', Hsl. cbn [seq map rev]. rewrite <- app_assoc. reflexivity. }
    destruct (upstream w (requests w) rootUrl) as [r0|]; simpl in H0.
    + apply negb_true_iff in H0. rewrite H0. apply Hnext; reflexivity.
    + apply Hnext; reflexivity.
Qed.

(** X3.  [fetchRootPage] retries until the entry document is served.  When
    the first [k] requests for [rootUrl] are refused (a transport failure
    or a status outside 200..299) and the next one is answered with a 2xx
    status, it returns the body of that answer after exactly [k + 1]
    requests, having slept [backoff 0], ..., [backoff (k - 1)] in this
    order, and without touching the file system. *)
Theorem fetchRootPage_retries_until_served :
  forall (k n : nat) (w : World) (r : Response),
    k < n ->
    (forall j, j < k -> refused (upstream w (requests w + j) rootUrl) = true) ->
    upstream w (requests w + k) rootUrl = Responds r ->
    ok r = true ->
    exists w',
      fetchRootPage n w = (Ok (body r), w')
      /\ requests w' = requests w + S k
      /\ rev (sleeps (trace w')) = (rev (sleeps (trace w)) ++ map backoff (seq 0 k))%list
      /\ fs w' = fs w /\ fsops w' = fsops w.
Proof.
  intros k n w r Hn Hfail Hok Hr.
  destruct (@fetchRootPage_loop_retries k n 0 w r Hn Hfail Hok Hr)
    as (w' & Hrun & Hreq & Hsl & Hfs).
  exists w'. split; [exact Hrun|]. split; [exact Hreq|]. split; [|exact Hfs].
  rewrite Hsl, rev_app_distr, rev_involutive. reflexivity.
Qed.

Lemma fetchRootPage_retries_until_served_witness :
  exists w',
    fetchRootPage 3 (Demo.start Demo.emptyMirror (flaky 2)) = (Ok Demo.page, w')
    /\ requests w' = 3
    /\ rev (sleeps (trace w')) = [250; 500]%Z.
Proof.
  destruct (@fetchRootPage_retries_until_served 2 3
              (Demo.start Demo.emptyMirror (flaky 2))
              (mkResponse 200 (Some "text/html") Demo.page))
    as (w' & H1 & H2 & H3 & _).
  - lia.
  - intros j Hj. destruct j as [|[|j]]; [reflexivity|reflexivity|lia].
  - reflexivity.
  - reflexivity.
  - exists w'. split; [exact H1|]. split; [exact H2|exact H3].
Defined.

(** X4.  [fetchRootPage] never raises and never touches the file system:
    whatever the upstream answers, the result is a page or the loop is
    still retrying. *)
Theorem fetchRootPage_never_raises :
  forall (n : nat) (w : World) (e : Exn),
    fst (fetchRootPage n w) <> Throw e
    /\ fs (snd (fetchRootPage n w)) = fs w
    /\ fsops (snd (fetchRootPage n w)) = fsops w.
Proof.
  intros n w e. unfold fetchRootPage. generalize 0 as i. revert w.
  induction n as [|n IH]; intros w i; [now repeat split|].
  rewrite fetchRootPage_loop_turn.
  destruct (upstream w (requests w) rootUrl) as [r|]; [destruct (ok r)|].
  - now repeat split.
  - match goal with |- context [fetchRootPage_loop n (S i) ?w2] =>
      destruct (IH w2 (S i)) as (H1 & H2 & H3) end.
    split; [exact H1|]. split; [rewrite H2|rewrite H3]; reflexivity.
  - match goal with |- context [fetchRootPage_loop n (S i) ?w2] =>
      destruct (IH w2 (S i)) as (H1 & H2 & H3) end.
    split; [exact H1|]. split; [rewrite H2|rewrite H3]; reflexivity.
Qed.

Lemma cacheLoop_never_raises (n i : nat) (url prefix : string)
      (mutate : option (string -> string -> M string))
      (filename extname writedir : string) (existing : option string)
      (w : World) (e : Exn) :
  fst (cacheLoop n i url prefix mutate filename extname writedir existing w) <> Throw e.
Proof.
  revert i w. induction n as [|n IH]; intros i w; [discriminate|].
  cbn [cacheLoop]. unfold try_catch.
  destruct (cacheAttempt url prefix mutate filename extname writedir w)
    as [[p|err|] w1]; try discriminate.
  unfold bind at 1. rewrite console_result.
  destruct (found existing).
  - unfold bind. rewrite console_result. discriminate.
  - unfold retryAfter, bind. rewrite console_result, sleep_result. apply IH.
Qed.

(** X5.  The only error [cacheResourceFile] raises is the [TypeError] of
    an invalid URL, which it raises before any effect.  For a URL that
    parses, every failure of an attempt (the fetch, the transform, [mkdir],
    [writeFile]) is caught: the call returns a path or is still retrying. *)
Theorem cacheResourceFile_raises_only_on_invalid_url :
  forall (host : Host) (cfg : Config) (n : nat) (url prefix : string)
         (mutate : option (string -> string -> M string)) (w : World),
    (URL host url None = None ->
     cacheResourceFile host cfg n url prefix mutate w
     = (Throw (TypeError "Invalid URL"), w))
    /\ (URL host url None <> None ->
        forall e, fst (cacheResourceFile host cfg n url prefix mutate w) <> Throw e).
Proof.
  intros host cfg n url prefix mutate w. split.
  - intros Hurl. unfold cacheResourceFile, bind.
    now rewrite sanitizedBasename_result, Hurl.
  - intros Hurl e. unfold cacheResourceFile. unfold bind at 1.
    rewrite sanitizedBasename_result.
    destruct (URL host url None) as [u|]; [|contradiction].
    unfold bind at 1.
    destruct (canReuseCache cfg).
    + destruct (resolveLookup (Path.join [outdir cfg; prefix])
                  (Some (Path.basename (sanitize (pathname u))
                                       (Path.extname (sanitize (pathname u)))))
                  (Some (Path.extname (sanitize (pathname u)))))
        as [[d nm] ex] eqn:Hr.
      rewrite (findExistingCachedFile_result _ _ _ w Hr).
      destruct (find _ _) as [f|]; [|destruct (snd (listing d w))];
        (destruct (_ && _);
         [unfold bind; rewrite console_result; discriminate
         |apply cacheLoop_never_raises]).
    + unfold ret. destruct (_ && _);
        [unfold bind; rewrite console_result; discriminate
        |apply cacheLoop_never_raises].
Qed.

Lemma cacheResourceFile_raises_only_on_invalid_url_witness :
  cacheResourceFile Demo.host (configure [] true) 3 "style.css" "static/css" None
    (Demo.start Demo.emptyMirror Demo.site)
  = (Throw (TypeError "Invalid URL"), Demo.start Demo.emptyMirror Demo.site)
  /\ fst (cacheResourceFile Demo.host (configure [] true) 3
            "https://papunika.com/map/busy.css" "static/css" None
            (Demo.start Demo.emptyMirror Demo.site))
     <> Throw (BadStatusCodeError 503).
Proof.
  split.
  - apply (cacheResourceFile_raises_only_on_invalid_url Demo.host (configure [] true) 3
             "style.css" "static/css" None (Demo.start Demo.emptyMirror Demo.site)).
    reflexivity.
  - apply (cacheResourceFile_raises_only_on_invalid_url Demo.host (configure [] true) 3
             "https://papunika.com/map/busy.css" "static/css" None
             (Demo.start Demo.emptyMirror Demo.site)).
    discriminate.
Defined.

Lemma publicLoop_without_parse (host : Host) (n i : nat) (url filepath : string)
      (existing : option string) (w : World) :
  fst (publicLoop host n i url filepath false existing w) = Ok None
  \/ fst (publicLoop host n i url filepath false existing w) = Spin.
Proof.
  revert i w. induction n as [|n IH]; intros i w; [now right|].
  cbn [publicLoop]. unfold try_catch.
  destruct (publicAttempt host url filepath false w) as [[r|err|] w1] eqn:Hrun.
  - destruct (publicAttempt_stores _ _ _ _ _ Hrun) as (_ & _ & _ & _ & ->). now left.
  - destruct (isNotFoundStatus err).
    + unfold bind. rewrite console_result. now left.
    + unfold bind at 1. rewrite console_result. destruct (found existing).
      * unfold bind. rewrite console_result. now left.
      * unfold retryAfter, bind. rewrite console_result, sleep_result. apply IH.
  - now right.
Qed.

(** X6.  Without [parse], [tryPublicFetchOrCached] never raises for a URL
    of the origin: every failure of an attempt is caught, and the call
    returns [undefined] or is still retrying. *)
Theorem tryPublicFetchOrCached_without_parse_never_raises :
  forall (host : Host) (cfg : Config) (n : nat) (url : string) (w : World),
    Js.startsWith url origin = true ->
    fst (tryPublicFetchOrCached host cfg n url false w) = Ok None
    \/ fst (tryPublicFetchOrCached host cfg n url false w) = Spin.
Proof.
  intros host cfg n url w Horigin. unfold tryPublicFetchOrCached.
  rewrite Horigin. cbn [negb]. unfold bind.
  destruct (canReuseCache cfg).
  - destruct (resolveLookup (publicFilepath cfg url) None None) as [[d nm] ex] eqn:Hr.
    rewrite (findExistingCachedFile_result _ _ _ w Hr).
    destruct (find _ _) as [f|]; [|destruct (snd (listing d w))];
      (destruct (_ && _);
       [rewrite console_result; now left|apply publicLoop_without_parse]).
  - unfold ret. destruct (_ && _);
      [rewrite console_result; now left|apply publicLoop_without_parse].
Qed.

Lemma tryPublicFetchOrCached_without_parse_never_raises_witness :
  fst (tryPublicFetchOrCached Demo.host (configure [] true) 2
         "https://papunika.com/map/busy.css" false
         (Demo.start Demo.emptyMirror Demo.site)) = Ok None
  \/ fst (tryPublicFetchOrCached Demo.host (configure [] true) 2
            "https://papunika.com/map/busy.css" false
            (Demo.start Demo.emptyMirror Demo.site)) = Spin.
Proof.
  apply tryPublicFetchOrCached_without_parse_never_raises. reflexivity.
Defined.

(** X7.  The stale copy of a public file.  When the cache index has found
    a file [e] for the path and the fetch is made all the same (a refresh
    was asked for), a failure of the attempt other than status 404 makes
    [tryPublicFetchOrCached] fall back to the disk: it logs the failure and
    the name [e], and returns what [readCached] makes of the file at the
    mirrored path, with no retry and no further request.  The file read is
    the one at the mirrored path, whatever name the index has found. *)
Theorem tryPublicFetchOrCached_falls_back_to_stale_file :
  forall (host : Host) (cfg : Config) (n : nat) (url : string) (parse : bool)
         (e : string) (w w0 w1 : World) (err : Exn),
    Js.startsWith url origin = true ->
    canReuseCache cfg = true ->
    refresh cfg = true ->
    findExistingCachedFile (publicFilepath cfg url) None None w = (Ok (Some e), w0) ->
    e <> "" ->
    publicAttempt host url (publicFilepath cfg url) parse w0 = (Throw err, w1) ->
    isNotFoundStatus err = false ->
    tryPublicFetchOrCached host cfg (S n) url parse w
    = readCached host (publicFilepath cfg url) parse
        (logged LLog ["reusing cached file"; e]
           (logged LError ["failed to cache " ++ url ++ ":"; show err] w1))
    /\ requests (snd (tryPublicFetchOrCached host cfg (S n) url parse w)) = requests w1
    /\ fs (snd (tryPublicFetchOrCached host cfg (S n) url parse w)) = fs w1
    /\ (parse = false ->
        fst (tryPublicFetchOrCached host cfg (S n) url parse w) = Ok None).
Proof.
  intros host cfg n url parse e w w0 w1 err Horigin Hreuse Hrefresh Hfound He
         Hfail H404.
  assert (Hrun : tryPublicFetchOrCached host cfg (S n) url parse w
                 = readCached host (publicFilepath cfg url) parse
                     (logged LLog ["reusing cached file"; e]
                        (logged LError ["failed to cache " ++ url ++ ":"; show err] w1))).
  { unfold tryPublicFetchOrCached. rewrite Horigin, Hreuse. cbn [negb].
    unfold bind at 1. rewrite Hfound, Hrefresh, andb_false_r.
    cbn [publicLoop]. unfold try_catch. rewrite Hfail, H404.
    unfold bind at 1. rewrite console_result, (found_some He).
    unfold bind at 1. rewrite console_result. reflexivity. }
  rewrite Hrun. split; [reflexivity|].
  destruct (readCached_preserves host (publicFilepath cfg url) parse
              (logged LLog ["reusing cached file"; e]
                 (logged LError ["failed to cache " ++ url ++ ":"; show err] w1)))
    as [Hr Hf].
  split; [exact Hr|]. split; [exact Hf|]. intros ->. reflexivity.
Qed.

Lemma tryPublicFetchOrCached_falls_back_to_stale_file_witness :
  let cfg := Demo.refreshing in
  let w := Demo.start staleTree Demo.site in
  publicFilepath cfg Demo.busyUrl = "mirror/busy.css"
  /\ findExistingCachedFile "mirror/busy.css" None None w
     = (Ok (Some "busy.css"), afterReadDir "mirror" w)
  /\ publicAttempt Demo.host Demo.busyUrl "mirror/busy.css" false (afterReadDir "mirror" w)
     = (Throw (BadStatusCodeError 503), fetched Demo.busyUrl (afterReadDir "mirror" w))
  /\ fst (tryPublicFetchOrCached Demo.host cfg 1 Demo.busyUrl false w) = Ok None
  /\ requests (snd (tryPublicFetchOrCached Demo.host cfg 1 Demo.busyUrl false w)) = 1.
Proof.
  intros cfg w.
  assert (H1 : publicFilepath cfg Demo.busyUrl = "mirror/busy.css") by reflexivity.
  assert (H2 : findExistingCachedFile "mirror/busy.css" None None w
               = (Ok (Some "busy.css"), afterReadDir "mirror" w)) by reflexivity.
  assert (H3 : publicAttempt Demo.host Demo.busyUrl "mirror/busy.css" false
                 (afterReadDir "mirror" w)
               = (Throw (BadStatusCodeError 503),
                  fetched Demo.busyUrl (afterReadDir "mirror" w))) by reflexivity.
  repeat (split; [assumption|]).
  destruct (@tryPublicFetchOrCached_falls_back_to_stale_file Demo.host cfg 0
              Demo.busyUrl false "busy.css" w (afterReadDir "mirror" w)
              (fetched Demo.busyUrl (afterReadDir "mirror" w))
              (BadStatusCodeError 503) eq_refl eq_refl eq_refl H2)
    as (_ & Hreq & _ & Hres).
  - discriminate.
  - exact H3.
  - reflexivity.
  - split; [apply Hres; reflexivity|exact Hreq].
Defined.

(** ** The cache index and the fingerprinted names *)

Lemma string_app_assoc (a b c : string) : (a ++ b) ++ c = a ++ b ++ c.
Proof. induction a; simpl; congruence. Qed.




(** ** The configuration *)

Lemma find_all_false {A} (p : A -> bool) (l : list A) :
  (forall a, In a l -> p a = false) -> find p l = None.
Proof.
  induction l as [|x l IH]; intros H; simpl; [reflexivity|].
  rewrite (H x) by now left. apply IH. intros a Ha. apply H. now right.
Qed.

Lemma find_after_false {A} (p : A -> bool) (pre post : list A) (x : A) :
  (forall a, In a pre -> p a = false) ->
  find p (pre ++ x :: post) = if p x then Some x else find p post.
Proof.
  induction pre as [|y pre IH]; intros H; simpl; [reflexivity|].
  rewrite (H y) by now left. apply IH. intros a Ha. apply H. now right.
Qed.

(** X9.  The output directory is never the empty string.  It is [mirror]
    when no argument starts with [--outdir=]; otherwise the first such
    argument decides: its value, or [mirror] when the value is empty, and
    later [--outdir=] arguments are not looked at. *)
Theorem configure_outdir :
  forall (args : list string) (readGranted : bool),
    outdir (configure args readGranted) <> ""
    /\ ((forall a, In a args -> Js.startsWith a "--outdir=" = false) ->
        outdir (configure args readGranted) = "mirror")
    /\ (forall pre d post,
          args = (pre ++ ("--outdir=" ++ d)%string :: post)%list ->
          (forall a, In a pre -> Js.startsWith a "--outdir=" = false) ->
          outdir (configure args readGranted) = if Js.truthy d then d else "mirror").
Proof.
  intros args r. unfold configure. cbn [outdir]. unfold Js.arr_find. split; [|split].
  - destruct (find _ args) as [flag|]; [|discriminate].
    destruct (Js.truthy (Js.substring_from 9 flag)) eqn:E; [|discriminate].
    now apply truthy_nonempty.
  - intros H. now rewrite find_all_false.
  - intros pre d post -> H. rewrite find_after_false by exact H.
    unfold Js.startsWith.
    rewrite (proj2 (prefix_iff "--outdir=" ("--outdir=" ++ d)))
      by (exists d; reflexivity).
    reflexivity.
Qed.

Lemma configure_outdir_witness :
  outdir (configure ["--refresh"; "--outdir=out"; "--outdir=other"] true) = "out"
  /\ outdir (configure ["--outdir="; "--outdir=other"] true) = "mirror"
  /\ outdir (configure ["--refresh"] true) = "mirror".
Proof.
  split; [|split].
  - apply (proj2 (proj2 (configure_outdir ["--refresh"; "--outdir=out"; "--outdir=other"]
                           true)) ["--refresh"] "out" ["--outdir=other"]).
    + reflexivity.
    + intros a [<-|[]]. reflexivity.
  - apply (proj2 (proj2 (configure_outdir ["--outdir="; "--outdir=other"] true))
             [] "" ["--outdir=other"]).
    + reflexivity.
    + intros a [].
  - apply (proj1 (proj2 (configure_outdir ["--refresh"] true))).
    intros a [<-|[]]. reflexivity.
Defined.

Lemma arr_includes_without (pre post : list string) (a flag : string) :
  String.eqb a flag = false ->
  Js.arr_includes (pre ++ a :: post) flag = Js.arr_includes (pre ++ post) flag.
Proof.
  intros H. unfold Js.arr_includes. rewrite !existsb_app. simpl.
  now rewrite String.eqb_sym, H.
Qed.

Lemma find_without {A} (p : A -> bool) (pre post : list A) (a : A) :
  p a = false -> find p (pre ++ a :: post) = find p (pre ++ post).
Proof.
  intros H. induction pre as [|y pre IH]; simpl; [now rewrite H|].
  destruct (p y); [reflexivity|exact IH].
Qed.

(** X10.  Arguments the program does not know are ignored: an argument
    that is none of the five switches and does not start with
    [--outdir=] changes nothing of the configuration, wherever it
    stands. *)
Theorem configure_ignores_other_arguments :
  forall (pre post : list string) (a : string) (readGranted : bool),
    isToggle a = false ->
    Js.startsWith a "--outdir=" = false ->
    configure (pre ++ a :: post) readGranted = configure (pre ++ post) readGranted.
Proof.
  intros pre post a r Htoggle Hout. unfold isToggle, Js.arr_includes in Htoggle.
  cbn [existsb] in Htoggle. repeat rewrite orb_false_iff in Htoggle.
  destruct Htoggle as (H1 & H2 & H3 & H4 & H5 & _).
  unfold configure, Js.arr_find.
  rewrite (find_without (fun flag => Js.startsWith flag "--outdir=") pre post a Hout).
  rewrite !(@arr_includes_without pre post a) by assumption.
  reflexivity.
Qed.

Lemma configure_ignores_other_arguments_witness :
  configure (["--refresh"] ++ "--no-tile" :: ["--outdir=out"]) true
  = configure (["--refresh"] ++ ["--outdir=out"]) true.
Proof.
  apply configure_ignores_other_arguments; reflexivity.
Defined.

(** ** The references of a style sheet *)





Lemma dedup_fresh (seen xs : list string) :
  NoDup (dedup seen xs) /\ forall x, In x (dedup seen xs) -> ~ In x seen /\ In x xs.
Proof.
  revert seen. induction xs as [|x xs IH]; intros seen; cbn [dedup].
  - split; [constructor|intros x []].
  - destruct (Js.arr_includes seen x) eqn:E.
    + destruct (IH seen) as [Hn Hin]. split; [exact Hn|].
      intros y Hy. destruct (Hin y Hy). split; [assumption|now right].
    + destruct (IH (x :: seen)) as [Hn Hin]. split.
      * constructor; [|exact Hn]. intros Hx. destruct (Hin x Hx) as [Hx' _].
        apply Hx'. now left.
      * intros y [<-|Hy].
        -- split; [|now left]. intros Hx. apply arr_includes_In in Hx. congruence.
        -- destruct (Hin y Hy) as [Hy1 Hy2]. split; [|now right].
           intros Hs. apply Hy1. now right.
Qed.

Lemma embedOne_requests (host : Host) (url s r : string) (w : World) :
  Js.startsWith r "#" = false ->
  requests w <= requests (snd (embedOne host url s r w)) <= S (requests w)
  /\ fs (snd (embedOne host url s r w)) = fs w
  /\ forall s', fst (embedOne host url s r w) = Ok s' ->
                requests (snd (embedOne host url s r w)) = S (requests w).
Proof.
  intros H. unfold embedOne. rewrite H. unfold bind.
  destruct (Js.startsWith r "http"); cbn [negb];
    [|destruct (URL host r (Some url)) as [u|]]; unfold ret, throw;
    try rewrite !fetchSuccess_result;
    try (match goal with
         | |- context [upstream w (requests w) ?u] =>
             destruct (upstream w (requests w) u) as [res|];
             [destruct (ok res);
              [destruct (contentType res) as [m|]; [destruct (Js.truthy m)|]|]|]
         end);
    simpl; repeat split; (lia || discriminate).
Qed.

Lemma embedEach_requests (host : Host) (url : string) (rs : list string) :
  forall (s : string) (w : World),
    let count := List.length (filter (fun r => negb (Js.startsWith r "#")) rs) in
    requests w <= requests (snd (embedEach host url s rs w)) <= requests w + count
    /\ fs (snd (embedEach host url s rs w)) = fs w
    /\ forall s', fst (embedEach host url s rs w) = Ok s' ->
                  requests (snd (embedEach host url s rs w)) = requests w + count.
Proof.
  induction rs as [|r rs IH]; intros s w; cbn [embedEach filter].
  - simpl. repeat split; lia.
  - destruct (Js.startsWith r "#") eqn:E; cbn [negb].
    + unfold bind, embedOne. rewrite E. apply IH.
    + destruct (embedOne_requests host url s r w E) as (H1 & H2 & H3).
      unfold bind. destruct (embedOne host url s r w) as [[s1|e|] w1]; cbn [fst snd] in *.
      * specialize (H3 s1 eq_refl). destruct (IH s1 w1) as (I1 & I2 & I3).
        cbn zeta in *. cbn [List.length]. split; [lia|]. split; [congruence|].
        intros s' Hs'. rewrite (I3 s' Hs'). lia.
      * cbn [List.length]. split; [lia|]. split; [exact H2|discriminate].
      * cbn [List.length]. split; [lia|]. split; [exact H2|discriminate].
Qed.

(** X12.  [embedCssUrls] fetches every distinct reference once.  The
    references are the distinct captures that do not start with [#]; a
    call makes at most one request for each, exactly one for each when it
    returns, and never touches the file system. *)
Theorem embedCssUrls_fetches_each_reference_once :
  forall (host : Host) (url s : string) (w : World),
    NoDup (references s)
    /\ requests w <= requests (snd (embedCssUrls host url s w))
       <= requests w + List.length (references s)
    /\ fs (snd (embedCssUrls host url s w)) = fs w
    /\ forall s', fst (embedCssUrls host url s w) = Ok s' ->
                  requests (snd (embedCssUrls host url s w))
                  = requests w + List.length (references s).
Proof.
  intros host url s w. split.
  - unfold references. apply NoDup_filter, dedup_fresh.
  - unfold embedCssUrls, references. apply embedEach_requests.
Qed.

Lemma embedCssUrls_fetches_each_reference_once_witness :
  let w := Demo.start Demo.emptyMirror Demo.site in
  references Demo.plainCss = ["foo.png"]
  /\ exists s',
       fst (embedCssUrls Demo.host Demo.sheetUrl Demo.plainCss w) = Ok s'
       /\ requests (snd (embedCssUrls Demo.host Demo.sheetUrl Demo.plainCss w)) = 1.
Proof.
  intros w. split; [reflexivity|].
  destruct (embedCssUrls_fetches_each_reference_once Demo.host Demo.sheetUrl
              Demo.plainCss w) as (_ & _ & _ & H).
  eexists. split; [vm_compute; reflexivity|].
  exact (H _ ltac:(vm_compute; reflexivity)).
Defined.

(** ** The url pattern *)

Lemma lazyBody_spec (t : string) :
  forall k0 k closing,
    Re.lazyBody k0 t = Some (k, closing) ->
    k0 <= k /\ Re.noLineTerminator (Js.take (k - k0) t) = true.
Proof.
  induction t as [|c t IH]; intros k0 k closing H; cbn [Re.lazyBody] in H;
    [discriminate|].
  destruct (Ascii.eqb c ")").
  { injection H as <- <-. rewrite Nat.sub_diag. now split. }
  destruct (Re.isQuote c && String.prefix ")" t).
  { injection H as <- <-. rewrite Nat.sub_diag. now split. }
  destruct (Re.isLineTerminator c) eqn:Hc; [discriminate|].
  destruct (IH _ _ _ H) as [Hle Hno]. split; [lia|].
  replace (k - k0) with (S (k - S k0)) by lia.
  cbn [Js.take Re.noLineTerminator]. now rewrite Hc, Hno.
Qed.

Lemma prefix_take (p x : string) (k : nat) :
  String.prefix p (Js.take k x) = true -> String.prefix p x = true.
Proof.
  intros H. apply prefix_iff in H. destruct H as [rest H]. apply prefix_iff.
  exists (rest ++ Js.drop k x). rewrite <- string_app_assoc, <- H. symmetry.
  apply take_drop.
Qed.

Lemma urlBodyAt_spec (x cap : string) (n : nat) :
  Re.urlBodyAt x = Some (cap, n) ->
  cap <> "" /\ Js.startsWith cap "data:" = false /\ Re.noLineTerminator cap = true.
Proof.
  unfold Re.urlBodyAt. destruct (String.prefix "data:" x) eqn:Hd; [discriminate|].
  destruct x as [|c t]; [discriminate|].
  destruct (Re.isLineTerminator c) eqn:Hc; [discriminate|].
  destruct (Re.lazyBody 1 t) as [[k closing]|] eqn:Hl; [|discriminate].
  intros [= <- _]. destruct (lazyBody_spec _ _ Hl) as [Hk Hno].
  destruct k as [|k]; [lia|]. rewrite Nat.sub_succ, Nat.sub_0_r in Hno.
  split; [discriminate|]. split.
  - unfold Js.startsWith.
    destruct (String.prefix "data:" (Js.take (S k) (String c t))) eqn:E; [|reflexivity].
    apply prefix_take in E. congruence.
  - cbn [Js.take Re.noLineTerminator]. now rewrite Hc, Hno.
Qed.

Lemma urlAt_spec (s cap : string) (n : nat) :
  Re.urlAt s = Some (cap, n) ->
  cap <> "" /\ Js.startsWith cap "data:" = false /\ Re.noLineTerminator cap = true.
Proof.
  unfold Re.urlAt. destruct (String.prefix "url(" s); [|discriminate].
  assert (Hun : match Re.urlBodyAt (Js.drop 4 s) with
                | Some (cap0, n0) => Some (cap0, 4 + n0)
                | None => None
                end = Some (cap, n) ->
                cap <> "" /\ Js.startsWith cap "data:" = false
                /\ Re.noLineTerminator cap = true).
  { destruct (Re.urlBodyAt (Js.drop 4 s)) as [[cap0 n0]|] eqn:E; [|discriminate].
    intros [= <- _]. exact (urlBodyAt_spec _ E). }
  destruct (Js.drop 4 s) as [|c t]; [exact Hun|].
  destruct (Re.isQuote c); [|exact Hun].
  destruct (Re.urlBodyAt t) as [[cap1 n1]|] eqn:E; [|exact Hun].
  intros [= <- _]. exact (urlBodyAt_spec _ E).
Qed.

(** X13.  What the url pattern captures.  Every reference [embedCssUrls]
    reads from a style sheet is non-empty, holds no line break and does
    not start with [data:], so that a bare [data:] URI is never taken for
    a reference to fetch. *)
Theorem urlCaptures_shape :
  forall (s c : string),
    In c (Re.urlCaptures 0 s) ->
    c <> "" /\ Js.startsWith c "data:" = false /\ Re.noLineTerminator c = true.
Proof.
  intros s c. generalize 0 as skip. induction s as [|a t IH]; intros skip H;
    cbn [Re.urlCaptures] in H; [contradiction|].
  destruct skip as [|k]; [|exact (IH _ H)].
  destruct (Re.urlAt (String a t)) as [[cap n]|] eqn:E; [|exact (IH _ H)].
  destruct H as [<-|H]; [exact (urlAt_spec _ E)|exact (IH _ H)].
Qed.

Lemma urlCaptures_shape_witness :
  In "x.png" (Re.urlCaptures 0 "a{b:url(x.png)} c{d:url(data:image/png;base64,AA)}")
  /\ "x.png" <> "" /\ Js.startsWith "x.png" "data:" = false
  /\ Re.noLineTerminator "x.png" = true.
Proof.
  assert (H : In "x.png"
                 (Re.urlCaptures 0 "a{b:url(x.png)} c{d:url(data:image/png;base64,AA)}"))
    by (vm_compute; tauto).
  split; [exact H|]. exact (urlCaptures_shape _ _ H).
Defined.

(** ** Rewriting the origin in a script *)













(** ** Logical names *)

Lemma every_take (P : ascii -> bool) (n : nat) (s : string) :
  every P s = true -> every P (Js.take n s) = true.
Proof.
  revert s. induction n as [|n IH]; intros s H; [reflexivity|].
  destruct s as [|c t]; [reflexivity|]. cbn [Js.take every] in *.
  apply andb_true_iff in H. destruct H as [Hc Ht]. now rewrite Hc, IH.
Qed.

Lemma every_drop (P : ascii -> bool) (n : nat) (s : string) :
  every P s = true -> every P (Js.drop n s) = true.
Proof.
  revert s. induction n as [|n IH]; intros s H; [exact H|].
  destruct s as [|c t]; [reflexivity|]. cbn [Js.drop every] in *.
  apply andb_true_iff in H. now apply IH.
Qed.

Lemma every_zslice (P : ascii -> bool) (s : string) (a b : Z) :
  every P s = true -> every P (Path.zslice s a b) = true.
Proof. intros H. unfold Path.zslice, Js.slice. now apply every_take, every_drop. Qed.

Lemma slashFree_every (b : string) : slashFree b -> every notSlash b = true.
Proof.
  induction b as [|c t IH]; intros H; [reflexivity|]. cbn [every].
  pose proof (H 0) as H0. unfold Path.charAt, Path.isSlash in H0. cbn in H0.
  unfold notSlash at 1. rewrite H0. apply IH. intros i. exact (H (S i)).
Qed.

Lemma basename_every (P : ascii -> bool) (p : string) :
  every P p = true -> every P (Path.basename p "") = true.
Proof.
  intros H. unfold Path.basename. cbn [Path.zlen String.length Z.of_nat Z.ltb Z.compare andb].
  destruct (Path.basename_loop p (String.length p) (0%Z, (-1)%Z, true)) as [[start e] m].
  destruct (e =? -1)%Z; [reflexivity|now apply every_zslice].
Qed.

Lemma replace_scan_min_every (P : ascii -> bool) (s before : string) :
  P "."%char = true -> every P s = true ->
  every P (Js.replace_scan true ".min." "." 0 before s) = true.
Proof.
  intros Hdot. revert before. induction s as [|c t IH]; intros before H; [reflexivity|].
  cbn [Js.replace_scan]. destruct (String.prefix ".min." (String c t)).
  - change (Js.getSubstitution ".min." before
              (Js.drop (String.length ".min.") (String c t)) ".") with ".".
    cbn [append every]. rewrite Hdot. now apply every_drop.
  - cbn [every] in *. apply andb_true_iff in H. destruct H as [Hc Ht].
    rewrite Hc. now apply IH.
Qed.

Lemma replace_min_every (P : ascii -> bool) (s : string) :
  P "."%char = true -> every P s = true -> every P (Js.replace s ".min." ".") = true.
Proof.
  intros Hdot H. unfold Js.replace. destruct s as [|c t]; [reflexivity|].
  now apply replace_scan_min_every.
Qed.

Lemma wordsDot_every (P : ascii -> bool) (s : string) :
  forall seen t, Re.wordsDot seen s = Some t -> every P s = true -> every P t = true.
Proof.
  induction s as [|c s IH]; intros seen t H Hs; cbn [Re.wordsDot] in H; [discriminate|].
  cbn [every] in Hs. apply andb_true_iff in Hs. destruct Hs as [_ Hs].
  destruct (Re.isWord c); [exact (IH _ _ H Hs)|].
  destruct (seen && Ascii.eqb c "."); [|discriminate]. now injection H as <-.
Qed.

Lemma replaceHashSuffix_every (P : ascii -> bool) (s : string) :
  P "."%char = true -> every P s = true -> every P (Re.replaceHashSuffix s) = true.
Proof.
  intros Hdot. induction s as [|c t IH]; intros H; [reflexivity|].
  cbn [Re.replaceHashSuffix]. destruct (Re.hashSuffixAt (String c t)) as [rest|] eqn:E.
  - cbn [every]. rewrite Hdot. unfold Re.hashSuffixAt in E.
    destruct (Ascii.eqb_spec c "-") as [->|Hc].
    + cbn [every] in H. apply andb_true_iff in H. destruct H as [_ Ht].
      destruct (Re.wordsDot false t) as [t1|] eqn:E1; [|discriminate].
      destruct (Re.wordsDot false t1) as [t2|] eqn:E2; [|discriminate].
      eapply wordsDot_every; [exact E|].
      eapply wordsDot_every; [exact E2|].
      eapply wordsDot_every; [exact E1|exact Ht].
    + exfalso. destruct c as [[] [] [] [] [] [] [] []]; try discriminate.
      now apply Hc.
  - cbn [every] in *. apply andb_true_iff in H. destruct H as [Hc Ht].
    rewrite Hc. now apply IH.
Qed.

Lemma stripAt_every (P : ascii -> bool) (s : string) :
  every P s = true -> every P (Re.stripAt s) = true.
Proof.
  induction s as [|c t IH]; intros H; [reflexivity|]. cbn [Re.stripAt].
  destruct (Ascii.eqb c "@" && Re.noLineTerminator t); [reflexivity|].
  cbn [every] in *. apply andb_true_iff in H. destruct H as [Hc Ht].
  rewrite Hc. now apply IH.
Qed.

Lemma noLineTerminator_every (s : string) :
  Re.noLineTerminator s = every notLineTerminator s.
Proof. induction s as [|c t IH]; [reflexivity|]. cbn. now rewrite IH. Qed.

Lemma stripAt_no_at (s : string) :
  Re.noLineTerminator s = true -> every notAt (Re.stripAt s) = true.
Proof.
  induction s as [|c t IH]; intros H; [reflexivity|].
  cbn [Re.noLineTerminator] in H. apply andb_true_iff in H. destruct H as [_ Ht].
  cbn [Re.stripAt]. rewrite Ht, andb_true_r.
  destruct (Ascii.eqb c "@") eqn:E; [reflexivity|].
  cbn [every]. unfold notAt at 1. rewrite E. now apply IH.
Qed.

(** X15.  The logical name of a resource is a single path segment without
    a version suffix: what [sanitizedBasename] returns holds no slash,
    and, as the path name of a URL holds no line break, no [@]. *)
Theorem sanitizedBasename_is_a_plain_name :
  forall (host : Host) (url name : string) (w w' : World),
    sanitizedBasename host url w = (Ok name, w') ->
    w' = w
    /\ every notSlash name = true
    /\ (forall u, URL host url None = Some u ->
                  Re.noLineTerminator (pathname u) = true ->
                  every notAt name = true).
Proof.
  intros host url name w w'. rewrite sanitizedBasename_result.
  destruct (URL host url None) as [u|]; [|discriminate].
  intros [= <- <-]. split; [reflexivity|]. unfold sanitize. split.
  - apply stripAt_every, replaceHashSuffix_every; [reflexivity|].
    apply replace_min_every; [reflexivity|].
    apply slashFree_every, basename_slashFree.
  - intros u' [= <-] Hno. apply stripAt_no_at.
    rewrite noLineTerminator_every in *.
    apply replaceHashSuffix_every; [reflexivity|].
    apply replace_min_every; [reflexivity|]. now apply basename_every.
Qed.

Lemma sanitizedBasename_is_a_plain_name_witness :
  let w := Demo.start Demo.emptyMirror Demo.site in
  sanitizedBasename Demo.host "https://cdn.example/npm/lib/app.min.js@2.1?x=1" w
  = (Ok "app.js", w)
  /\ every notSlash "app.js" = true
  /\ every notAt "app.js" = true.
Proof.
  intros w.
  assert (H : sanitizedBasename Demo.host "https://cdn.example/npm/lib/app.min.js@2.1?x=1" w
              = (Ok "app.js", w)) by reflexivity.
  split; [exact H|].
  destruct (sanitizedBasename_is_a_plain_name _ _ _ H) as (_ & H1 & H2).
  split; [exact H1|]. apply (H2 _ eq_refl). reflexivity.
Defined.

(** ** The footprint of a public fetch *)

Lemma Emits_lookup_by_path (P : Event -> Prop) (filepath : string) :
  P (EvReadDir (Path.dirname filepath)) -> (forall l args, P (EvConsole l args)) ->
  Emits P (findExistingCachedFile filepath None None).
Proof.
  intros Hr Hc. unfold findExistingCachedFile.
  change (resolveLookup filepath None None)
    with (Path.dirname filepath,
          Path.basename (Path.basename filepath "")
                        (Path.extname (Path.basename filepath "")),
          Path.extname (Path.basename filepath "")).
  cbv iota beta. apply Emits_try_catch.
  - apply Emits_bind; [now apply Emits_readDir | intros; apply Emits_scanDir].
  - intros err. unfold lookupFailed. emits; auto.
Qed.

Lemma Emits_retry (A : Type) (P : Event -> Prop) (i : nat) (again : M A) :
  (forall l args, P (EvConsole l args)) -> P (EvSleep (backoff i)) ->
  Emits P again -> Emits P (retryAfter i again).
Proof. intros Hc Hs Ha. unfold retryAfter. emits; auto. Qed.

Lemma Emits_readCached_at (P : Event -> Prop) (host : Host) (filepath : string)
      (parse : bool) :
  P (EvReadFile filepath) -> Emits P (readCached host filepath parse).
Proof.
  intros H. unfold readCached. destruct parse; [|apply Emits_ret].
  apply Emits_bind; [now apply Emits_readFile|intros; apply Emits_parseJson].
Qed.

Lemma Emits_publicLoop_footprint (host : Host) (n i : nat) (url filepath : string)
      (parse : bool) (existing : option string) :
  Emits (publicFootprint url filepath)
        (publicLoop host n i url filepath parse existing).
Proof.
  revert i. induction n as [|n IH]; intros i; cbn [publicLoop]; [apply Emits_spin|].
  apply Emits_try_catch.
  - unfold publicAttempt. apply Emits_bind; [now apply Emits_fetchSuccess|].
    intros res. apply Emits_bind; [now apply Emits_console|]. intros _.
    apply Emits_bind; [now apply Emits_mkdir|]. intros _.
    apply Emits_bind; [now apply Emits_writeFile|]. intros _.
    destruct parse; [apply Emits_parseJson|apply Emits_ret].
  - intros err. apply Emits_if.
    + apply Emits_bind; [now apply Emits_console|intros; apply Emits_ret].
    + apply Emits_bind; [now apply Emits_console|]. intros _. apply Emits_if.
      * apply Emits_bind; [now apply Emits_console|]. intros _.
        now apply Emits_readCached_at.
      * apply Emits_retry; [intros; exact I|now exists i|apply IH].
Qed.

(** X16.  What a call of [tryPublicFetchOrCached] touches.  Whatever the
    upstream and the file system do, the only URL it requests is its own,
    the only directory it lists or creates is the directory of the
    mirrored path, the only file it reads or writes is the file at the
    mirrored path, and every delay it sleeps is one of the [backoff]
    delays. *)
Theorem tryPublicFetchOrCached_footprint :
  forall (host : Host) (cfg : Config) (n : nat) (url : string) (parse : bool),
    Emits (publicFootprint url (publicFilepath cfg url))
          (tryPublicFetchOrCached host cfg n url parse).
Proof.
  intros host cfg n url parse. unfold tryPublicFetchOrCached.
  apply Emits_if; [apply Emits_throw|].
  apply Emits_bind.
  - apply Emits_if; [|apply Emits_ret].
    apply Emits_lookup_by_path; [reflexivity|intros; exact I].
  - intros existing. apply Emits_if.
    + apply Emits_bind; [now apply Emits_console|]. intros _.
      now apply Emits_readCached_at.
    + apply Emits_publicLoop_footprint.
Qed.

(** ** A run without read access *)

Lemma Emits_publicLoop_unread (host : Host) (n i : nat) (url filepath : string)
      (parse : bool) :
  Emits notRead (publicLoop host n i url filepath parse None).
Proof.
  revert i. induction n as [|n IH]; intros i; cbn [publicLoop]; [apply Emits_spin|].
  apply Emits_try_catch.
  - unfold publicAttempt. apply Emits_bind; [now apply Emits_fetchSuccess|].
    intros res. emits. apply Emits_parseJson.
  - intros err. apply Emits_if; [emits|].
    apply Emits_bind; [emits|]. intros _. cbn [found falsy negb].
    apply Emits_retry; [intros; exact I|exact I|apply IH].
Qed.

Lemma Emits_fetchPublic_unread (host : Host) (cfg : Config) (n : nat)
      (url : string) (parse : bool) :
  canReuseCache cfg = false ->
  Emits notRead (fetchPublic host cfg n url parse).
Proof.
  intros Hcfg. unfold fetchPublic, tryPublicFetchOrCached. rewrite Hcfg.
  apply Emits_if; [apply Emits_throw|].
  apply Emits_after_pure with (a := @None string); [reflexivity|].
  cbn [found falsy negb andb]. apply Emits_publicLoop_unread.
Qed.

Lemma Emits_embedEach_unread (host : Host) (url : string) (rs : list string) (s : string) :
  Emits notRead (embedEach host url s rs).
Proof.
  revert s. induction rs as [|r rest IH]; intros s; cbn [embedEach]; [apply Emits_ret|].
  apply Emits_bind; [|intros; apply IH].
  unfold embedOne. apply Emits_if; [apply Emits_ret|].
  apply Emits_bind.
  - apply Emits_if; [|apply Emits_ret]. destruct (URL host r (Some url)); emits.
  - intros normalizedUrl. apply Emits_bind; [now apply Emits_fetchSuccess|].
    intros res. apply Emits_bind; [|emits].
    destruct (contentType res) as [m|]; [destruct (Js.truthy m)|]; emits.
Qed.

Lemma Emits_cacheLoop_unread (n i : nat) (url prefix : string)
      (mutate : option (string -> string -> M string))
      (filename extname writedir : string) :
  (forall x c, Emits notRead (transform mutate x c)) ->
  Emits notRead (cacheLoop n i url prefix mutate filename extname writedir None).
Proof.
  intros Hm. revert i. induction n as [|n IH]; intros i; cbn [cacheLoop];
    [apply Emits_spin|].
  apply Emits_try_catch.
  - rewrite cacheAttempt_unfold. apply Emits_bind; [now apply Emits_fetchSuccess|].
    intros res. apply Emits_bind; [apply Hm|]. emits.
  - intros err. apply Emits_bind; [emits|]. intros _. cbn [found falsy negb].
    apply Emits_retry; [intros; exact I|exact I|apply IH].
Qed.

Lemma Emits_cacheResourceFile_unread (host : Host) (cfg : Config) (n : nat)
      (url prefix : string) (mutate : option (string -> string -> M string)) :
  canReuseCache cfg = false ->
  (forall x c, Emits notRead (transform mutate x c)) ->
  Emits notRead (cacheResourceFile host cfg n url prefix mutate).
Proof.
  intros Hcfg Hm. unfold cacheResourceFile. rewrite Hcfg.
  destruct (URL host url None) as [u|] eqn:Hu.
  - apply Emits_after_pure with (a := sanitize (pathname u)).
    { intros w. now rewrite sanitizedBasename_result, Hu. }
    apply Emits_after_pure with (a := @None string); [reflexivity|].
    cbn [found falsy negb andb]. now apply Emits_cacheLoop_unread.
  - apply Emits_pure_throw with (e := TypeError "Invalid URL").
    intros w. now rewrite sanitizedBasename_result, Hu.
Qed.

Lemma Emits_rewriteLinks_unread (host : Host) (cfg : Config) (n : nat)
      (links : list (Node host)) (doc : Doc host) :
  canReuseCache cfg = false ->
  Emits notRead (rewriteLinks host cfg n links doc).
Proof.
  intros Hcfg. revert doc.
  induction links as [|link rest IH]; intros doc; cbn [rewriteLinks]; [apply Emits_ret|].
  apply Emits_if; [|apply IH].
  destruct (attrib host doc link "href") as [h|]; [|apply Emits_throw].
  apply Emits_if; [|apply IH].
  apply Emits_bind; [|intros; apply IH].
  apply Emits_cacheResourceFile_unread; [exact Hcfg|]. intros x c.
  apply Emits_embedEach_unread.
Qed.

Lemma Emits_rewriteScripts_unread (host : Host) (cfg : Config) (n : nat)
      (scripts : list (Node host)) (doc : Doc host) :
  canReuseCache cfg = false ->
  Emits notRead (rewriteScripts host cfg n scripts doc).
Proof.
  intros Hcfg. revert doc.
  induction scripts as [|script rest IH]; intros doc; cbn [rewriteScripts];
    [apply Emits_ret|].
  apply Emits_if; [|apply IH].
  apply Emits_if; [apply IH|].
  apply Emits_bind; [|intros; apply IH].
  apply Emits_cacheResourceFile_unread; [exact Hcfg|]. intros x c.
  destruct (Js.includes _ "map.js"); cbn [transform];
    [apply Emits_replaceJsPapunikaUrls | apply Emits_ret].
Qed.

Lemma Emits_tiles_unread (host : Host) (cfg : Config) (n : nat)
      (url : nat -> nat -> nat -> string) (maxZoom : nat) :
  canReuseCache cfg = false ->
  Forall (Emits notRead) (downloadTiles host cfg n url maxZoom).
Proof.
  intros Hcfg. unfold downloadTiles. apply Forall_map, Forall_forall.
  intros u _. now apply Emits_fetchPublic_unread.
Qed.

Lemma Emits_documentMedia_unread (host : Host) (cfg : Config) (n : nat) (doc : value) :
  canReuseCache cfg = false ->
  Emits notRead (documentMedia host cfg n doc).
Proof.
  intros Hcfg. unfold documentMedia. apply Emits_destructure. intros props.
  apply Emits_asArray. intros markers. apply Emits_forEach. intros marker.
  unfold markerGroup. apply Emits_destructure. intros props'.
  apply Emits_asArray. intros data. apply Emits_forEach. intros datum.
  unfold markerMedia. apply Emits_destructure. intros props''.
  apply Emits_bind.
  - apply Emits_if; [|apply Emits_ret].
    destruct (props'' "popupMedia") as [[]|]; try apply Emits_throw.
    apply Emits_if; [|apply Emits_ret].
    now apply Emits_discard, Emits_fetchPublic_unread.
  - intros _. apply Emits_if; [|apply Emits_ret].
    now apply Emits_discard, Emits_fetchPublic_unread.
Qed.

Lemma Emits_zonesPhase_unread (host : Host) (cfg : Config) (n : nat) (zones : value) :
  canReuseCache cfg = false ->
  Emits notRead (zonesPhase host cfg n zones).
Proof.
  intros Hcfg. unfold zonesPhase, zonesBody. apply Emits_if; [|apply Emits_ret].
  apply Emits_bind; [now apply Emits_fetchPublic_unread|]. intros first.
  apply Emits_asArray. intros zs.
  apply Emits_bind.
  { apply Emits_awaitAll, Forall_map, Forall_forall. intros zone _.
    unfold zoneDocument. apply Emits_destructure. intros props.
    now apply Emits_fetchPublic_unread. }
  intros others. apply Emits_bind.
  - apply Emits_forEach. intros doc. now apply Emits_documentMedia_unread.
  - intros _. apply Emits_forEach. intros zone.
    unfold zoneAssets. apply Emits_destructure. intros props.
    apply Emits_bind.
    { apply Emits_if; [|apply Emits_ret].
      now apply Emits_discard, Emits_fetchPublic_unread. }
    intros _. apply Emits_bind.
    { apply Emits_if; [|apply Emits_ret].
      now apply Emits_discard, Emits_fetchPublic_unread. }
    intros _. apply Emits_discard, Emits_awaitAll. unfold zoneTiles.
    destruct (shouldDownloadTiles cfg); [now apply Emits_tiles_unread|constructor].
Qed.

Lemma Emits_fetchRootPage_unread (n i : nat) : Emits notRead (fetchRootPage_loop n i).
Proof.
  revert i. induction n as [|n IH]; intros i; cbn [fetchRootPage_loop];
    [apply Emits_spin|].
  apply Emits_try_catch.
  - apply Emits_bind; [now apply Emits_fetchSuccess | intros; apply Emits_ret].
  - intros err. apply Emits_bind; [emits|]. intros _.
    apply Emits_retry; [intros; exact I|exact I|apply IH].
Qed.

Lemma Emits_mirror_unread (host : Host) (cfg : Config) (n : nat) :
  canReuseCache cfg = false ->
  Emits notRead (mirror host cfg n).
Proof.
  intros Hcfg. unfold mirror.
  apply Emits_bind; [apply Emits_fetchRootPage_unread|]. intros page.
  apply Emits_bind; [now apply Emits_rewriteLinks_unread|]. intros doc1.
  apply Emits_bind; [now apply Emits_rewriteScripts_unread|]. intros doc2.
  apply Emits_bind; [now apply Emits_writeFile|]. intros _.
  apply Emits_bind.
  { apply Emits_awaitAll. unfold overworldTiles.
    destruct (shouldDownloadTiles cfg); [now apply Emits_tiles_unread|constructor]. }
  intros _. apply Emits_bind.
  { unfold assetsPhase. apply Emits_if; [|apply Emits_ret].
    apply Emits_forEach. intros asset.
    now apply Emits_discard, Emits_fetchPublic_unread. }
  intros _. apply Emits_bind; [now apply Emits_fetchPublic_unread|]. intros w.
  apply Emits_destructure. intros props. now apply Emits_zonesPhase_unread.
Qed.

(** X17.  A run without read access reads nothing.  When read access to
    the output directory is granted neither by the query nor on request,
    the whole program, whatever its arguments and whatever the upstream
    answers, never calls [Deno.readDir] or [Deno.readFile]: every event it
    adds to the trace is a request, a log line, a sleep, a [mkdir] or a
    [writeFile]. *)
Theorem run_without_read_access_reads_nothing :
  forall (host : Host) (perms : Permissions) (args : list string) (n : nat),
    readQuery perms = false ->
    readRequest perms = false ->
    Emits notRead (main host perms args n).
Proof.
  intros host perms args n Hq Hr. unfold main.
  apply Emits_if; [apply Emits_throw|]. apply Emits_if; [apply Emits_throw|].
  rewrite Hq, Hr. apply Emits_bind; [now apply Emits_console|]. intros _.
  now apply Emits_mirror_unread.
Qed.

Lemma run_without_read_access_reads_nothing_witness :
  Emits notRead (main Demo.host readDenied ["--refresh"] 2).
Proof.
  apply run_without_read_access_reads_nothing; reflexivity.
Defined.

(** ** A zone document that is missing *)






(** ** The mirrored path *)

(** X19.  Where a public file goes.  The mirrored path of a URL under
    [rootUrl] is the output directory joined with the rest of the URL, and
    so is the mirrored path of a URL of the origin outside [rootUrl]: the
    files of [origin/map/...] and of [origin/...] share one tree, and two
    URLs that differ only by the [/map] in front are kept in one file. *)
Theorem publicFilepath_layout :
  forall (cfg : Config) (rest : string),
    publicFilepath cfg (rootUrl ++ rest) = Path.join [outdir cfg; rest]
    /\ (Js.startsWith (origin ++ rest) rootUrl = false ->
        publicFilepath cfg (origin ++ rest) = Path.join [outdir cfg; rest]
        /\ publicFilepath cfg (origin ++ rest) = publicFilepath cfg (rootUrl ++ rest)).
Proof.
  intros cfg rest.
  assert (H1 : publicFilepath cfg (rootUrl ++ rest) = Path.join [outdir cfg; rest]).
  { unfold publicFilepath, Js.startsWith.
    rewrite (proj2 (prefix_iff rootUrl (rootUrl ++ rest))) by (exists rest; reflexivity).
    unfold Js.substring_from. now rewrite drop_app. }
  split; [exact H1|]. intros H.
  assert (H2 : publicFilepath cfg (origin ++ rest) = Path.join [outdir cfg; rest]).
  { unfold publicFilepath. rewrite H. unfold Js.substring_from. now rewrite drop_app. }
  split; [exact H2|]. now rewrite H1, H2.
Qed.

Lemma publicFilepath_layout_witness :
  publicFilepath (configure [] true) "https://papunika.com/assets/Island/island_7.png"
  = "mirror/assets/Island/island_7.png"
  /\ publicFilepath (configure [] true) "https://papunika.com/assets/Island/island_7.png"
     = publicFilepath (configure [] true)
         "https://papunika.com/map/assets/Island/island_7.png".
Proof.
  destruct (publicFilepath_layout (configure [] true) "/assets/Island/island_7.png")
    as [_ H].
  destruct H as [H1 H2]; [reflexivity|]. split; [exact H1|exact H2].
Defined.

(** ** A document that does not parse *)

Lemma fs_call_error {A} (ev : Event) (op : FileSystem -> Result A * FileSystem)
      (w w' : World) (e : Exn) :
  (forall fs0 e' fs1, op fs0 = (Throw e', fs1) -> exists name, e' = DenoError name) ->
  fs_call ev op w = (Throw e, w') -> exists name, e = DenoError name.
Proof.
  intros Hop. unfold fs_call. destruct (faults w (fsops w)) as [f|].
  - intros [= <- _]. now eexists.
  - destruct (op (fs w)) as [r fs1] eqn:E. intros [= -> _]. exact (Hop _ _ _ E).
Qed.

Lemma mkdir_error (path : string) (w w' : World) (e : Exn) :
  mkdir path w = (Throw e, w') -> exists name, e = DenoError name.
Proof.
  apply fs_call_error. intros fs0 e' fs1.
  destruct (assoc path (fs_files fs0)); [|discriminate].
  intros [= <- _]. now eexists.
Qed.

Lemma writeFile_error (path contents : string) (w w' : World) (e : Exn) :
  writeFile path contents w = (Throw e, w') -> exists name, e = DenoError name.
Proof.
  apply fs_call_error. intros fs0 e' fs1. cbv zeta.
  destruct (assoc (Path.dirname path) (fs_dirs fs0));
    [destruct (assoc path (fs_dirs fs0))|]; try discriminate;
    intros [= <- _]; now eexists.
Qed.

(** A [SyntaxError] of a turn comes from [JSON.parse], after the file is
    written. *)
Lemma publicAttempt_syntax_error (host : Host) (url filepath : string)
      (w w1 : World) (m : string) :
  publicAttempt host url filepath true w = (Throw (SyntaxError m), w1) ->
  exists res,
    JSON_parse host (body res) = None
    /\ assoc filepath (fs_files (fs w1)) = Some (body res)
    /\ exists entries,
         assoc (Path.dirname filepath) (fs_dirs (fs w1)) = Some entries
         /\ In (Path.basename filepath "") entries.
Proof.
  unfold publicAttempt. unfold bind at 1. rewrite fetchSuccess_result.
  destruct (upstream w (requests w) url) as [res|]; [|discriminate].
  destruct (ok res); [|discriminate].
  unfold bind at 1. rewrite console_result. unfold bind at 1.
  destruct (mkdir (Path.dirname filepath) _) as [[[]|e|] w2] eqn:Hm.
  - unfold bind at 1.
    destruct (writeFile filepath (body res) w2) as [[[]|e|] w3] eqn:Hw.
    + destruct (writeFile_lists _ _ _ Hw) as [Hfile Hdir].
      unfold parseJson. destruct (JSON_parse host (body res)) eqn:Hp; [discriminate|].
      intros [= _ <-]. exists res. now repeat split.
    + intros [= -> _]. destruct (writeFile_error _ _ _ Hw) as [name Hn]. discriminate.
    + discriminate.
  - intros [= -> _]. destruct (mkdir_error _ _ Hm) as [name Hn]. discriminate.
  - discriminate.
Qed.

(** X20.  A document that does not parse is stored all the same.  The
    file is written before [JSON.parse] runs, so a turn of
    [tryPublicFetchOrCached] that ends with a [SyntaxError] leaves the
    document on disk; any later call for that URL over the same output
    tree (cache reuse enabled, no [--refresh]) finds the file, makes no
    request and raises the [SyntaxError] of the cached text to its
    caller. *)
Theorem unparsable_document_is_kept_and_raises_later :
  forall (host : Host) (cfg : Config) (url : string) (w w1 : World) (m : string),
    canReuseCache cfg = true ->
    refresh cfg = false ->
    Js.startsWith url origin = true ->
    Path.basename (publicFilepath cfg url) "" <> "" ->
    publicAttempt host url (publicFilepath cfg url) true w = (Throw (SyntaxError m), w1) ->
    forall (n : nat) (w2 : World),
      fs w2 = fs w1 ->
      faults w2 (fsops w2) = None ->
      faults w2 (S (fsops w2)) = None ->
      fst (tryPublicFetchOrCached host cfg n url true w2)
      = Throw (SyntaxError "Unexpected token in JSON")
      /\ requests (snd (tryPublicFetchOrCached host cfg n url true w2)) = requests w2.
Proof.
  intros host cfg url w w1 m Hreuse Hrefresh Horigin Hname Hrun n w2 Hfs Hf1 Hf2.
  destruct (publicAttempt_syntax_error _ _ _ _ Hrun)
    as (res & Hparse & Hfile & entries & Hdir & Hin).
  rewrite <- Hfs in Hfile, Hdir.
  destruct (findExistingCachedFile_by_path _ _ Hname Hdir Hin Hf1) as (e & Hfind & He).
  assert (Hcall : tryPublicFetchOrCached host cfg n url true w2
                  = readCached host (publicFilepath cfg url) true
                      (logged LLog ["reusing cached file"; publicFilepath cfg url]
                         (afterReadDir (Path.dirname (publicFilepath cfg url)) w2))).
  { unfold tryPublicFetchOrCached. rewrite Horigin, Hreuse. cbn [negb].
    unfold bind at 1. rewrite Hfind, (found_some He), Hrefresh. reflexivity. }
  rewrite Hcall. unfold readCached, bind, readFile, fs_call. simpl.
  rewrite Hf2, Hfile. unfold parseJson. rewrite Hparse. now split.
Qed.

Lemma unparsable_document_is_kept_and_raises_later_witness :
  let cfg := configure [] true in
  let url := "https://papunika.com/map/foo.png" in
  let w := Demo.start Demo.emptyMirror Demo.site in
  let w1 := snd (publicAttempt Demo.host url (publicFilepath cfg url) true w) in
  fst (publicAttempt Demo.host url (publicFilepath cfg url) true w)
  = Throw (SyntaxError "Unexpected token in JSON")
  /\ fst (tryPublicFetchOrCached Demo.host cfg 0 url true w1)
     = Throw (SyntaxError "Unexpected token in JSON")
  /\ requests (snd (tryPublicFetchOrCached Demo.host cfg 0 url true w1)) = requests w1.
Proof.
  intros cfg url w w1. split; [reflexivity|].
  apply (@unparsable_document_is_kept_and_raises_later Demo.host cfg url w w1
           "Unexpected token in JSON" eq_refl eq_refl eq_refl); try reflexivity.
  discriminate.
Defined.

(** ** The tiles of a pyramid *)

Lemma NoDup_map_injective {A B} (f : A -> B) (l : list A) :
  (forall x y, f x = f y -> x = y) -> NoDup l -> NoDup (map f l).
Proof.
  intros Hf. induction 1 as [|a l Ha Hl IH]; cbn [map]; constructor; [|exact IH].
  intros Hin. apply in_map_iff in Hin. destruct Hin as (x & Hx & Hin).
  apply Hf in Hx. now subst x.
Qed.

Lemma NoDup_flat_map_disjoint {A B} (f : A -> list B) (l : list A) :
  NoDup l ->
  (forall a, In a l -> NoDup (f a)) ->
  (forall a a' b, In a l -> In a' l -> In b (f a) -> In b (f a') -> a = a') ->
  NoDup (flat_map f l).
Proof.
  induction 1 as [|a l Ha Hl IH]; intros Hf Hdis; cbn [flat_map]; [constructor|].
  apply NoDup_app.
  - apply Hf. now left.
  - apply IH; [intros; apply Hf; now right|].
    intros x x' b Hx Hx'. apply Hdis; now right.
  - intros b Hb Hb'. apply in_flat_map in Hb'. destruct Hb' as (a' & Ha' & Hb').
    assert (a = a') by (apply (Hdis a a' b); auto; [now left|now right]).
    subst a'. contradiction.
Qed.

(** X21.  [downloadTiles] enumerates no tile twice: the coordinates
    [(zoom, x, y)] it walks are pairwise distinct. *)
Theorem downloadTiles_enumerates_each_tile_once :
  forall (maxZoom : nat), NoDup (tileCoords maxZoom).
Proof.
  intros maxZoom. unfold tileCoords, indices. apply NoDup_flat_map_disjoint.
  - apply seq_NoDup.
  - intros zoom _. apply NoDup_flat_map_disjoint.
    + apply seq_NoDup.
    + intros x _. apply NoDup_map_injective; [|apply seq_NoDup].
      intros y y' [= ->]. reflexivity.
    + intros x x' [[z x0] y] _ _ Hb Hb'.
      apply in_map_iff in Hb. destruct Hb as (y1 & [= _ <- _] & _).
      apply in_map_iff in Hb'. destruct Hb' as (y2 & [= _ <- _] & _). reflexivity.
  - intros zoom zoom' [[z x] y] _ _ Hb Hb'.
    apply in_flat_map in Hb. destruct Hb as (x1 & _ & Hb).
    apply in_map_iff in Hb. destruct Hb as (y1 & [= <- _ _] & _).
    apply in_flat_map in Hb'. destruct Hb' as (x2 & _ & Hb').
    apply in_map_iff in Hb'. destruct Hb' as (y2 & [= <- _ _] & _). reflexivity.
Qed.

(** ** A sibling that looks like a cached copy *)

(** X22.  The cache index and the read do not look at the same file.  The
    index accepts any entry that passes its name test, but what
    [tryPublicFetchOrCached] reads is the file at the mirrored path: when
    the index has found an entry and there is no file at the mirrored path
    (the entry is a sibling with a fingerprint-shaped name), a call with
    [parse] makes no request and raises the [NotFound] error of
    [Deno.readFile] to its caller. *)
Theorem sibling_is_taken_for_the_cached_document :
  forall (host : Host) (cfg : Config) (n : nat) (url e : string) (w w0 : World),
    Js.startsWith url origin = true ->
    canReuseCache cfg = true ->
    refresh cfg = false ->
    findExistingCachedFile (publicFilepath cfg url) None None w = (Ok (Some e), w0) ->
    e <> "" ->
    assoc (publicFilepath cfg url) (fs_files (fs w)) = None ->
    faults w0 (fsops w0) = None ->
    fst (tryPublicFetchOrCached host cfg n url true w) = Throw (DenoError "NotFound")
    /\ requests (snd (tryPublicFetchOrCached host cfg n url true w)) = requests w
    /\ fs (snd (tryPublicFetchOrCached host cfg n url true w)) = fs w.
Proof.
  intros host cfg n url e w w0 Horigin Hreuse Hrefresh Hfound He Hfile Hfault.
  destruct (findExistingCachedFile_preserves _ _ _ _ Hfound) as [Hreq Hfs].
  assert (Hcall : tryPublicFetchOrCached host cfg n url true w
                  = readCached host (publicFilepath cfg url) true
                      (logged LLog ["reusing cached file"; publicFilepath cfg url] w0)).
  { unfold tryPublicFetchOrCached. rewrite Horigin, Hreuse. cbn [negb].
    unfold bind at 1. rewrite Hfound, (found_some He), Hrefresh. reflexivity. }
  rewrite Hcall. unfold readCached, bind, readFile, fs_call. simpl.
  rewrite Hfault, Hfs, Hfile. simpl. now repeat split.
Qed.

Lemma sibling_is_taken_for_the_cached_document_witness :
  let cfg := configure [] true in
  let url := "https://papunika.com/map/doc.json" in
  let w := Demo.start siblingTree Demo.site in
  findExistingCachedFile (publicFilepath cfg url) None None w
  = (Ok (Some ("doc-" ++ Demo.fingerprint ++ ".json")), afterReadDir "mirror" w)
  /\ fst (tryPublicFetchOrCached Demo.host cfg 3 url true w) = Throw (DenoError "NotFound")
  /\ requests (snd (tryPublicFetchOrCached Demo.host cfg 3 url true w)) = 0.
Proof.
  intros cfg url w.
  assert (H : findExistingCachedFile (publicFilepath cfg url) None None w
              = (Ok (Some ("doc-" ++ Demo.fingerprint ++ ".json")),
                 afterReadDir "mirror" w)) by reflexivity.
  split; [exact H|].
  destruct (@sibling_is_taken_for_the_cached_document Demo.host cfg 3 url
              ("doc-" ++ Demo.fingerprint ++ ".json") w (afterReadDir "mirror" w)
              eq_refl eq_refl eq_refl H) as (H1 & H2 & _).
  - discriminate.
  - reflexivity.
  - reflexivity.
  - split; [exact H1|exact H2].
Defined.

(** ** Head elements that are left alone *)

(** X23.  What the rewriting of the document head leaves alone.  Links
    that are no tags or whose [href] holds [fonts.googleapis.com], and
    head elements that are no scripts or have no [src], are passed over:
    when all the elements are of these kinds the loops make no request,
    touch no file and return the document as it is. *)
Theorem head_elements_left_alone :
  forall (host : Host) (cfg : Config) (n : nat) (doc : Doc host) (w : World),
    (forall links,
        (forall link, In link links ->
            String.eqb (node_type host doc link) "tag" = false
            \/ exists h, attrib host doc link "href" = Some h
                         /\ Js.includes h "fonts.googleapis.com" = true) ->
        rewriteLinks host cfg n links doc w = (Ok doc, w))
    /\ (forall scripts,
          (forall script, In script scripts ->
              String.eqb (node_type host doc script) "script" = false
              \/ found (attrib host doc script "src") = false) ->
          rewriteScripts host cfg n scripts doc w = (Ok doc, w)).
Proof.
  intros host cfg n doc w. split.
  - induction links as [|link rest IH]; intros H; [reflexivity|].
    cbn [rewriteLinks].
    assert (Hrest : rewriteLinks host cfg n rest doc w = (Ok doc, w)).
    { apply IH. intros l Hl. apply H. now right. }
    destruct (H link (or_introl eq_refl)) as [Ht|(h & Hh & Hf)].
    + now rewrite Ht.
    + rewrite Hh, Hf. cbn [negb]. now destruct (String.eqb _ "tag").
  - induction scripts as [|script rest IH]; intros H; [reflexivity|].
    cbn [rewriteScripts].
    assert (Hrest : rewriteScripts host cfg n rest doc w = (Ok doc, w)).
    { apply IH. intros s Hs. apply H. now right. }
    destruct (H script (or_introl eq_refl)) as [Ht|Hs].
    + now rewrite Ht.
    + now rewrite Hs, andb_false_r.
Qed.

Lemma head_elements_left_alone_witness :
  let w := Demo.start Demo.emptyMirror Demo.site in
  rewriteLinks fontsHost (configure [] true) 3 [tt; tt] "<html></html>" w
  = (Ok "<html></html>", w)
  /\ rewriteScripts fontsHost (configure [] true) 3 [tt] "<html></html>" w
     = (Ok "<html></html>", w).
Proof.
  intros w.
  destruct (head_elements_left_alone fontsHost (configure [] true) 3 "<html></html>" w)
    as [Hlinks Hscripts].
  split.
  - apply Hlinks. intros link _. right. eexists. split; reflexivity.
  - apply Hscripts. intros script _. left. reflexivity.
Defined.

(** ** A refresh fetches again *)

Lemma requests_after_first_fetch {A} (url : string) (k : Response -> M A)
      (h : Exn -> M A) (w : World) :
  (forall r, Emits anyEvent (k r)) ->
  (forall e, Emits anyEvent (h e)) ->
  requests w < requests (snd (try_catch (bind (fetchSuccess url) k) h w)).
Proof.
  intros Hk Hh. unfold try_catch, bind. rewrite fetchSuccess_result.
  assert (Hthrow : forall e, requests w < requests (snd (h e (fetched url w)))).
  { intros e. destruct (Hh e (fetched url w)) as (_ & _ & _ & H). exact H. }
  destruct (upstream w (requests w) url) as [r|]; [destruct (ok r)|];
    try apply Hthrow.
  destruct (Hk r (fetched url w)) as (_ & _ & _ & H1).
  destruct (k r (fetched url w)) as [[a|e|] w1]; cbn [snd] in *; try exact H1.
  destruct (Hh e w1) as (_ & _ & _ & H2). cbn [requests fetched] in *. lia.
Qed.

Lemma publicLoop_requests (host : Host) (n i : nat) (url filepath : string)
      (parse : bool) (existing : option string) (w : World) :
  requests w
  < requests (snd (publicLoop host (S n) i url filepath parse existing w)).
Proof.
  cbn [publicLoop]. unfold publicAttempt. apply requests_after_first_fetch.
  - intros res. emits. apply Emits_parseJson.
  - intros err. apply Emits_if; [emits|].
    apply Emits_bind; [emits|]. intros _. apply Emits_if.
    + apply Emits_bind; [emits | intros; apply Emits_readCached].
    + apply Emits_retryAfter; [intros; exact I .. | apply Emits_publicLoop].
Qed.

Lemma cacheLoop_requests (n i : nat) (url prefix : string)
      (mutate : option (string -> string -> M string))
      (filename extname writedir : string) (existing : option string) (w : World) :
  (forall x c, Emits anyEvent (transform mutate x c)) ->
  requests w
  < requests (snd (cacheLoop (S n) i url prefix mutate filename extname writedir
                             existing w)).
Proof.
  intros Hm. cbn [cacheLoop]. rewrite cacheAttempt_unfold.
  apply requests_after_first_fetch.
  - intros res. apply Emits_bind; [apply Hm|]. emits.
  - intros err. apply Emits_bind; [emits|]. intros _. apply Emits_if; [emits|].
    apply Emits_retryAfter; [intros; exact I .. |].
    apply Emits_cacheLoop; [apply Benign_any|intros; exact I|exact Hm].
Qed.

Lemma lookup_keeps_requests (b : bool) (dir : string) (name ext : option string)
      (w : World) :
  exists existing w0,
    (if b then findExistingCachedFile dir name ext else ret None) w
    = (Ok existing, w0)
    /\ requests w0 = requests w
    /\ (b = false -> existing = None).
Proof.
  destruct b; [|now exists None, w].
  destruct (resolveLookup dir name ext) as [[d nm] e] eqn:Hr.
  rewrite (findExistingCachedFile_result _ _ _ w Hr).
  destruct (find _ _) as [f|]; [|destruct (snd (listing d w)) as [err|]];
    eexists; eexists; (split; [reflexivity|]); (split; [|discriminate]);
    try reflexivity.
  destruct (afterLookupFailed_same err (afterReadDir d w)) as (_ & H & _). exact H.
Qed.

(** X24.  A refresh fetches again.  With [--refresh], or without read
    access to the output directory, no cached copy stands in for a fetch:
    every call of [tryPublicFetchOrCached] for a URL of the origin and
    every call of [cacheResourceFile] for a URL that parses makes at least
    one request as soon as one attempt is allowed. *)
Theorem refresh_fetches_again :
  forall (host : Host) (cfg : Config) (n : nat),
    refresh cfg = true \/ canReuseCache cfg = false ->
    (forall url parse w,
        Js.startsWith url origin = true ->
        requests w < requests (snd (tryPublicFetchOrCached host cfg (S n) url parse w)))
    /\ (forall url prefix mutate w,
          URL host url None <> None ->
          (forall x c, Emits anyEvent (transform mutate x c)) ->
          requests w
          < requests (snd (cacheResourceFile host cfg (S n) url prefix mutate w))).
Proof.
  intros host cfg n Hcfg.
  assert (Hskip : forall existing,
             (canReuseCache cfg = false -> existing = None) ->
             found existing && negb (refresh cfg) = false).
  { intros existing Hex. destruct Hcfg as [->|Hc]; [apply andb_false_r|].
    now rewrite (Hex Hc). }
  split.
  - intros url parse w Horigin. unfold tryPublicFetchOrCached.
    rewrite Horigin. cbn [negb]. unfold bind at 1.
    destruct (lookup_keeps_requests (canReuseCache cfg) (publicFilepath cfg url)
                None None w) as (existing & w0 & -> & Hreq & Hex).
    rewrite (Hskip existing Hex), <- Hreq. apply publicLoop_requests.
  - intros url prefix mutate w Hurl Hm. unfold cacheResourceFile.
    unfold bind at 1. rewrite sanitizedBasename_result.
    destruct (URL host url None) as [u|]; [|contradiction].
    unfold bind at 1.
    match goal with
    | |- context [(if canReuseCache cfg then findExistingCachedFile ?d ?nm ?e
                   else ret None) w] =>
        destruct (lookup_keeps_requests (canReuseCache cfg) d nm e w)
          as (existing & w0 & -> & Hreq & Hex)
    end.
    rewrite (Hskip existing Hex), <- Hreq. now apply cacheLoop_requests.
Qed.

Lemma refresh_fetches_again_witness :
  requests (Demo.start Demo.cachedMirror Demo.site)
  < requests (snd (cacheResourceFile Demo.host Demo.refreshing 1
                     "https://cdn.example/lib/foo.min.css?v=7" "static/css" None
                     (Demo.start Demo.cachedMirror Demo.site)))
  /\ requests (Demo.start staleTree Demo.site)
     < requests (snd (tryPublicFetchOrCached Demo.host Demo.refreshing 1 Demo.busyUrl
                        false (Demo.start staleTree Demo.site))).
Proof.
  destruct (@refresh_fetches_again Demo.host Demo.refreshing 0 (or_introl eq_refl))
    as [Hpublic Hcache].
  split.
  - apply Hcache; [discriminate|]. intros x c. apply Emits_ret.
  - apply Hpublic. reflexivity.
Defined.

(** ** The errors a run ends with *)

Lemma Raises_ret {A} (Q : Exn -> Prop) (a : A) : Raises Q (ret a).
Proof. intros w e. discriminate. Qed.

Lemma Raises_spin {A} (Q : Exn -> Prop) : Raises Q (@spin A).
Proof. intros w e. discriminate. Qed.

Lemma Raises_throw {A} (Q : Exn -> Prop) (e : Exn) : Q e -> Raises Q (@throw A e).
Proof. intros H w e' [= <-]. exact H. Qed.

Lemma Raises_bind {A B} (Q : Exn -> Prop) (m : M A) (k : A -> M B) :
  Raises Q m -> (forall a, Raises Q (k a)) -> Raises Q (bind m k).
Proof.
  intros Hm Hk w e. unfold bind. specialize (Hm w).
  destruct (m w) as [[a|e'|] w1]; cbn [fst] in *.
  - apply Hk.
  - intros [= <-]. now apply Hm.
  - discriminate.
Qed.

(** What the [try] block raises is caught: only the handler counts. *)
Lemma Raises_try_catch {A} (Q : Exn -> Prop) (m : M A) (h : Exn -> M A) :
  (forall e, Raises Q (h e)) -> Raises Q (try_catch m h).
Proof.
  intros Hh w e. unfold try_catch.
  destruct (m w) as [[a|e'|] w1]; [discriminate|apply Hh|discriminate].
Qed.

Lemma Raises_if {A} (Q : Exn -> Prop) (b : bool) (m1 m2 : M A) :
  Raises Q m1 -> Raises Q m2 -> Raises Q (if b then m1 else m2).
Proof. now destruct b. Qed.

Lemma Raises_console (Q : Exn -> Prop) (l : Level) (args : list string) :
  Raises Q (console l args).
Proof. intros w e. discriminate. Qed.

Lemma Raises_sleep (Q : Exn -> Prop) (ms : Z) : Raises Q (sleep ms).
Proof. intros w e. discriminate. Qed.

Lemma Raises_readFile (path : string) : Raises platformError (readFile path).
Proof.
  intros w e H. destruct (readFile path w) as [r w'] eqn:E. cbn [fst] in H. subst r.
  assert (He : exists name, e = DenoError name).
  { revert E. apply fs_call_error. intros fs0 e' fs1.
    destruct (assoc path (fs_files fs0)); [discriminate|].
    intros [= <- _]. now eexists. }
  destruct He as [name ->]. exact I.
Qed.

Lemma Raises_writeFile (path contents : string) :
  Raises platformError (writeFile path contents).
Proof.
  intros w e H. destruct (writeFile path contents w) as [r w'] eqn:E.
  cbn [fst] in H. subst r. destruct (writeFile_error _ _ _ E) as [name ->]. exact I.
Qed.

Lemma Raises_retryAfter {A} (Q : Exn -> Prop) (i : nat) (again : M A) :
  Raises Q again -> Raises Q (retryAfter i again).
Proof.
  intros H. unfold retryAfter.
  apply Raises_bind; [apply Raises_console|]. intros _.
  apply Raises_bind; [apply Raises_sleep|]. intros _. exact H.
Qed.

Lemma Raises_lookup (Q : Exn -> Prop) (b : bool) (dir : string)
      (name ext : option string) :
  Raises Q (if b then findExistingCachedFile dir name ext else ret None).
Proof.
  intros w e H.
  destruct (lookup_keeps_requests b dir name ext w) as (existing & w0 & Hrun & _).
  rewrite Hrun in H. discriminate.
Qed.

Lemma Raises_readCached (host : Host) (filepath : string) (parse : bool) :
  Raises platformError (readCached host filepath parse).
Proof.
  unfold readCached. destruct parse; [|apply Raises_ret].
  apply Raises_bind; [apply Raises_readFile|]. intros text. unfold parseJson.
  destruct (JSON_parse host text); [apply Raises_ret|now apply Raises_throw].
Qed.

Lemma Raises_publicLoop (host : Host) (n i : nat) (url filepath : string)
      (parse : bool) (existing : option string) :
  Raises platformError (publicLoop host n i url filepath parse existing).
Proof.
  revert i. induction n as [|n IH]; intros i; cbn [publicLoop]; [apply Raises_spin|].
  apply Raises_try_catch. intros err. apply Raises_if.
  - apply Raises_bind; [apply Raises_console|intros; apply Raises_ret].
  - apply Raises_bind; [apply Raises_console|]. intros _. apply Raises_if.
    + apply Raises_bind; [apply Raises_console|intros; apply Raises_readCached].
    + apply Raises_retryAfter, IH.
Qed.

Lemma Raises_fetchPublic (host : Host) (cfg : Config) (n : nat) (url : string)
      (parse : bool) :
  Js.startsWith url origin = true ->
  Raises platformError (fetchPublic host cfg n url parse).
Proof.
  intros Horigin. unfold fetchPublic, tryPublicFetchOrCached. rewrite Horigin.
  cbn [negb]. apply Raises_bind; [apply Raises_lookup|]. intros existing.
  apply Raises_if.
  - apply Raises_bind; [apply Raises_console|intros; apply Raises_readCached].
  - apply Raises_publicLoop.
Qed.

Lemma Raises_cacheResourceFile (host : Host) (cfg : Config) (n : nat)
      (url prefix : string) (mutate : option (string -> string -> M string)) :
  Raises platformError (cacheResourceFile host cfg n url prefix mutate).
Proof.
  unfold cacheResourceFile. apply Raises_bind.
  { unfold sanitizedBasename, urlPathname.
    apply Raises_bind; [|intros; apply Raises_ret].
    destruct (URL host url None); [apply Raises_ret|now apply Raises_throw]. }
  intros sanitized. apply Raises_bind; [apply Raises_lookup|]. intros existing.
  apply Raises_if.
  - apply Raises_bind; [apply Raises_console|intros; apply Raises_ret].
  - intros w e H. exfalso. eapply cacheLoop_never_raises. exact H.
Qed.

Lemma Raises_awaitAll {A} (Q : Exn -> Prop) (tasks : list (M A)) :
  Forall (Raises Q) tasks -> Raises Q (awaitAll tasks).
Proof.
  induction 1 as [|t rest Ht Hrest IH]; cbn [awaitAll]; [apply Raises_ret|].
  apply Raises_bind; [exact Ht|]. intros a.
  apply Raises_bind; [exact IH|intros; apply Raises_ret].
Qed.

Lemma Raises_forEach {A} (Q : Exn -> Prop) (f : A -> M unit) (xs : list A) :
  (forall x, Raises Q (f x)) -> Raises Q (forEach f xs).
Proof.
  intros Hf. induction xs as [|x t IH]; cbn [forEach]; [apply Raises_ret|].
  apply Raises_bind; [apply Hf|intros; exact IH].
Qed.

Lemma Raises_discard {A} (Q : Exn -> Prop) (m : M A) :
  Raises Q m -> Raises Q (bind m (fun _ => ret tt)).
Proof. intros H. apply Raises_bind; [exact H|intros; apply Raises_ret]. Qed.

Lemma Raises_destructure {B} (v : value) (k : (string -> value) -> M B) :
  (forall props, Raises platformError (k props)) ->
  Raises platformError (bind (destructure v) k).
Proof.
  intros Hk. apply Raises_bind; [|exact Hk].
  destruct v as [[]|]; first [apply Raises_ret|now apply Raises_throw].
Qed.

Lemma Raises_asArray {B} (v : value) (k : list json -> M B) :
  (forall items, Raises platformError (k items)) ->
  Raises platformError (bind (asArray v) k).
Proof.
  intros Hk. apply Raises_bind; [|exact Hk].
  destruct v as [[]|]; first [apply Raises_ret|now apply Raises_throw].
Qed.

(** Every URL the program builds for [tryPublicFetchOrCached] starts with
    the origin. *)
Lemma startsWith_origin (rest : string) : Js.startsWith (origin ++ rest) origin = true.
Proof. apply prefix_iff. now exists rest. Qed.

Lemma startsWith_rootUrl (rest : string) : Js.startsWith (rootUrl ++ rest) origin = true.
Proof. apply prefix_iff. now exists ("/map" ++ rest). Qed.

Lemma Raises_tiles (host : Host) (cfg : Config) (n : nat)
      (url : nat -> nat -> nat -> string) (maxZoom : nat) :
  (forall zoom x y, Js.startsWith (url zoom x y) origin = true) ->
  Forall (Raises platformError) (downloadTiles host cfg n url maxZoom).
Proof.
  intros Hurl. unfold downloadTiles, tileUrls. rewrite map_map.
  apply Forall_map, Forall_forall. intros [[zoom x] y] _.
  apply Raises_fetchPublic, Hurl.
Qed.

Lemma Raises_rewriteLinks (host : Host) (cfg : Config) (n : nat)
      (links : list (Node host)) (doc : Doc host) :
  Raises platformError (rewriteLinks host cfg n links doc).
Proof.
  revert doc. induction links as [|link rest IH]; intros doc; cbn [rewriteLinks];
    [apply Raises_ret|].
  apply Raises_if; [|apply IH].
  destruct (attrib host doc link "href") as [h|]; [|now apply Raises_throw].
  apply Raises_if; [|apply IH].
  apply Raises_bind; [apply Raises_cacheResourceFile|intros; apply IH].
Qed.

Lemma Raises_rewriteScripts (host : Host) (cfg : Config) (n : nat)
      (scripts : list (Node host)) (doc : Doc host) :
  Raises platformError (rewriteScripts host cfg n scripts doc).
Proof.
  revert doc. induction scripts as [|script rest IH]; intros doc; cbn [rewriteScripts];
    [apply Raises_ret|].
  apply Raises_if; [|apply IH]. apply Raises_if; [apply IH|].
  apply Raises_bind; [apply Raises_cacheResourceFile|intros; apply IH].
Qed.

Lemma Raises_documentMedia (host : Host) (cfg : Config) (n : nat) (doc : value) :
  Raises platformError (documentMedia host cfg n doc).
Proof.
  unfold documentMedia. apply Raises_destructure. intros props.
  apply Raises_asArray. intros markers. apply Raises_forEach. intros marker.
  unfold markerGroup. apply Raises_destructure. intros props'.
  apply Raises_asArray. intros data. apply Raises_forEach. intros datum.
  unfold markerMedia. apply Raises_destructure. intros props''.
  apply Raises_bind.
  - apply Raises_if; [|apply Raises_ret].
    destruct (props'' "popupMedia") as [[]|]; try (now apply Raises_throw).
    apply Raises_if; [|apply Raises_ret].
    apply Raises_discard, Raises_fetchPublic, startsWith_rootUrl.
  - intros _. apply Raises_if; [|apply Raises_ret].
    apply Raises_discard, Raises_fetchPublic, startsWith_origin.
Qed.

Lemma Raises_zonesPhase (host : Host) (cfg : Config) (n : nat) (zones : value) :
  Raises platformError (zonesPhase host cfg n zones).
Proof.
  unfold zonesPhase, zonesBody. apply Raises_if; [|apply Raises_ret].
  apply Raises_bind; [apply Raises_fetchPublic, startsWith_rootUrl|]. intros first.
  apply Raises_asArray. intros zs. apply Raises_bind.
  { apply Raises_awaitAll, Forall_map, Forall_forall. intros zone _.
    unfold zoneDocument. apply Raises_destructure. intros props.
    apply Raises_fetchPublic, startsWith_rootUrl. }
  intros others. apply Raises_bind.
  - apply Raises_forEach. intros doc. apply Raises_documentMedia.
  - intros _. apply Raises_forEach. intros zone.
    unfold zoneAssets. apply Raises_destructure. intros props.
    apply Raises_bind.
    { apply Raises_if; [|apply Raises_ret].
      apply Raises_discard, Raises_fetchPublic, startsWith_rootUrl. }
    intros _. apply Raises_bind.
    { apply Raises_if; [|apply Raises_ret].
      apply Raises_discard, Raises_fetchPublic, startsWith_origin. }
    intros _. apply Raises_discard, Raises_awaitAll. unfold zoneTiles.
    destruct (shouldDownloadTiles cfg); [|constructor].
    apply Raises_tiles. intros zoom x y. apply startsWith_rootUrl.
Qed.

Lemma Raises_fetchRootPage_loop (Q : Exn -> Prop) (n i : nat) :
  Raises Q (fetchRootPage_loop n i).
Proof.
  revert i. induction n as [|n IH]; intros i; cbn [fetchRootPage_loop];
    [apply Raises_spin|].
  apply Raises_try_catch. intros err.
  apply Raises_bind; [apply Raises_console|]. intros _. apply Raises_retryAfter, IH.
Qed.

Lemma Raises_mirror (host : Host) (cfg : Config) (n : nat) :
  Raises platformError (mirror host cfg n).
Proof.
  unfold mirror. apply Raises_bind; [apply Raises_fetchRootPage_loop|].
  intros page. apply Raises_bind; [apply Raises_rewriteLinks|]. intros doc1.
  apply Raises_bind; [apply Raises_rewriteScripts|]. intros doc2.
  apply Raises_bind; [apply Raises_writeFile|]. intros _.
  apply Raises_bind.
  { apply Raises_awaitAll. unfold overworldTiles.
    destruct (shouldDownloadTiles cfg); [|constructor].
    apply Raises_tiles. intros zoom x y. apply (startsWith_origin _). }
  intros _. apply Raises_bind.
  { unfold assetsPhase. apply Raises_if; [|apply Raises_ret].
    apply Raises_forEach. intros asset.
    apply Raises_discard, Raises_fetchPublic, startsWith_rootUrl. }
  intros _. apply Raises_bind; [apply Raises_fetchPublic, startsWith_rootUrl|].
  intros w. apply Raises_destructure. intros props. apply Raises_zonesPhase.
Qed.

(** X25.  No answer of the upstream ends a run.  A run of the program
    never ends with a [BadStatusCodeError], whatever the upstream answers
    and however often, nor with the [bad url] error of
    [tryPublicFetchOrCached], since every URL the program passes to it
    starts with the origin.  The errors a run can end with are the two of
    the permission checks, a [TypeError], a [SyntaxError] and the errors of
    the Deno file API. *)
Theorem no_status_ends_a_run :
  forall (host : Host) (perms : Permissions) (args : list string) (n : nat)
         (w : World) (e : Exn),
    fst (main host perms args n w) = Throw e ->
    runError e.
Proof.
  intros host perms args n w e. unfold main.
  destruct (net perms); cbn [negb]; [|intros [= <-]; now left].
  destruct (write perms); cbn [negb]; [|intros [= <-]; now right].
  intros H.
  assert (Hp : platformError e).
  { revert H. apply Raises_bind; [|intros; apply Raises_mirror].
    apply Raises_if; [apply Raises_ret|apply Raises_console]. }
  destruct e; try contradiction; exact I.
Qed.

Lemma no_status_ends_a_run_witness :
  fst (main Demo.host Demo.allGranted ["--no-tiles"; "--no-assets"] 1
         (Demo.start Demo.emptyMirror Demo.site))
  = Throw (TypeError "Cannot read properties of undefined")
  /\ runError (TypeError "Cannot read properties of undefined").
Proof.
  assert (H : fst (main Demo.host Demo.allGranted ["--no-tiles"; "--no-assets"] 1
                     (Demo.start Demo.emptyMirror Demo.site))
              = Throw (TypeError "Cannot read properties of undefined"))
    by (vm_compute; reflexivity).
  split; [exact H|]. exact (no_status_ends_a_run _ _ _ _ _ H).
Defined.
